(** * The Knowledge Exchange: peer coordination and access control

    A shallow embedding of the Go back end of the P2P academic library
    (package [models]: students, peer registry, academic files, file index,
    ratings; package [analytics]: reputation service, rating service,
    throttler, throttled writer and throttling manager; package [library]:
    indexer, transfer manager and integrity service; package [utils]:
    hashing and addresses; package [gateway]: discovery and the upload and
    download handlers), with the properties its specification states about
    them and further properties of the code.

    Conventions of the embedding.
    - Go [int] and [int64] are [Z], with the 64-bit wrap-around of [+], [-]
      and [*] written out ([wrap64]); [/] on integers is [Z.quot].
    - Go [float64] is modelled by the exact rationals [Q]: a decimal literal
      is the rational it denotes, [float64(n)] is [inject_Z n], and the
      arithmetic does not round.  NaN and the infinities have no counterpart;
      no constant of the code is one of them.  A sum the code builds up step
      by step, such as a score after many events, can differ from the
      rational by the rounding of each step; the property of accumulated
      download penalties states the decision away from the threshold for
      that reason.
    - Go [string] is [string]; [len] is [String.length] (bytes).
    - [map[string]*T] is a [gmap string T]: the map is the store of the
      objects it points to, and a method called through the pointer rewrites
      the entry.
    - [time.Now()] is an argument [now] of the functions that call it.
    - A buffered channel is the list of what is in its buffer.  A send on
      the progress channel of the transfer manager, which nothing in the
      repository receives from, waits for ever once the buffer is full;
      the other channels are taken to be drained by their consumers.
    - What other goroutines do between two steps of a call is given to the
      call as an argument: the ticks of the refill goroutine that fall in
      each sleep of [Acquire], the results of reads and writes. *)

From Stdlib Require Import ZArith QArith Qround Qabs Lia List Bool.
From Stdlib Require Import Sorted Permutation Lqa.
From Stdlib Require Import Ascii String.
From Stdlib.Strings Require Import Byte.
From Stdlib Require DecimalString.
From stdpp Require Import base option list strings gmap fin_maps.

Local Open Scope Z_scope.

(** ** Machine integers *)

Module Int64.

Definition min_int : Z := - 2 ^ 63.
Definition max_int : Z := 2 ^ 63 - 1.

(** The value a 64-bit signed register holds after an operation whose
    mathematical result is [z]. *)
Definition wrap64 (z : Z) : Z := (z + 2 ^ 63) mod 2 ^ 64 - 2 ^ 63.

Definition in_range (z : Z) : Prop := min_int <= z <= max_int.

Definition add (x y : Z) : Z := wrap64 (x + y).
Definition sub (x y : Z) : Z := wrap64 (x - y).
Definition mul (x y : Z) : Z := wrap64 (x * y).

(** Integer division truncates toward zero; the caller excludes [y = 0],
    where Go panics. *)
Definition quot (x y : Z) : Z := wrap64 (Z.quot x y).

End Int64.

(** ** SHA-256 and hexadecimal encoding

    [crypto/sha256] and [encoding/hex] of the Go standard library, which the
    models and the transfer manager call. *)

Module SHA256.

Definition w32 (z : Z) : Z := z mod 2 ^ 32.
Definition add32 (x y : Z) : Z := w32 (x + y).
Definition rotr (n x : Z) : Z := Z.lor (Z.shiftr x n) (w32 (Z.shiftl x (32 - n))).
Definition not32 (x : Z) : Z := Z.lxor x (2 ^ 32 - 1).

Definition Ch (x y z : Z) : Z := Z.lxor (Z.land x y) (Z.land (not32 x) z).
Definition Maj (x y z : Z) : Z :=
  Z.lxor (Z.lxor (Z.land x y) (Z.land x z)) (Z.land y z).
Definition Sigma0 (x : Z) : Z := Z.lxor (Z.lxor (rotr 2 x) (rotr 13 x)) (rotr 22 x).
Definition Sigma1 (x : Z) : Z := Z.lxor (Z.lxor (rotr 6 x) (rotr 11 x)) (rotr 25 x).
Definition sigma0 (x : Z) : Z := Z.lxor (Z.lxor (rotr 7 x) (rotr 18 x)) (Z.shiftr x 3).
Definition sigma1 (x : Z) : Z := Z.lxor (Z.lxor (rotr 17 x) (rotr 19 x)) (Z.shiftr x 10).

Definition primes64 : list Z :=
  [2; 3; 5; 7; 11; 13; 17; 19; 23; 29; 31; 37; 41; 43; 47; 53;
   59; 61; 67; 71; 73; 79; 83; 89; 97; 101; 103; 107; 109; 113; 127; 131;
   137; 139; 149; 151; 157; 163; 167; 173; 179; 181; 191; 193; 197; 199; 211; 223;
   227; 229; 233; 239; 241; 251; 257; 263; 269; 271; 277; 281; 283; 293; 307; 311].

(** Integer cube root, one bit at a time from bit [k] down. *)
Fixpoint icbrt_bits (k : nat) (n r : Z) : Z :=
  let c := r + 2 ^ Z.of_nat k in
  let r' := if c * c * c <=? n then c else r in
  match k with
  | O => r'
  | S k' => icbrt_bits k' n r'
  end.

Definition icbrt (n : Z) : Z := icbrt_bits 40 n 0.

(** The round constants are the first 32 bits of the fractional parts of the
    cube roots of the first 64 primes; the initial state, of the square
    roots of the first 8. *)
Definition K : list Z :=
  Eval vm_compute in map (fun p => w32 (icbrt (p * 2 ^ 96))) primes64.

Definition H0 : list Z :=
  Eval vm_compute in map (fun p => w32 (Z.sqrt (p * 2 ^ 64))) (firstn 8 primes64).

Definition byteZ (b : byte) : Z := Z.of_N (Byte.to_N b).

Definition Zbyte (z : Z) : byte :=
  match Byte.of_N (Z.to_N (z mod 256)) with
  | Some b => b
  | None => x00
  end.

(** Big-endian bytes of [z], [n] of them. *)
Fixpoint be_bytes (n : nat) (z : Z) : list byte :=
  match n with
  | O => []
  | S n' => Zbyte (Z.shiftr z (8 * Z.of_nat n')) :: be_bytes n' z
  end.

Definition be_word (bs : list byte) : Z :=
  fold_left (fun acc b => acc * 256 + byteZ b) bs 0.

Definition pad (msg : list byte) : list byte :=
  let len := Z.of_nat (length msg) in
  let zeros := Z.to_nat ((55 - len) mod 64) in
  msg ++ x80 :: repeat x00 zeros ++ be_bytes 8 (8 * len).

Fixpoint words (n : nat) (bs : list byte) : list Z :=
  match n with
  | O => []
  | S n' => be_word (firstn 4 bs) :: words n' (skipn 4 bs)
  end.

Definition wd (l : list Z) (i : nat) : Z := nth i l 0.

(** The message schedule, extended by [n] words. *)
Fixpoint schedule (n : nat) (w : list Z) : list Z :=
  match n with
  | O => w
  | S n' =>
      let t := length w in
      let x := add32 (add32 (sigma1 (wd w (t - 2))) (wd w (t - 7)))
                     (add32 (sigma0 (wd w (t - 15))) (wd w (t - 16))) in
      schedule n' (w ++ [x])
  end.

Definition round (st : list Z) (kw : Z * Z) : list Z :=
  match st with
  | [a; b; c; d; e; f; g; h] =>
      let t1 := add32 (add32 (add32 h (Sigma1 e)) (add32 (Ch e f g) (fst kw))) (snd kw) in
      let t2 := add32 (Sigma0 a) (Maj a b c) in
      [add32 t1 t2; a; b; c; add32 d t1; e; f; g]
  | _ => st
  end.

Definition compress (h : list Z) (block : list byte) : list Z :=
  let w := schedule 48 (words 16 block) in
  let st := fold_left round (combine K w) h in
  map (fun p => add32 (fst p) (snd p)) (combine h st).

Fixpoint blocks (n : nat) (h : list Z) (bs : list byte) : list Z :=
  match n with
  | O => h
  | S n' => blocks n' (compress h (firstn 64 bs)) (skipn 64 bs)
  end.

(** [sha256.Sum256]: the 32-byte digest. *)
Definition Sum256 (msg : list byte) : list byte :=
  let p := pad msg in
  concat (map (be_bytes 4) (blocks (length p / 64) H0 p)).

Definition hexdigit (z : Z) : ascii :=
  match String.get (Z.to_nat z) "0123456789abcdef" with
  | Some c => c
  | None => "0"%char
  end.

(** [hex.EncodeToString]. *)
Fixpoint EncodeToString (bs : list byte) : string :=
  match bs with
  | [] => EmptyString
  | b :: bs' =>
      String (hexdigit (byteZ b / 16))
        (String (hexdigit (byteZ b mod 16)) (EncodeToString bs'))
  end.

Definition bytes_of_string (s : string) : list byte :=
  map byte_of_ascii (list_ascii_of_string s).

End SHA256.

(** ** float64 as exact rationals

    Comparisons are those of the rationals.  The conversion of a counter is
    exact, as it is in float64 for counters below 2^53, and a quotient of
    two counters is the exact quotient. *)

Module Float64.

Local Open Scope Q_scope.

Definition leb (x y : Q) : bool := Qle_bool x y.
Definition ltb (x y : Q) : bool := negb (Qle_bool y x).

(** The integer nearest to [q], a tie going to the even one. *)
Definition round_half_even (q : Q) : Z :=
  let f := Qfloor q in
  match Qcompare (q - inject_Z f) 0.5 with
  | Lt => f
  | Gt => (f + 1)%Z
  | Eq => if Z.even f then f else (f + 1)%Z
  end.

Definition decimal (z : Z) : string :=
  DecimalString.NilZero.string_of_uint (N.to_uint (Z.to_N z)).

(** [fmt.Sprintf("%.1f", q)]: one digit after the point. *)
Definition format_1f (q : Q) : string :=
  let t := round_half_even (Qabs q * 10) in
  ((if ltb q 0 then "-" else "") ++ decimal (t / 10) ++ "." ++ decimal (t mod 10))%string.

End Float64.

(** ** Slices, runes and formatting of the Go run time *)

Module Go.

(** [s[:n]] of a string; [None] is the run-time panic when [n] exceeds the
    length. *)
Definition slice_to (n : nat) (s : string) : option string :=
  if (n <=? String.length s)%nat then Some (String.substring 0 n s) else None.

(** [data[i:j]] of a byte slice; [None] is the panic when the bounds are out
    of order or out of range. *)
Definition slice (i j : Z) (data : list byte) : option (list byte) :=
  if (0 <=? i) && (i <=? j) && (j <=? Z.of_nat (length data))
  then Some (firstn (Z.to_nat (j - i)) (skipn (Z.to_nat i) data))
  else None.

(** [fmt.Sprintf("%d", z)]. *)
Definition format_d (z : Z) : string :=
  if z <? 0 then ("-" ++ Float64.decimal (- z))%string else Float64.decimal z.

(** The conversion of an [int] to a [rune], which keeps the low 32 bits. *)
Definition rune (z : Z) : Z := (z + 2 ^ 31) mod 2 ^ 32 - 2 ^ 31.

(** [int(q)] for a [float64]: the fraction is dropped. *)
Definition int_of_float (q : Q) : Z :=
  Int64.wrap64 (Z.quot (Qnum q) (Z.pos (Qden q))).

(** Instants are counted in nanoseconds from the Unix epoch; the zero value
    of [time.Time] is the first instant of the year 1. *)
Definition zero_time : Z := - 62135596800 * 1000000000.

Definition char (z : Z) : ascii := ascii_of_N (Z.to_N z).

(** [string(r)] for a rune [r]: its UTF-8 encoding, and that of U+FFFD when
    [r] is not a Unicode scalar value. *)
Definition string_of_rune (r : Z) : string :=
  if (r <? 0) || (1114111 <? r) || ((55296 <=? r) && (r <=? 57343)) then
    String (char 239) (String (char 191) (String (char 189) EmptyString))
  else if r <? 128 then String (char r) EmptyString
  else if r <? 2048 then
    String (char (192 + r / 64)) (String (char (128 + r mod 64)) EmptyString)
  else if r <? 65536 then
    String (char (224 + r / 4096))
      (String (char (128 + (r / 64) mod 64))
         (String (char (128 + r mod 64)) EmptyString))
  else
    String (char (240 + r / 262144))
      (String (char (128 + (r / 4096) mod 64))
         (String (char (128 + (r / 64) mod 64))
            (String (char (128 + r mod 64)) EmptyString))).

(** [filepath.Ext]: the suffix of the path from the last dot of its last
    element on, empty when that element has no dot.  The scan runs from the
    end of the path and stops at a separator. *)
Fixpoint ext_scan (rev_path acc : list ascii) : list ascii :=
  match rev_path with
  | [] => []
  | c :: rest =>
      if Ascii.eqb c "/" then []
      else if Ascii.eqb c "." then c :: acc
      else ext_scan rest (c :: acc)
  end.

Definition Ext (path : string) : string :=
  string_of_list_ascii (ext_scan (rev (list_ascii_of_string path)) []).

(** [strings.ToLower] on the letters A to Z.  Bytes outside ASCII are kept,
    where Go maps the characters they encode. *)
Definition lower (c : ascii) : ascii :=
  let n := nat_of_ascii c in
  if ((65 <=? n) && (n <=? 90))%nat then ascii_of_nat (n + 32) else c.

Fixpoint ToLower (s : string) : string :=
  match s with
  | EmptyString => EmptyString
  | String c s' => String (lower c) (ToLower s')
  end.

(** [t.Sub(u)] for two instants: the duration between them, which stops at
    the least and at the greatest [int64]. *)
Definition Sub (t u : Z) : Z := Z.max Int64.min_int (Z.min Int64.max_int (t - u)).

(** [strings.Split(s, sep)] for a separator of one byte. *)
Fixpoint Split (s : string) (sep : ascii) : list string :=
  match s with
  | EmptyString => [EmptyString]
  | String c s' =>
      let parts := Split s' sep in
      if Ascii.eqb c sep then EmptyString :: parts
      else
        match parts with
        | p :: ps => String c p :: ps
        | [] => [String c EmptyString]
        end
  end.

End Go.

(** ** The bubble sort of the two rankings

    [GetTopContributors] and [GetTopRatedFiles] spell out the same two
    loops, on the peers by [ReputationScore] and on the files by
    [AverageRating]; [key] is the field compared. *)

Module BubbleSort.

Section Loops.

Context {A : Type} (key : A -> Q).

(** The inner loop, [n] comparisons from the head of the slice on: the
    element at [j] and the one at [j + 1] are swapped when the first has the
    lower key. *)
Fixpoint pass (n : nat) (l : list A) : list A :=
  match n, l with
  | S n', x :: y :: rest =>
      if Float64.ltb (key x) (key y)
      then y :: pass n' (x :: rest)
      else x :: pass n' (y :: rest)
  | _, _ => l
  end.

(** The outer loop from [i] on, with [passes] passes to go; pass [i] makes
    [len - i - 1] comparisons. *)
Fixpoint outer (passes i : nat) (l : list A) : list A :=
  match passes with
  | O => l
  | S passes' => outer passes' (S i) (pass (length l - i - 1) l)
  end.

Definition sort (l : list A) : list A := outer (length l - 1) 0 l.

(** [l[:limit]] after [if limit > len(l) { limit = len(l) }]; [None] is the
    panic for a negative limit. *)
Definition top (limit : Z) (l : list A) : option (list A) :=
  let limit := if Z.of_nat (length l) <? limit then Z.of_nat (length l) else limit in
  if limit <? 0 then None else Some (firstn (Z.to_nat limit) l).

End Loops.

End BubbleSort.

(** ** package models: Student *)

Module Student.

Local Open Scope Q_scope.

Definition MinReputation : Q := 3.0.
Definition MaxReputation : Q := 10.0.
Definition DefaultReputation : Q := 5.0.

Record t : Type := mk {
  ID : string;
  Name : string;
  ReputationScore : Q;
  IsLeecher : bool;
  IsOnline : bool;
  LastSeen : Z;
  TotalUploads : Z;
  TotalDownloads : Z;
  IPAddress : string;
  Port : Z
}.

Definition set_ReputationScore (q : Q) (s : t) : t :=
  mk (ID s) (Name s) q (IsLeecher s) (IsOnline s) (LastSeen s)
     (TotalUploads s) (TotalDownloads s) (IPAddress s) (Port s).
Definition set_IsLeecher (b : bool) (s : t) : t :=
  mk (ID s) (Name s) (ReputationScore s) b (IsOnline s) (LastSeen s)
     (TotalUploads s) (TotalDownloads s) (IPAddress s) (Port s).
Definition set_IsOnline (b : bool) (s : t) : t :=
  mk (ID s) (Name s) (ReputationScore s) (IsLeecher s) b (LastSeen s)
     (TotalUploads s) (TotalDownloads s) (IPAddress s) (Port s).
Definition set_LastSeen (now : Z) (s : t) : t :=
  mk (ID s) (Name s) (ReputationScore s) (IsLeecher s) (IsOnline s) now
     (TotalUploads s) (TotalDownloads s) (IPAddress s) (Port s).
Definition set_TotalUploads (n : Z) (s : t) : t :=
  mk (ID s) (Name s) (ReputationScore s) (IsLeecher s) (IsOnline s) (LastSeen s)
     n (TotalDownloads s) (IPAddress s) (Port s).
Definition set_TotalDownloads (n : Z) (s : t) : t :=
  mk (ID s) (Name s) (ReputationScore s) (IsLeecher s) (IsOnline s) (LastSeen s)
     (TotalUploads s) n (IPAddress s) (Port s).

Definition NewStudent (now : Z) (id name ipAddress : string) (port : Z) : t :=
  {| ID := id;
     Name := name;
     ReputationScore := DefaultReputation;
     IsLeecher := false;
     IsOnline := true;
     LastSeen := now;
     TotalUploads := 0;
     TotalDownloads := 0;
     IPAddress := ipAddress;
     Port := port |}.

Definition CanDownload (s : t) : bool :=
  if Float64.leb MinReputation (ReputationScore s) then true else false.

(** Leaves the flag as it is when neither branch applies. *)
Definition checkLeecherStatus (s : t) : t :=
  if (0 <? TotalDownloads s)%Z && (0 <? TotalUploads s)%Z then
    let ratio := inject_Z (TotalDownloads s) / inject_Z (TotalUploads s) in
    set_IsLeecher (Float64.ltb 3.0 ratio) s
  else if (5 <? TotalDownloads s)%Z && (TotalUploads s =? 0)%Z then
    set_IsLeecher true s
  else s.

Definition UpdateReputation (delta : Q) (s : t) : t :=
  let score := ReputationScore s + delta in
  let score :=
    if Float64.ltb MaxReputation score then MaxReputation
    else if Float64.ltb score 0 then 0
    else score in
  checkLeecherStatus (set_ReputationScore score s).

Definition RecordUpload (now : Z) (s : t) : t :=
  let s := set_TotalUploads (Int64.add (TotalUploads s) 1) s in
  let s := UpdateReputation 0.5 s in
  set_LastSeen now s.

Definition RecordDownload (now : Z) (s : t) : t :=
  let s := set_TotalDownloads (Int64.add (TotalDownloads s) 1) s in
  let s := set_LastSeen now s in
  checkLeecherStatus s.

Definition SetOnline (now : Z) (status : bool) (s : t) : t :=
  let s := set_IsOnline status s in
  if status then set_LastSeen now s else s.

(** The port goes through [string(rune(...))], which yields the UTF-8
    encoding of the code point with that number. *)
Definition GetAddress (s : t) : string :=
  (IPAddress s ++ ":" ++ Go.string_of_rune (Go.rune (Port s)))%string.

End Student.

(** ** package models: PeerRegistry *)

Module PeerRegistry.

Abbreviation t := (gmap string Student.t).

Definition NewPeerRegistry : t := ∅.

Definition Register (student : Student.t) (pr : t) : t :=
  <[Student.ID student := student]> pr.

Definition Unregister (id : string) (pr : t) : t := delete id pr.

Definition Get (id : string) (pr : t) : option Student.t := pr !! id.

Definition GetAllPeers (pr : t) : list Student.t := (map_to_list pr).*2.

Definition GetOnlinePeers (pr : t) : list Student.t :=
  List.filter Student.IsOnline (GetAllPeers pr).

Definition Count (pr : t) : Z := Z.of_nat (size pr).

End PeerRegistry.

(** ** package models: AcademicFile *)

Module AcademicFile.

Local Open Scope Q_scope.

Definition MaxFileSize : Z := 100 * 1024 * 1024.

Definition AllowedFileTypes : list string :=
  [".pdf"; ".doc"; ".docx"; ".ppt"; ".pptx"; ".txt"; ".md"]%string.

Record t : Type := mk {
  CID : string;
  FileName : string;
  OwnerID : string;
  Size : Z;
  FileType : string;
  Description : string;
  Subject : string;
  UploadTime : Z;
  DownloadCount : Z;
  AverageRating : Q;
  TotalRatings : Z;
  PeerLocations : list string;
  IsAvailable : bool;
  Checksum : string
}.

Definition set_PeerLocations (l : list string) (f : t) : t :=
  mk (CID f) (FileName f) (OwnerID f) (Size f) (FileType f) (Description f)
     (Subject f) (UploadTime f) (DownloadCount f) (AverageRating f)
     (TotalRatings f) l (IsAvailable f) (Checksum f).
Definition set_IsAvailable (b : bool) (f : t) : t :=
  mk (CID f) (FileName f) (OwnerID f) (Size f) (FileType f) (Description f)
     (Subject f) (UploadTime f) (DownloadCount f) (AverageRating f)
     (TotalRatings f) (PeerLocations f) b (Checksum f).
Definition set_DownloadCount (n : Z) (f : t) : t :=
  mk (CID f) (FileName f) (OwnerID f) (Size f) (FileType f) (Description f)
     (Subject f) (UploadTime f) n (AverageRating f)
     (TotalRatings f) (PeerLocations f) (IsAvailable f) (Checksum f).
Definition set_Description (d : string) (f : t) : t :=
  mk (CID f) (FileName f) (OwnerID f) (Size f) (FileType f) d
     (Subject f) (UploadTime f) (DownloadCount f) (AverageRating f)
     (TotalRatings f) (PeerLocations f) (IsAvailable f) (Checksum f).
Definition set_Subject (d : string) (f : t) : t :=
  mk (CID f) (FileName f) (OwnerID f) (Size f) (FileType f) (Description f)
     d (UploadTime f) (DownloadCount f) (AverageRating f)
     (TotalRatings f) (PeerLocations f) (IsAvailable f) (Checksum f).

(** The hexadecimal SHA-256 digest of the content. *)
Definition GenerateCID (content : list byte) : string :=
  SHA256.EncodeToString (SHA256.Sum256 content).

Definition GenerateChecksum (content : list byte) : string :=
  SHA256.EncodeToString (SHA256.Sum256 content).

Definition NewAcademicFile (now : Z) (fileName ownerID : string) (size : Z)
    (fileType : string) (content : list byte) : t :=
  let cid := GenerateCID content in
  let checksum := GenerateChecksum content in
  {| CID := cid;
     FileName := fileName;
     OwnerID := ownerID;
     Size := size;
     FileType := fileType;
     Description := "";
     Subject := "";
     UploadTime := now;
     DownloadCount := 0;
     AverageRating := 0.0;
     TotalRatings := 0;
     PeerLocations := [ownerID];
     IsAvailable := true;
     Checksum := checksum |}.

(** The loop over the list, which stops at the first element equal to
    [peerID]. *)
Fixpoint has_location (peerID : string) (l : list string) : bool :=
  match l with
  | [] => false
  | id :: l' => if String.eqb id peerID then true else has_location peerID l'
  end.

(** Returns when the peer is listed; otherwise appends it.  [IsAvailable] is
    not written. *)
Definition AddPeerLocation (peerID : string) (f : t) : t :=
  if has_location peerID (PeerLocations f) then f
  else set_PeerLocations (PeerLocations f ++ [peerID]) f.

Definition RemovePeerLocation (peerID : string) (f : t) : t :=
  let newLocations :=
    List.filter (fun id => negb (String.eqb id peerID)) (PeerLocations f) in
  let f := set_PeerLocations newLocations f in
  set_IsAvailable (0 <? length (PeerLocations f))%nat f.

Definition RecordDownload (f : t) : t :=
  set_DownloadCount (Int64.add (DownloadCount f) 1) f.

Definition VerifyIntegrity (content : list byte) (f : t) : bool :=
  String.eqb (GenerateChecksum content) (Checksum f).

Definition IsValid (f : t) : bool * string :=
  if (MaxFileSize <? Size f)%Z then (false, "File exceeds maximum size limit"%string)
  else if (Size f <=? 0)%Z then (false, "File size must be positive"%string)
  else if negb (existsb (String.eqb (FileType f)) AllowedFileTypes) then
    (false, "File type not allowed"%string)
  else if String.eqb (FileName f) "" then (false, "File name is required"%string)
  else if String.eqb (OwnerID f) "" then (false, "Owner ID is required"%string)
  else (true, ""%string).

Definition AddRating (rating : Q) (f : t) : t :=
  let totalScore := AverageRating f * inject_Z (TotalRatings f) in
  let n := Int64.add (TotalRatings f) 1 in
  mk (CID f) (FileName f) (OwnerID f) (Size f) (FileType f) (Description f)
     (Subject f) (UploadTime f) (DownloadCount f)
     ((totalScore + rating) / inject_Z n) n
     (PeerLocations f) (IsAvailable f) (Checksum f).

End AcademicFile.

(** ** package models: FileIndex *)

Module FileIndex.

Abbreviation t := (gmap string AcademicFile.t).

Definition NewFileIndex : t := ∅.

Definition Add (file : AcademicFile.t) (fi : t) : t :=
  <[AcademicFile.CID file := file]> fi.

Definition Get (cid : string) (fi : t) : option AcademicFile.t := fi !! cid.

Definition Remove (cid : string) (fi : t) : t := delete cid fi.

Definition len (s : string) : Z := Z.of_nat (String.length s).

(** The body compares lengths; it does not look at the characters unless
    the two strings are equal. *)
Definition containsIgnoreCase (s substr : string) : bool :=
  (0 <? len s) && (0 <? len substr) &&
  (String.eqb s substr || (len substr <? len s)).

Definition matches (query : string) (file : AcademicFile.t) : bool :=
  containsIgnoreCase (AcademicFile.FileName file) query ||
  containsIgnoreCase (AcademicFile.Description file) query ||
  containsIgnoreCase (AcademicFile.Subject file) query.

(** The range over the map visits every entry once, in an order the
    language leaves open; here it is the order of [map_to_list]. *)
Definition GetAllFiles (fi : t) : list AcademicFile.t := (map_to_list fi).*2.

Definition Search (query : string) (fi : t) : list AcademicFile.t :=
  List.filter (matches query) (GetAllFiles fi).

Definition GetAvailableFiles (fi : t) : list AcademicFile.t :=
  List.filter AcademicFile.IsAvailable (GetAllFiles fi).

Definition GetBySubject (subject : string) (fi : t) : list AcademicFile.t :=
  List.filter (fun file => String.eqb (AcademicFile.Subject file) subject) (GetAllFiles fi).

Definition Count (fi : t) : Z := Z.of_nat (size fi).

End FileIndex.

(** ** package analytics: ReputationService *)

Module ReputationService.

Local Open Scope Q_scope.

Definition MinReputation : Q := 0.0.
Definition MaxReputation : Q := 10.0.
Definition DefaultReputation : Q := 5.0.
Definition DownloadThreshold : Q := 3.0.

Definition UploadBonus : Q := 0.5.
Definition DownloadPenalty : Q := 0.1.
Definition GoodRatingBonus : Q := 0.3.
Definition BadRatingPenalty : Q := 0.2.
Definition LeecherPenalty : Q := 0.5.
Definition InactivityDecay : Q := 0.1.

Inductive EventType : Type :=
  | EventUpload | EventDownload | EventRating
  | EventLeeching | EventInactivity | EventContribution.

Record ReputationEvent : Type := mkEvent {
  Type_ : EventType;
  StudentID : string;
  Delta : Q;
  Reason : string;
  Timestamp : Z
}.

(** The service: the registry it shares with its callers, the buffered
    channel of submitted events (oldest first), and the history. *)
Record t : Type := mk {
  peerRegistry : gmap string Student.t;
  eventChan : list ReputationEvent;
  eventHistory : list ReputationEvent
}.

Definition NewReputationService (pr : gmap string Student.t) : t :=
  mk pr [] [].

Definition CalculateReputation (student : Student.t) : Q :=
  let base := Student.ReputationScore student in
  let base :=
    if (0 <? Student.TotalDownloads student)%Z then
      let ratio := inject_Z (Student.TotalUploads student) /
                   inject_Z (Student.TotalDownloads student) in
      if Float64.ltb ratio 0.5 then base - 1.0
      else if Float64.ltb 1.5 ratio then base + 0.5
      else base
    else base in
  let base := if Float64.ltb base MinReputation then MinReputation else base in
  let base := if Float64.ltb MaxReputation base then MaxReputation else base in
  base.

Definition CanDownload (studentID : string) (rs : t) : bool * string :=
  match PeerRegistry.Get studentID (peerRegistry rs) with
  | None => (false, "Student not found"%string)
  | Some student =>
      let reputation := CalculateReputation student in
      if Float64.ltb reputation DownloadThreshold then
        (false,
         ("Insufficient reputation (" ++ Float64.format_1f reputation ++ " < " ++
          Float64.format_1f DownloadThreshold ++ ")")%string)
      else (true, "Allowed"%string)
  end.

Definition send (event : ReputationEvent) (rs : t) : t :=
  mk (peerRegistry rs) (eventChan rs ++ [event]) (eventHistory rs).

Definition RecordUpload (now : Z) (studentID : string) (rs : t) : t :=
  send (mkEvent EventUpload studentID UploadBonus "Shared a file" now) rs.

Definition RecordDownload (now : Z) (studentID : string) (rs : t) : t :=
  send (mkEvent EventDownload studentID (- DownloadPenalty) "Downloaded a file" now) rs.

Definition RecordRating (now : Z) (studentID : string) (ratingScore : Q) (rs : t) : t :=
  if Float64.leb 4.0 ratingScore then
    send (mkEvent EventRating studentID GoodRatingBonus "Received good rating" now) rs
  else if Float64.leb ratingScore 2.0 then
    send (mkEvent EventRating studentID (- BadRatingPenalty) "Received bad rating" now) rs
  else rs.

Definition RecordLeeching (now : Z) (studentID : string) (rs : t) : t :=
  send (mkEvent EventLeeching studentID (- LeecherPenalty) "Detected as leecher" now) rs.

Definition applyEvent (event : ReputationEvent) (rs : t) : t :=
  match PeerRegistry.Get (StudentID event) (peerRegistry rs) with
  | None => rs
  | Some student =>
      mk (<[StudentID event := Student.UpdateReputation (Delta event) student]>
            (peerRegistry rs))
         (eventChan rs)
         (eventHistory rs ++ [event])
  end.

(** [applyEvent] on each event of a list in turn. *)
Definition apply_all (events : list ReputationEvent) (rs : t) : t :=
  fold_left (fun rs e => applyEvent e rs) events rs.

(** The consumer: every queued event, oldest first. *)
Definition processEvents (rs : t) : t :=
  apply_all (eventChan rs) (mk (peerRegistry rs) [] (eventHistory rs)).

(** 24 hours, in nanoseconds as a [time.Duration] is. *)
Definition inactiveThreshold : Z := 24 * 3600 * 1000000000.

Definition applyInactivityDecay (now : Z) (rs : t) : t :=
  fold_left
    (fun rs peer =>
       if (inactiveThreshold <? now - Student.LastSeen peer)%Z then
         applyEvent (mkEvent EventInactivity (Student.ID peer) (- InactivityDecay)
                       "Extended inactivity" now) rs
       else rs)
    (PeerRegistry.GetAllPeers (peerRegistry rs)) rs.

Definition GetReputation (studentID : string) (rs : t) : option Q :=
  CalculateReputation <$> PeerRegistry.Get studentID (peerRegistry rs).

Definition GetEventHistory (studentID : string) (rs : t) : list ReputationEvent :=
  List.filter (fun event => String.eqb (StudentID event) studentID) (eventHistory rs).

(** The slice that is sorted is a fresh one; the registry is not written. *)
Definition GetTopContributors (limit : Z) (rs : t) : option (list Student.t) :=
  let peers := PeerRegistry.GetAllPeers (peerRegistry rs) in
  BubbleSort.top limit (BubbleSort.sort Student.ReputationScore peers).

Definition GetLeechers (rs : t) : list Student.t :=
  List.filter Student.IsLeecher (PeerRegistry.GetAllPeers (peerRegistry rs)).

End ReputationService.

(** ** package analytics: Throttler *)

Module Throttler.

Local Open Scope Q_scope.

Definition LeecherBandwidth : Z := 50 * 1024.
Definition NormalBandwidth : Z := 500 * 1024.
Definition PremiumBandwidth : Z := 5 * 1024 * 1024.

Definition LeecherThreshold : Q := 3.0.
Definition PremiumThreshold : Q := 8.0.

Definition TokenBucketSize : Z := 10.

Inductive BandwidthTier : Type := TierLeecher | TierNormal | TierPremium.

Definition tier_eqb (a b : BandwidthTier) : bool :=
  match a, b with
  | TierLeecher, TierLeecher | TierNormal, TierNormal | TierPremium, TierPremium => true
  | _, _ => false
  end.

Definition GetBandwidth (tier : BandwidthTier) : Z :=
  match tier with
  | TierLeecher => LeecherBandwidth
  | TierNormal => NormalBandwidth
  | TierPremium => PremiumBandwidth
  end.

(** [stopClosed] tells whether [stopChan] has been closed.  The channel is
    made once, by [NewThrottler], and never made anew. *)
Record t : Type := mk {
  peerID : string;
  tier : BandwidthTier;
  bandwidth : Z;
  tokens : Z;
  maxTokens : Z;
  tokenSize : Z;
  isRunning : bool;
  stopClosed : bool
}.

Definition set_tokens (n : Z) (th : t) : t :=
  mk (peerID th) (tier th) (bandwidth th) n (maxTokens th) (tokenSize th) (isRunning th)
     (stopClosed th).
Definition set_isRunning (b : bool) (th : t) : t :=
  mk (peerID th) (tier th) (bandwidth th) (tokens th) (maxTokens th) (tokenSize th) b
     (stopClosed th).

Definition determineTier (reputation : Q) : BandwidthTier :=
  if Float64.ltb reputation LeecherThreshold then TierLeecher
  else if Float64.leb PremiumThreshold reputation then TierPremium
  else TierNormal.

Definition NewThrottler (peerID : string) (reputation : Q) : t :=
  let tier := determineTier reputation in
  let bandwidth := GetBandwidth tier in
  let tokenSize := Int64.quot bandwidth TokenBucketSize in
  {| peerID := peerID;
     tier := tier;
     bandwidth := bandwidth;
     tokens := TokenBucketSize;
     maxTokens := TokenBucketSize;
     tokenSize := tokenSize;
     isRunning := false;
     stopClosed := false |}.

(** [Start] sets the flag and launches the refill goroutine, which waits
    for a tick or for [stopChan].  On a [stopChan] that is closed the
    goroutine leaves at its first wait, where no tick is due yet: a
    throttler started again after a [Stop] has the flag set and is not
    refilled. *)
Definition Start (th : t) : t :=
  if isRunning th then th else set_isRunning true th.

(** [Stop] clears the flag and closes [stopChan], on which the goroutine
    leaves.  [None] is the panic of closing a channel that is closed, which
    a running throttler meets when it was stopped before. *)
Definition Stop (th : t) : option t :=
  if isRunning th then
    if stopClosed th then None
    else Some (mk (peerID th) (tier th) (bandwidth th) (tokens th) (maxTokens th)
                 (tokenSize th) false true)
  else Some th.

(** Whether the refill goroutine is in its loop. *)
Definition refilling (th : t) : bool := isRunning th && negb (stopClosed th).

(** One tick handled by the refill goroutine. *)
Definition refill (th : t) : t :=
  if negb (refilling th) then th
  else if (tokens th <? maxTokens th)%Z then
    let n := Int64.add (tokens th) 1 in
    set_tokens (if (maxTokens th <? n)%Z then maxTokens th else n) th
  else th.

(** What one pass of the loop of [Acquire] does under the mutex. *)
Inductive attempt : Type :=
  | Granted (allowed : Z) (th' : t)
  | NoTokens.

Definition try_acquire (tokensNeeded bytes : Z) (th : t) : attempt :=
  if (tokensNeeded <=? tokens th)%Z then
    Granted bytes (set_tokens (Int64.sub (tokens th) tokensNeeded) th)
  else if (0 <? tokens th)%Z then
    let allowedBytes := Int64.mul (tokens th) (tokenSize th) in
    Granted allowedBytes (set_tokens 0 th)
  else NoTokens.

Inductive result : Type :=
  | Panic
  | Returned (allowed : Z) (th' : t)
  | Waiting (th' : t).

(** The loop of [Acquire].  A pass that finds no token sleeps 100 ms.  The
    ticker of the refill goroutine runs apart from that sleep, with the same
    period, so a sleep may see no tick, one, or more: [ticks] lists, for
    each sleep in turn, the number of ticks the goroutine handles during
    it. *)
Fixpoint acquire_loop (ticks : list nat) (tokensNeeded bytes : Z) (th : t) : result :=
  match try_acquire tokensNeeded bytes th with
  | Granted allowed th' => Returned allowed th'
  | NoTokens =>
      match ticks with
      | [] => Waiting th
      | n :: ticks' => acquire_loop ticks' tokensNeeded bytes (Nat.iter n refill th)
      end
  end.

(** [Acquire]: the rounded-up token count is computed once, before the
    loop.  [Waiting] is the call still asleep when the sleeps listed are
    over. *)
Definition Acquire (ticks : list nat) (bytes : Z) (th : t) : result :=
  if (tokenSize th =? 0)%Z then Panic
  else
    let tokensNeeded :=
      Int64.quot (Int64.sub (Int64.add bytes (tokenSize th)) 1) (tokenSize th) in
    acquire_loop ticks tokensNeeded bytes th.

Definition GetAvailableBytes (th : t) : Z := Int64.mul (tokens th) (tokenSize th).

Definition UpdateReputation (newReputation : Q) (th : t) : t :=
  let newTier := determineTier newReputation in
  if negb (tier_eqb newTier (tier th)) then
    let bw := GetBandwidth newTier in
    mk (peerID th) newTier bw (tokens th) (maxTokens th)
       (Int64.quot bw TokenBucketSize) (isRunning th) (stopClosed th)
  else th.

End Throttler.

(** ** package utils: hashing, addresses, configuration *)

Module Utils.

Definition MaxFileSizeBytes : Z := 100 * 1024 * 1024.

Definition AllowedFileTypes : list string :=
  [".pdf"; ".doc"; ".docx"; ".ppt"; ".pptx"; ".txt"; ".md";
   ".epub"; ".odt"; ".xls"; ".xlsx"]%string.

Definition IsAllowedFileType (ext : string) : bool :=
  existsb (String.eqb ext) AllowedFileTypes.

Definition HashBytes (data : list byte) : string :=
  SHA256.EncodeToString (SHA256.Sum256 data).

Definition HashString (s : string) : string :=
  HashBytes (SHA256.bytes_of_string s).

(** ["kx-" + hash[:32]]. *)
Definition GenerateCID (content : list byte) : option string :=
  match Go.slice_to 32 (HashBytes content) with
  | Some h => Some ("kx-" ++ h)%string
  | None => None
  end.

Definition VerifyHash (content : list byte) (expectedHash : string) : bool :=
  String.eqb (HashBytes content) expectedHash.

(** "Simplified": the constant 0. *)
Definition getCurrentTimestamp : Z := 0.

Definition GeneratePeerID (name ip : string) (port : Z) : option string :=
  let data := (name ++ ":" ++ ip ++ ":" ++ Go.format_d port ++ ":" ++
               Go.format_d getCurrentTimestamp)%string in
  match Go.slice_to 16 (HashString data) with
  | Some h => Some ("peer-" ++ h)%string
  | None => None
  end.

Definition ComputeChecksum (data : list byte) : string := HashBytes data.

Definition VerifyChecksum (data : list byte) (checksum : string) : bool :=
  String.eqb (ComputeChecksum data) checksum.

(** How a call of [ChunkHash] ends: with the hashes, in a panic of the
    slice expression, or with the loop still running when the fuel of the
    model is spent. *)
Inductive chunk_result : Type :=
  | Hashes (hashes : list string)
  | SlicePanic
  | Unfinished.

(** The loop of [ChunkHash] from index [i] on. *)
Fixpoint chunk_loop (fuel : nat) (data : list byte) (chunkSize i : Z)
    (hashes : list string) : chunk_result :=
  if negb (i <? Z.of_nat (length data)) then Hashes hashes
  else
    match fuel with
    | O => Unfinished
    | S fuel' =>
        let end_ := Int64.add i chunkSize in
        let end_ := if Z.of_nat (length data) <? end_
                    then Z.of_nat (length data) else end_ in
        match Go.slice i end_ data with
        | None => SlicePanic
        | Some chunk =>
            chunk_loop fuel' data chunkSize (Int64.add i chunkSize)
              (hashes ++ [HashBytes chunk])
        end
    end.

(** A pass of the loop moves [i] forward by at least one, so as many passes
    as the data has bytes are enough. *)
Definition ChunkHash (data : list byte) (chunkSize : Z) : chunk_result :=
  let chunkSize := if chunkSize <=? 0 then 1024 * 1024 else chunkSize in
  chunk_loop (length data) data chunkSize 0 [].

(** [fmt.Sprintf("%s:%d", ip, port)]. *)
Definition FormatAddress (ip : string) (port : Z) : string :=
  (ip ++ ":" ++ Go.format_d port)%string.

Definition IsValidPort (port : Z) : bool := (0 <? port) && (port <=? 65535).

End Utils.

(** ** package library: Indexer

    The index of the files this peer knows and the paths of those it holds.
    [ScanDirectory] and the watcher call [IndexFile] on the files of a
    directory from four goroutines; they are not modelled. *)

Module Indexer.

Record t : Type := mk {
  fileIndex : FileIndex.t;
  localFiles : gmap string string;
  watchDir : string;
  isRunning : bool
}.

Definition NewIndexer (dir : string) : t := mk FileIndex.NewFileIndex ∅ dir false.

(** What the file system answers for the path: [os.Stat] gives the name and
    the size of the file or an error, [os.ReadFile] its content or an
    error. *)
Record FileEnv : Type := mkFileEnv {
  stat : (string * Z) + string;
  read_file : list byte + string
}.

Definition IndexFile (now : Z) (env : FileEnv) (filePath ownerID : string) (idx : t)
    : t * (AcademicFile.t + string) :=
  match stat env with
  | inr e => (idx, inr ("failed to stat file: " ++ e)%string)
  | inl (name, size) =>
      if (Utils.MaxFileSizeBytes <? size)%Z then
        (idx, inr "file exceeds maximum size limit"%string)
      else
        let ext := Go.ToLower (Go.Ext filePath) in
        if negb (Utils.IsAllowedFileType ext) then
          (idx, inr ("file type " ++ ext ++ " is not allowed")%string)
        else
          match read_file env with
          | inr e => (idx, inr ("failed to read file: " ++ e)%string)
          | inl content =>
              let academicFile :=
                AcademicFile.NewAcademicFile now name ownerID size ext content in
              (mk (FileIndex.Add academicFile (fileIndex idx))
                  (<[AcademicFile.CID academicFile := filePath]> (localFiles idx))
                  (watchDir idx) (isRunning idx),
               inl academicFile)
          end
  end.

Definition GetFile (cid : string) (idx : t) : option AcademicFile.t :=
  FileIndex.Get cid (fileIndex idx).

Definition GetLocalFilePath (cid : string) (idx : t) : option string :=
  localFiles idx !! cid.

Definition GetAllFiles (idx : t) : list AcademicFile.t :=
  FileIndex.GetAllFiles (fileIndex idx).

(** The range over [localFiles], in the order of [map_to_list]. *)
Definition GetLocalFiles (idx : t) : list AcademicFile.t :=
  omap (fun cid => FileIndex.Get cid (fileIndex idx)) (map_to_list (localFiles idx)).*1.

Definition RemoveFile (cid : string) (idx : t) : t :=
  mk (FileIndex.Remove cid (fileIndex idx)) (delete cid (localFiles idx))
     (watchDir idx) (isRunning idx).

End Indexer.

(** ** package library: TransferManager

    A [*Transfer] is the ID of a record that [addTransfer] has put in the
    manager's map, as [Download] and [HandleUploadRequest] do before they
    hand it on: the map is the store the pointer points into.  The disk and
    the connection stand beside the manager in a [World]; what each read,
    write or open returns is given by a script. *)

Module TransferManager.

Local Open Scope Q_scope.

(** The values the [Status] string takes. *)
Inductive TransferStatus : Type :=
  | TransferPending | TransferActive | TransferCompleted
  | TransferFailed | TransferCancelled.

Definition status_eqb (a b : TransferStatus) : bool :=
  match a, b with
  | TransferPending, TransferPending | TransferActive, TransferActive
  | TransferCompleted, TransferCompleted | TransferFailed, TransferFailed
  | TransferCancelled, TransferCancelled => true
  | _, _ => false
  end.

Definition TransferBufferSize : Z := 32 * 1024.
Definition MaxConcurrentTransfers : Z := 5.

Record Transfer : Type := mkTransfer {
  ID : string;
  CID : string;
  FileName : string;
  PeerID : string;
  Direction : string;
  Status : TransferStatus;
  TotalBytes : Z;
  SentBytes : Z;
  StartTime : Z;
  EndTime : Z;
  Error : string;
  Progress : Q
}.

Definition set_Status (st : TransferStatus) (x : Transfer) : Transfer :=
  mkTransfer (ID x) (CID x) (FileName x) (PeerID x) (Direction x) st
    (TotalBytes x) (SentBytes x) (StartTime x) (EndTime x) (Error x) (Progress x).
Definition set_Error (e : string) (x : Transfer) : Transfer :=
  mkTransfer (ID x) (CID x) (FileName x) (PeerID x) (Direction x) (Status x)
    (TotalBytes x) (SentBytes x) (StartTime x) (EndTime x) e (Progress x).
Definition set_EndTime (now : Z) (x : Transfer) : Transfer :=
  mkTransfer (ID x) (CID x) (FileName x) (PeerID x) (Direction x) (Status x)
    (TotalBytes x) (SentBytes x) (StartTime x) now (Error x) (Progress x).
Definition set_SentBytes (n : Z) (x : Transfer) : Transfer :=
  mkTransfer (ID x) (CID x) (FileName x) (PeerID x) (Direction x) (Status x)
    (TotalBytes x) n (StartTime x) (EndTime x) (Error x) (Progress x).
Definition set_Progress (p : Q) (x : Transfer) : Transfer :=
  mkTransfer (ID x) (CID x) (FileName x) (PeerID x) (Direction x) (Status x)
    (TotalBytes x) (SentBytes x) (StartTime x) (EndTime x) (Error x) p.

Module ProgressUpdate.

Record t : Type := mk {
  TransferID : string;
  BytesSent : Z;
  TotalBytes : Z;
  Progress : Q;
  Speed : Q
}.

End ProgressUpdate.

(** The manager.  The progress channel has a buffer of [ProgressCapacity]
    updates; the list holds the updates in the buffer, oldest first.
    Nothing in the repository receives from the channel, so what was sent
    stays there. *)
Definition ProgressCapacity : nat := 100.

Record t : Type := mk {
  transfers : gmap string Transfer;
  progressChan : list ProgressUpdate.t;
  totalUploads : Z;
  totalDownloads : Z;
  bytesUploaded : Z;
  bytesDownloaded : Z
}.

Definition set_transfers (m : gmap string Transfer) (tm : t) : t :=
  mk m (progressChan tm) (totalUploads tm) (totalDownloads tm)
     (bytesUploaded tm) (bytesDownloaded tm).

(** A send on the progress channel.  [None] is the send that finds the
    buffer full: the goroutine waits in it for a receiver. *)
Definition push_progress (u : ProgressUpdate.t) (tm : t) : option t :=
  if (length (progressChan tm) <? ProgressCapacity)%nat then
    Some (mk (transfers tm) (progressChan tm ++ [u]) (totalUploads tm) (totalDownloads tm)
            (bytesUploaded tm) (bytesDownloaded tm))
  else None.

Definition NewTransferManager : t := mk ∅ [] 0 0 0 0.

(** A write through the pointer [tid]. *)
Definition update (tid : string) (f : Transfer -> Transfer) (tm : t) : t :=
  set_transfers (alter f tid (transfers tm)) tm.

Definition addTransfer (x : Transfer) (tm : t) : t :=
  set_transfers (<[ID x := x]> (transfers tm)) tm.

Definition completeTransfer (now : Z) (id : string) (tm : t) : t :=
  match transfers tm !! id with
  | Some x =>
      let x := if status_eqb (Status x) TransferActive
               then set_Status TransferCompleted x else x in
      set_transfers (<[id := set_EndTime now x]> (transfers tm)) tm
  | None => tm
  end.

Definition GetTransfer (id : string) (tm : t) : option Transfer := transfers tm !! id.

Definition GetActiveTransfers (tm : t) : list Transfer :=
  List.filter (fun x => status_eqb (Status x) TransferActive) (map_to_list (transfers tm)).*2.

Definition CancelTransfer (now : Z) (id : string) (tm : t) : t * option string :=
  match transfers tm !! id with
  | None => (tm, Some ("transfer not found: " ++ id)%string)
  | Some x =>
      if negb (status_eqb (Status x) TransferActive) then
        (tm, Some "transfer is not active"%string)
      else
        (set_transfers
           (<[id := set_EndTime now (set_Status TransferCancelled x)]> (transfers tm)) tm,
         None)
  end.

Definition fail (tid msg : string) (tm : t) : t :=
  update tid (fun x => set_Error msg (set_Status TransferFailed x)) tm.

(** The manager, the files on disk by path, and the bytes written to the
    connection so far. *)
Record World : Type := mkWorld {
  manager : t;
  disk : gmap string (list byte);
  wire : list byte
}.

Definition on_manager (f : t -> t) (w : World) : World :=
  mkWorld (f (manager w)) (disk w) (wire w).
Definition set_disk (d : gmap string (list byte)) (w : World) : World :=
  mkWorld (manager w) d (wire w).
Definition set_wire (bs : list byte) (w : World) : World :=
  mkWorld (manager w) (disk w) bs.

(** What a [Read] returns: the bytes put in the buffer and the error. *)
Inductive io_error : Type := EOF | IOErr (msg : string).

Record read_result : Type := mkRead {
  rd_data : list byte;
  rd_err : option io_error
}.

(** How a call ends: it returns, with an error or with none, or it waits in
    a send on the progress channel, where it stays. *)
Inductive ending : Type :=
  | Returned (err : option string)
  | Parked.

(** *** Serving: streamFile *)

(** The local file and the connection, as the loop meets them: the result
    of [os.Open], of each [file.Read] in turn (past the script the file has
    ended), and of the [k]-th [conn.Write]. *)
Record StreamEnv : Type := mkStreamEnv {
  open_err : option string;
  file_reads : list read_result;
  send_err : nat -> option string
}.

Inductive flow : Type :=
  | Continue
  | Break
  | Return (err : string)
  | Park.

(** What a pass does with the chunk it has read, before it sends the
    progress update: the chunk goes to the connection and is counted.  (With
    [TotalBytes = 0] the progress is a division by zero: an infinity in Go,
    0 here.) *)
Definition send_chunk (tid : string) (data : list byte) (w : World) : World :=
  let w := set_wire (wire w ++ data) w in
  let n := Z.of_nat (length data) in
  on_manager
    (update tid
       (fun x =>
          let sent := Int64.add (SentBytes x) n in
          set_Progress (inject_Z sent / inject_Z (TotalBytes x) * 100)
            (set_SentBytes sent x))) w.

(** One pass of the loop.  It never reads [Status].  A pass that waits in
    the send of its progress update has written its chunk and counted it. *)
Definition stream_iter (tid : string) (r : read_result) (werr : option string)
    (w : World) : World * flow :=
  match rd_err r with
  | Some EOF => (w, Break)
  | Some (IOErr m) =>
      (on_manager (fail tid m) w, Return ("failed to read file: " ++ m)%string)
  | None =>
      match werr with
      | Some m =>
          (on_manager (fail tid m) w, Return ("failed to send data: " ++ m)%string)
      | None =>
          let w := send_chunk tid (rd_data r) w in
          match transfers (manager w) !! tid with
          | Some x =>
              match push_progress
                      (ProgressUpdate.mk (ID x) (SentBytes x) (TotalBytes x) (Progress x) 0)
                      (manager w) with
              | Some tm => (mkWorld tm (disk w) (wire w), Continue)
              | None => (w, Park)
              end
          | None => (w, Continue)
          end
      end
  end.

(** After the loop: completed, whatever the status was. *)
Definition stream_finish (now : Z) (tid : string) (w : World) : World :=
  let w := on_manager
             (update tid (fun x => set_EndTime now (set_Status TransferCompleted x))) w in
  let total :=
    match transfers (manager w) !! tid with Some x => TotalBytes x | None => 0%Z end in
  on_manager
    (fun tm =>
       mk (transfers tm) (progressChan tm) (Int64.add (totalUploads tm) 1)
          (totalDownloads tm) (Int64.add (bytesUploaded tm) total) (bytesDownloaded tm))
    w.

Fixpoint stream_loop (now : Z) (env : StreamEnv) (tid : string)
    (reads : list read_result) (k : nat) (w : World) : World * ending :=
  match reads with
  | [] => (stream_finish now tid w, Returned None)
  | r :: reads' =>
      match stream_iter tid r (send_err env k) w with
      | (w', Continue) => stream_loop now env tid reads' (S k) w'
      | (w', Break) => (stream_finish now tid w', Returned None)
      | (w', Return e) => (w', Returned (Some e))
      | (w', Park) => (w', Parked)
      end
  end.

Definition streamFile (now : Z) (env : StreamEnv) (tid : string) (w : World)
    : World * ending :=
  match open_err env with
  | Some m => (w, Returned (Some ("failed to open file: " ++ m)%string))
  | None => stream_loop now env tid (file_reads env) 0 w
  end.

(** The same loop one pass at a time, so that calls of other goroutines can
    come between two passes.  [running = false] once it has returned;
    [parked] once it waits in a send on the progress channel. *)
Record Streamer : Type := mkStreamer {
  pending : list read_result;
  writes : nat;
  running : bool;
  returned : option string;
  parked : bool
}.

Definition start_stream (env : StreamEnv) : Streamer :=
  match open_err env with
  | Some m => mkStreamer [] 0 false (Some ("failed to open file: " ++ m)%string) false
  | None => mkStreamer (file_reads env) 0 true None false
  end.

Definition stream_step (now : Z) (env : StreamEnv) (tid : string)
    (st : World * Streamer) : World * Streamer :=
  let (w, s) := st in
  if negb (running s) || parked s then st
  else
    match pending s with
    | [] => (stream_finish now tid w, mkStreamer [] (writes s) false None false)
    | r :: reads' =>
        match stream_iter tid r (send_err env (writes s)) w with
        | (w', Continue) => (w', mkStreamer reads' (S (writes s)) true None false)
        | (w', Break) =>
            (stream_finish now tid w', mkStreamer reads' (writes s) false None false)
        | (w', Return e) => (w', mkStreamer reads' (writes s) false (Some e) false)
        | (w', Park) => (w', mkStreamer reads' (S (writes s)) true None true)
        end
    end.

(** [n] passes with no other call in between. *)
Fixpoint steps (now : Z) (env : StreamEnv) (tid : string) (n : nat)
    (st : World * Streamer) : World * Streamer :=
  match n with
  | O => st
  | S n' => steps now env tid n' (stream_step now env tid st)
  end.

Inductive action : Type :=
  | StreamStep
  | CallCancel (id : string).

Definition act (now : Z) (env : StreamEnv) (tid : string) (a : action)
    (st : World * Streamer) : World * Streamer :=
  match a with
  | StreamStep => stream_step now env tid st
  | CallCancel id =>
      (on_manager (fun tm => (CancelTransfer now id tm).1) (fst st), snd st)
  end.

Definition run (now : Z) (env : StreamEnv) (tid : string) (schedule : list action)
    (st : World * Streamer) : World * Streamer :=
  fold_left (fun st a => act now env tid a st) schedule st.

(** *** Downloading: receiveFile *)

(** The disk and the connection, as [receiveFile] meets them: the result of
    [os.Create], of each [conn.Read] in turn (past the script the peer has
    closed the connection), of the [k]-th [file.Write], and of opening the
    file again to hash it. *)
Record RecvEnv : Type := mkRecvEnv {
  create_err : option string;
  conn_reads : list read_result;
  write_err : nat -> option string;
  hash_err : option string
}.

Definition append_file (path : string) (data : list byte) (w : World) : World :=
  set_disk (alter (fun c => c ++ data) path (disk w)) w.

(** [utils.HashFile]: the hexadecimal SHA-256 digest of the file at [path]. *)
Definition HashFile (env : RecvEnv) (path : string) (w : World) : string + string :=
  match hash_err env, disk w !! path with
  | Some m, _ => inr ("failed to open file: " ++ m)%string
  | None, None => inr "failed to open file: no such file"%string
  | None, Some content => inl (SHA256.EncodeToString (SHA256.Sum256 content))
  end.

(** What a pass does with the chunk it has read, before it sends the
    progress update: the chunk goes to the file and is counted, [received]
    being the count with the chunk. *)
Definition receive_chunk (savePath : string) (fileSize : Z) (tid : string)
    (data : list byte) (received : Z) (w : World) : World :=
  let w := append_file savePath data w in
  let progress := inject_Z received / inject_Z fileSize * 100 in
  on_manager (update tid (fun x => set_Progress progress (set_SentBytes received x))) w.

(** The receive loop, from [received] bytes and [k] writes on.  A pass
    that waits in the send of its progress update has written its chunk to
    the file and counted it. *)
Fixpoint receive_loop (env : RecvEnv) (savePath : string) (fileSize : Z)
    (tid : string) (reads : list read_result) (k : nat) (received : Z) (w : World)
    : World * ending :=
  if negb (received <? fileSize)%Z then (w, Returned None)
  else
    match reads with
    | [] => (w, Returned None)
    | r :: reads' =>
        match rd_err r with
        | Some EOF => (w, Returned None)
        | Some (IOErr m) =>
            (on_manager (fail tid m) w,
             Returned (Some ("failed to receive data: " ++ m)%string))
        | None =>
            match write_err env k with
            | Some m =>
                (on_manager (fail tid m) w,
                 Returned (Some ("failed to write data: " ++ m)%string))
            | None =>
                let received := Int64.add received (Z.of_nat (length (rd_data r))) in
                let progress := inject_Z received / inject_Z fileSize * 100 in
                let w := receive_chunk savePath fileSize tid (rd_data r) received w in
                match push_progress
                        (ProgressUpdate.mk tid received fileSize progress 0)
                        (manager w) with
                | Some tm =>
                    receive_loop env savePath fileSize tid reads' (S k) received
                      (mkWorld tm (disk w) (wire w))
                | None => (w, Parked)
                end
            end
        end
    end.

Definition receiveFile (now : Z) (env : RecvEnv) (savePath : string) (fileSize : Z)
    (checksum : string) (tid : string) (w : World) : World * ending :=
  match create_err env with
  | Some m => (w, Returned (Some ("failed to create file: " ++ m)%string))
  | None =>
      let w := set_disk (<[savePath := []]> (disk w)) w in
      match receive_loop env savePath fileSize tid (conn_reads env) 0 0 w with
      | (w, Parked) => (w, Parked)
      | (w, Returned (Some e)) => (w, Returned (Some e))
      | (w, Returned None) =>
          match HashFile env savePath w with
          | inr e => (w, Returned (Some ("failed to compute checksum: " ++ e)%string))
          | inl computedChecksum =>
              if negb (String.eqb computedChecksum checksum) then
                let w := set_disk (delete savePath (disk w)) w in
                let w :=
                  on_manager
                    (update tid
                       (fun x => set_Error "Checksum verification failed"
                                   (set_Status TransferFailed x))) w in
                (w, Returned (Some "checksum verification failed"%string))
              else
                let w :=
                  on_manager
                    (update tid
                       (fun x => set_EndTime now (set_Status TransferCompleted x))) w in
                (on_manager
                   (fun tm =>
                      mk (transfers tm) (progressChan tm) (totalUploads tm)
                         (Int64.add (totalDownloads tm) 1) (bytesUploaded tm)
                         (Int64.add (bytesDownloaded tm) fileSize))
                   w,
                 Returned None)
          end
      end
  end.

(** *** Serving: HandleUploadRequest *)

Record TransferResponse : Type := mkResponse {
  resp_CID : string;
  Accepted : bool;
  Reason : string;
  FileSize : Z;
  resp_Checksum : string
}.

(** The connection and the file as the call meets them: the result of
    sending the response, and what [streamFile] meets after it. *)
Record UploadEnv : Type := mkUploadEnv {
  respond_err : option string;
  stream_env : StreamEnv
}.

(** The four readings of the clock: for the identifier, for [StartTime], at
    the end of [streamFile] and in the deferred [completeTransfer], which
    runs when the call returns and not while it waits.  The response is
    given beside the ending; its bytes are not part of [wire], which holds
    the content streamed.  The semaphore, which lets five transfers run at
    a time, is not modelled: the call runs at once. *)
Definition HandleUploadRequest (nowID nowStart nowStream nowEnd : Z) (env : UploadEnv)
    (idx : Indexer.t) (cid requesterID : string) (w : World)
    : World * TransferResponse * ending :=
  match Indexer.GetFile cid idx with
  | None => (w, mkResponse cid false "File not found" 0 "", Returned (respond_err env))
  | Some file =>
      match Indexer.GetLocalFilePath cid idx with
      | None =>
          (w, mkResponse cid false "File not available locally" 0 "",
           Returned (respond_err env))
      | Some filePath =>
          let transfer :=
            mkTransfer (Utils.HashString (cid ++ "-" ++ Go.format_d nowID)%string) cid
              (AcademicFile.FileName file) requesterID "upload" TransferActive
              (AcademicFile.Size file) 0 nowStart Go.zero_time "" 0 in
          let w := on_manager (addTransfer transfer) w in
          let response :=
            mkResponse cid true "" (AcademicFile.Size file) (AcademicFile.Checksum file) in
          let (w, out) :=
            match respond_err env with
            | Some m => (on_manager (fail (ID transfer) m) w, Returned (Some m))
            | None => streamFile nowStream (stream_env env) (ID transfer) w
            end in
          match out with
          | Returned err =>
              (on_manager (completeTransfer nowEnd (ID transfer)) w, response,
               Returned err)
          | Parked => (w, response, Parked)
          end
      end
  end.

End TransferManager.

(** ** package library: IntegrityService

    The service is its cache of answers, by CID. *)

Module IntegrityService.

Abbreviation t := (gmap string bool).

Definition NewIntegrityService : t := ∅.

Definition ComputeHash (content : list byte) : string :=
  SHA256.EncodeToString (SHA256.Sum256 content).

Definition VerifyContent (content : list byte) (expectedHash : string) : bool :=
  String.eqb (ComputeHash content) expectedHash.

(** The cache is asked first, by the CID of the record alone. *)
Definition VerifyAcademicFile (file : AcademicFile.t) (content : list byte)
    (svc : t) : bool * t :=
  match svc !! AcademicFile.CID file with
  | Some verified => (verified, svc)
  | None =>
      let result := VerifyContent content (AcademicFile.Checksum file) in
      (result, <[AcademicFile.CID file := result]> svc)
  end.

Definition VerifyCID (content : list byte) (cid : string) : option bool :=
  match Go.slice_to 32 (ComputeHash content) with
  | Some h => Some (String.eqb ("kx-" ++ h)%string cid)
  | None => None
  end.

Definition GenerateCID (content : list byte) : option string :=
  match Go.slice_to 32 (ComputeHash content) with
  | Some h => Some ("kx-" ++ h)%string
  | None => None
  end.

Definition ClearCache (svc : t) : t := ∅.

Definition InvalidateCache (cid : string) (svc : t) : t := delete cid svc.

Definition GetCacheSize (svc : t) : Z := Z.of_nat (size svc).

End IntegrityService.

(** ** package models: Rating and RatingStore *)

Module Rating.

Local Open Scope Q_scope.

Definition MinRating : Q := 1.0.
Definition MaxRating : Q := 5.0.

Record t : Type := mk {
  ID : string;
  RaterID : string;
  TargetType : string;
  TargetID : string;
  Score : Q;
  Comment : string;
  Timestamp : Z
}.

(** The score is brought into the range before it is stored. *)
Definition NewRating (now : Z) (id raterID targetType targetID : string) (score : Q)
    (comment : string) : t :=
  let score := if Float64.ltb score MinRating then MinRating else score in
  let score := if Float64.ltb MaxRating score then MaxRating else score in
  {| ID := id;
     RaterID := raterID;
     TargetType := targetType;
     TargetID := targetID;
     Score := score;
     Comment := comment;
     Timestamp := now |}.

Definition IsValid (r : t) : bool * string :=
  if String.eqb (RaterID r) "" then (false, "Rater ID is required"%string)
  else if String.eqb (TargetID r) "" then (false, "Target ID is required"%string)
  else if negb (String.eqb (TargetType r) "file") &&
          negb (String.eqb (TargetType r) "student") then
    (false, "Target type must be 'file' or 'student'"%string)
  else if Float64.ltb (Score r) MinRating || Float64.ltb MaxRating (Score r) then
    (false, "Score must be between 1 and 5"%string)
  else if String.eqb (RaterID r) (TargetID r) then (false, "Cannot rate yourself"%string)
  else (true, ""%string).

End Rating.

Module RatingStore.

Local Open Scope Q_scope.

(** The two maps hold pointers to the same ratings; no method of the store
    writes through them. *)
Record t : Type := mk {
  ratings : gmap string Rating.t;
  byTarget : gmap string (list Rating.t)
}.

Record RatingStats : Type := mkStats {
  TotalRatings : Z;
  AverageScore : Q;
  RatingCounts : list Z;
  LastRatingAt : Z
}.

(** The zero value: five counts of zero and the zero instant. *)
Definition zero_stats : RatingStats := mkStats 0 0 [0; 0; 0; 0; 0]%Z Go.zero_time.

Definition NewRatingStore : t := mk ∅ ∅.

Definition GetByTarget (targetID : string) (rs : t) : list Rating.t :=
  default [] (byTarget rs !! targetID).

(** The error is the message of [IsValid]; a rating that is stored is put
    under its ID and appended to the list of its target. *)
Definition Add (rating : Rating.t) (rs : t) : t * option string :=
  let (valid, msg) := Rating.IsValid rating in
  if negb valid then (rs, Some msg)
  else
    (mk (<[Rating.ID rating := rating]> (ratings rs))
        (<[Rating.TargetID rating := GetByTarget (Rating.TargetID rating) rs ++ [rating]]>
           (byTarget rs)),
     None).

(** One pass of the loop of [GetStats]. *)
Definition stats_step (acc : Q * RatingStats) (r : Rating.t) : Q * RatingStats :=
  let (totalScore, stats) := acc in
  let totalScore := totalScore + Rating.Score r in
  let total := Int64.add (TotalRatings stats) 1 in
  let index := Int64.sub (Go.int_of_float (Rating.Score r)) 1 in
  let counts :=
    if (0 <=? index)%Z && (index <? 5)%Z
    then alter (fun c => Int64.add c 1) (Z.to_nat index) (RatingCounts stats)
    else RatingCounts stats in
  let last :=
    if (LastRatingAt stats <? Rating.Timestamp r)%Z
    then Rating.Timestamp r else LastRatingAt stats in
  (totalScore, mkStats total (AverageScore stats) counts last).

Definition GetStats (targetID : string) (rs : t) : RatingStats :=
  let ratings := GetByTarget targetID rs in
  if (length ratings =? 0)%nat then zero_stats
  else
    let (totalScore, stats) := fold_left stats_step ratings (0, zero_stats) in
    mkStats (TotalRatings stats) (totalScore / inject_Z (TotalRatings stats))
      (RatingCounts stats) (LastRatingAt stats).

Definition GetByRater (raterID : string) (rs : t) : list Rating.t :=
  List.filter (fun rating => String.eqb (Rating.RaterID rating) raterID)
    (map_to_list (ratings rs)).*2.

Definition HasRated (raterID targetID : string) (rs : t) : bool :=
  existsb (fun r => String.eqb (Rating.RaterID r) raterID) (GetByTarget targetID rs).

Definition Count (rs : t) : Z := Z.of_nat (size (ratings rs)).

End RatingStore.

(** ** package analytics: RatingService

    The service owns its store; the reputation service it reports to is
    held by pointer, which may be nil.  The channel of submitted ratings is
    the list of those not yet processed, oldest first; it is taken to be
    open and to have room, as it is while the consumer runs. *)

Module RatingService.

Local Open Scope Q_scope.

Definition MinRatingValue : Q := 1.0.
Definition MaxRatingValue : Q := 5.0.

Record t : Type := mk {
  ratingStore : RatingStore.t;
  reputationService : option ReputationService.t;
  ratingChan : list Rating.t;
  totalFileRatings : Z;
  totalPeerRatings : Z;
  averageFileRating : Q;
  averagePeerRating : Q
}.

Definition NewRatingService (reputationService : option ReputationService.t) : t :=
  mk RatingStore.NewRatingStore reputationService [] 0 0 0 0.

(** ["rating-" raterID[:8] "-" targetID[:8] "-" nanoseconds]; [None] is the
    panic of a slice expression on an ID shorter than eight bytes. *)
Definition generateRatingID (now : Z) (raterID targetID : string) : option string :=
  match Go.slice_to 8 raterID with
  | None => None
  | Some r =>
      match Go.slice_to 8 targetID with
      | None => None
      | Some t =>
          Some ("rating-" ++ r ++ "-" ++ t ++ "-" ++ Go.format_d now)%string
      end
  end.

(** How a submission ends. *)
Inductive submitted : Type :=
  | Accepted (rating : Rating.t) (rs' : t)
  | Rejected (err : string)
  | Panicked.

Definition send (rating : Rating.t) (rs : t) : t :=
  mk (ratingStore rs) (reputationService rs) (ratingChan rs ++ [rating])
     (totalFileRatings rs) (totalPeerRatings rs) (averageFileRating rs)
     (averagePeerRating rs).

(** [nowID] is the clock read by [generateRatingID], [now] the one read by
    [NewRating] after it. *)
Definition RateFile (nowID now : Z) (raterID fileCID : string) (score : Q)
    (comment : string) (rs : t) : submitted :=
  if Float64.ltb score MinRatingValue || Float64.ltb MaxRatingValue score then
    Rejected "score must be between 1 and 5"
  else if RatingStore.HasRated raterID fileCID (ratingStore rs) then
    Rejected "user has already rated this file"
  else
    match generateRatingID nowID raterID fileCID with
    | None => Panicked
    | Some id =>
        let rating := Rating.NewRating now id raterID "file" fileCID score comment in
        Accepted rating (send rating rs)
    end.

Definition RatePeer (nowID now : Z) (raterID targetPeerID : string) (score : Q)
    (comment : string) (rs : t) : submitted :=
  if Float64.ltb score MinRatingValue || Float64.ltb MaxRatingValue score then
    Rejected "score must be between 1 and 5"
  else if String.eqb raterID targetPeerID then Rejected "cannot rate yourself"
  else if RatingStore.HasRated raterID targetPeerID (ratingStore rs) then
    Rejected "user has already rated this peer"
  else
    match generateRatingID nowID raterID targetPeerID with
    | None => Panicked
    | Some id =>
        let rating :=
          Rating.NewRating now id raterID "student" targetPeerID score comment in
        Accepted rating (send rating rs)
    end.

(** [updateAverageFileRating] and [updateAveragePeerRating], called after
    the count has been incremented. *)
Definition updateAverage (average : Q) (total : Z) (newScore : Q) : Q :=
  let oldTotal := average * inject_Z (Int64.sub total 1) in
  (oldTotal + newScore) / inject_Z total.

Definition applyRating (now : Z) (rating : Rating.t) (rs : t) : t * option string :=
  match RatingStore.Add rating (ratingStore rs) with
  | (_, Some err) => (rs, Some err)
  | (store, None) =>
      if String.eqb (Rating.TargetType rating) "file" then
        let total := Int64.add (totalFileRatings rs) 1 in
        (mk store (reputationService rs) (ratingChan rs) total (totalPeerRatings rs)
            (updateAverage (averageFileRating rs) total (Rating.Score rating))
            (averagePeerRating rs),
         None)
      else
        let total := Int64.add (totalPeerRatings rs) 1 in
        (mk store
            (ReputationService.RecordRating now (Rating.TargetID rating)
               (Rating.Score rating) <$> reputationService rs)
            (ratingChan rs) (totalFileRatings rs) total (averageFileRating rs)
            (updateAverage (averagePeerRating rs) total (Rating.Score rating)),
         None)
  end.

(** The consumer: every submitted rating, oldest first; [clock k] is the
    time at which the [k]-th of them is applied. *)
Fixpoint process_queue (clock : nat -> Z) (k : nat) (queue : list Rating.t) (rs : t) : t :=
  match queue with
  | [] => rs
  | rating :: queue' =>
      process_queue clock (S k) queue' (applyRating (clock k) rating rs).1
  end.

Definition processRatings (clock : nat -> Z) (rs : t) : t :=
  process_queue clock 0 (ratingChan rs)
    (mk (ratingStore rs) (reputationService rs) [] (totalFileRatings rs)
        (totalPeerRatings rs) (averageFileRating rs) (averagePeerRating rs)).

Definition GetFileRatings (fileCID : string) (rs : t) : list Rating.t :=
  RatingStore.GetByTarget fileCID (ratingStore rs).

Definition GetPeerRatings (peerID : string) (rs : t) : list Rating.t :=
  RatingStore.GetByTarget peerID (ratingStore rs).

Definition HasUserRated (raterID targetID : string) (rs : t) : bool :=
  RatingStore.HasRated raterID targetID (ratingStore rs).

Definition GetTopRatedFiles (fileIndex : gmap string AcademicFile.t) (limit : Z)
    : option (list AcademicFile.t) :=
  let files := FileIndex.GetAllFiles fileIndex in
  BubbleSort.top limit (BubbleSort.sort AcademicFile.AverageRating files).

End RatingService.

(** ** package analytics: ThrottledWriter and ThrottlingManager *)

Module ThrottledWriter.

(** The writer underneath: what its [k]-th call returns when it is offered
    [len] bytes (the count [n] and the error), the bytes it has taken so
    far and the number of calls made. *)
Record Sink : Type := mkSink {
  behaviour : nat -> nat -> nat * option string;
  taken : list byte;
  calls : nat
}.

Record t : Type := mk {
  writer : Sink;
  throttler : Throttler.t
}.

Definition NewThrottledWriter (writer : Sink) (throttler : Throttler.t) : t :=
  mk writer throttler.

(** The ticks of the refill goroutine as a call of [Write] meets them: for
    the pass of the loop with number [k], the ticks handled since the pass
    before, and those handled in each sleep of its call of [Acquire]. *)
Record Ticks : Type := mkTicks {
  before : nat -> nat;
  during : nat -> list nat
}.

(** How a call of [Write] ends: it returns [(n, err)]; a slice expression
    or [Acquire] panics; [Acquire] is still asleep when the sleeps listed
    for it are over; or the loop is still running when the fuel of the
    model is spent. *)
Inductive result : Type :=
  | Returned (n : Z) (err : option string) (tw' : t)
  | Panicked
  | Waiting
  | Unfinished.

(** The loop of [Write] from [written] bytes on, at pass [k]. *)
Fixpoint write_loop (fuel : nat) (ticks : Ticks) (k : nat) (p : list byte)
    (written : Z) (tw : t) : result :=
  if negb (written <? Z.of_nat (length p)) then Returned written None tw
  else
    match fuel with
    | O => Unfinished
    | S fuel' =>
        let remaining := Int64.sub (Z.of_nat (length p)) written in
        let th := Nat.iter (before ticks k) Throttler.refill (throttler tw) in
        match Throttler.Acquire (during ticks k) remaining th with
        | Throttler.Panic => Panicked
        | Throttler.Waiting _ => Waiting
        | Throttler.Returned allowed th' =>
            match Go.slice written (Int64.add written allowed) p with
            | None => Panicked
            | Some chunk =>
                let (n, err) := behaviour (writer tw) (calls (writer tw)) (length chunk) in
                let sink := mkSink (behaviour (writer tw))
                              (taken (writer tw) ++ firstn n chunk)
                              (S (calls (writer tw))) in
                match err with
                | Some e => Returned (Int64.add written (Z.of_nat n)) (Some e) (mk sink th')
                | None =>
                    write_loop fuel' ticks (S k) p (Int64.add written (Z.of_nat n))
                      (mk sink th')
                end
            end
        end
    end.

(** A pass that does not end the call moves [written] forward, so as many
    passes as [p] has bytes, and one more, are enough. *)
Definition Write (ticks : Ticks) (p : list byte) (tw : t) : result :=
  write_loop (S (length p)) ticks 0 p 0 tw.

End ThrottledWriter.

Module ThrottlingManager.

Record t : Type := mk {
  throttlers : gmap string Throttler.t;
  enabled : bool
}.

Definition NewThrottlingManager : t := mk ∅ true.

(** The throttler returned is the one the map holds under [peerID]
    afterwards. *)
Definition GetThrottler (peerID : string) (reputation : Q) (tm : t) : t :=
  match throttlers tm !! peerID with
  | Some throttler =>
      mk (<[peerID := Throttler.UpdateReputation reputation throttler]> (throttlers tm))
         (enabled tm)
  | None =>
      mk (<[peerID := Throttler.Start (Throttler.NewThrottler peerID reputation)]>
            (throttlers tm))
         (enabled tm)
  end.

(** [None] is the panic of [Stop], which leaves the map as it was. *)
Definition RemoveThrottler (peerID : string) (tm : t) : option t :=
  match throttlers tm !! peerID with
  | Some throttler =>
      match Throttler.Stop throttler with
      | Some _ => Some (mk (delete peerID (throttlers tm)) (enabled tm))
      | None => None
      end
  | None => Some tm
  end.

Definition SetEnabled (enabled : bool) (tm : t) : t := mk (throttlers tm) enabled.

Definition IsEnabled (tm : t) : bool := enabled tm.

Record Stats : Type := mkStats {
  stats_enabled : bool;
  total_peers : Z;
  leecher_count : Z;
  normal_count : Z;
  premium_count : Z
}.

Definition count_tier (tier : Throttler.BandwidthTier) (tm : t) : Z :=
  fold_left
    (fun n th => if Throttler.tier_eqb (Throttler.tier th) tier then Int64.add n 1 else n)
    (map_to_list (throttlers tm)).*2 0.

Definition GetStats (tm : t) : Stats :=
  mkStats (enabled tm) (Z.of_nat (size (throttlers tm)))
    (count_tier Throttler.TierLeecher tm)
    (count_tier Throttler.TierNormal tm)
    (count_tier Throttler.TierPremium tm).

Definition tier_name (tier : Throttler.BandwidthTier) : string :=
  match tier with
  | Throttler.TierLeecher => "Leecher"
  | Throttler.TierNormal => "Normal"
  | Throttler.TierPremium => "Premium"
  end.

Record PeerInfo : Type := mkPeerInfo {
  peer_id : string;
  tier : string;
  bandwidth_limit : Z;
  available_bytes : Z
}.

Definition GetPeerInfo (peerID : string) (tm : t) : PeerInfo + string :=
  match throttlers tm !! peerID with
  | None => inr ("no throttler for peer: " ++ peerID)%string
  | Some throttler =>
      inl (mkPeerInfo peerID (tier_name (Throttler.tier throttler))
             (Throttler.bandwidth throttler) (Throttler.GetAvailableBytes throttler))
  end.

(** Every throttler is stopped, then the map is replaced by an empty one.
    [None] is the panic of a [Stop] on the way; which throttlers were
    stopped before it depends on the order of the range over the map. *)
Definition StopAll (tm : t) : option t :=
  if forallb (fun th => bool_decide (is_Some (Throttler.Stop th)))
       (map_to_list (throttlers tm)).*2
  then Some (mk ∅ (enabled tm))
  else None.

End ThrottlingManager.

(** ** package gateway: Discovery

    The peers heard of and when they were last seen, beside the registry the
    service shares with the rest of the server.  An event is sent on a
    channel, here the list of the events sent, oldest first; its [Peer]
    field points to the record the registry holds under [ev_PeerID].  The
    goroutines that broadcast events, send heartbeats and clean up call the
    functions below; they are not modelled, nor is the network. *)

Module Discovery.

Definition PeerTimeout : Z := 30 * 1000000000.

Definition EventPeerJoined : string := "PEER_JOINED".
Definition EventPeerLeft : string := "PEER_LEFT".
Definition EventPeerTimeout : string := "PEER_TIMEOUT".
Definition EventPeerUpdated : string := "PEER_UPDATED".

Record DiscoveryMessage : Type := mkMessage {
  msg_Type : string;
  PeerID : string;
  PeerName : string;
  Address : string;
  Port : Z;
  Timestamp : Z
}.

Record DiscoveryEvent : Type := mkEvent {
  ev_Type : string;
  ev_PeerID : string;
  ev_Message : string
}.

Record t : Type := mk {
  peerRegistry : PeerRegistry.t;
  knownPeers : gmap string Z;
  eventChan : list DiscoveryEvent
}.

Definition NewDiscovery (pr : PeerRegistry.t) : t := mk pr ∅ [].

(** The two readings of the clock: for the time last seen, and inside
    [NewStudent] or [SetOnline]. *)
Definition RegisterPeer (now now' : Z) (msg : DiscoveryMessage) (d : t) : t :=
  let exists_ := bool_decide (is_Some (knownPeers d !! PeerID msg)) in
  let known := <[PeerID msg := now]> (knownPeers d) in
  match PeerRegistry.Get (PeerID msg) (peerRegistry d) with
  | None =>
      let peer :=
        Student.NewStudent now' (PeerID msg) (PeerName msg) (Address msg) (Port msg) in
      mk (PeerRegistry.Register peer (peerRegistry d)) known
         (eventChan d ++ [mkEvent EventPeerJoined (PeerID msg) ""])
  | Some _ =>
      if negb exists_ then
        mk (alter (Student.SetOnline now' true) (PeerID msg) (peerRegistry d)) known
           (eventChan d ++ [mkEvent EventPeerUpdated (PeerID msg) ""])
      else mk (peerRegistry d) known (eventChan d)
  end.

Definition HandleLeave (peerID : string) (d : t) : t :=
  let known := delete peerID (knownPeers d) in
  match PeerRegistry.Get peerID (peerRegistry d) with
  | Some _ =>
      mk (alter (Student.SetOnline 0 false) peerID (peerRegistry d)) known
         (eventChan d ++ [mkEvent EventPeerLeft peerID ""])
  | None => mk (peerRegistry d) known (eventChan d)
  end.

(** [dialled] tells whether the connection to the peer could be made.  The
    identifier comes from the list [pingAllPeers] made of the known peers
    before it started the pings. *)
Definition pingPeer (now : Z) (dialled : bool) (peerID : string) (d : t) : t :=
  match PeerRegistry.Get peerID (peerRegistry d) with
  | None => d
  | Some _ =>
      if dialled then mk (peerRegistry d) (<[peerID := now]> (knownPeers d)) (eventChan d)
      else d
  end.

(** The first loop of [removeStale], over the map in the order of
    [map_to_list]. *)
Definition stale (now : Z) (known : gmap string Z) : list string :=
  (List.filter (fun e => PeerTimeout <? Go.Sub now e.2) (map_to_list known)).*1.

(** One pass of its second loop. *)
Definition drop (d : t) (peerID : string) : t :=
  let known := delete peerID (knownPeers d) in
  match PeerRegistry.Get peerID (peerRegistry d) with
  | Some _ =>
      mk (alter (Student.SetOnline 0 false) peerID (peerRegistry d)) known
         (eventChan d ++ [mkEvent EventPeerTimeout peerID "Peer timed out"])
  | None => mk (peerRegistry d) known (eventChan d)
  end.

Definition removeStale (now : Z) (d : t) : t :=
  fold_left drop (stale now (knownPeers d)) d.

Definition GetOnlinePeers (d : t) : list Student.t :=
  PeerRegistry.GetOnlinePeers (peerRegistry d).

Definition GetPeerCount (d : t) : Z := Z.of_nat (size (knownPeers d)).

Definition IsPeerOnline (now : Z) (peerID : string) (d : t) : bool :=
  match knownPeers d !! peerID with
  | None => false
  | Some lastSeen => Go.Sub now lastSeen <? PeerTimeout
  end.

End Discovery.

(** ** package gateway: the upload and download handlers

    The part of the server the two handlers reach: the file index, the
    indexer, which keeps an index of its own, and the reputation service,
    which holds the registry.  A request is given by the values the handler
    takes from it. *)

Module Gateway.

Record Server : Type := mkServer {
  fileIndex : FileIndex.t;
  indexer : Indexer.t;
  reputationService : ReputationService.t
}.

Definition NewServer (sharedFilesDir : string) : Server :=
  mkServer FileIndex.NewFileIndex (Indexer.NewIndexer sharedFilesDir)
    (ReputationService.NewReputationService PeerRegistry.NewPeerRegistry).

Definition StatusOK : Z := 200.
Definition StatusCreated : Z := 201.
Definition StatusBadRequest : Z := 400.
Definition StatusForbidden : Z := 403.
Definition StatusNotFound : Z := 404.
Definition StatusInternalServerError : Z := 500.

(** The [Data] of the two answers. *)
Inductive data : Type :=
  | NoData
  | Uploaded (cid file_name : string) (size : Z)
  | Initiated (cid file_name : string) (size : Z) (owner : string).

Record APIResponse : Type := mkResponse {
  Success : bool;
  Message : string;
  Data : data;
  Error : string
}.

Definition sendError (status : Z) (message : string) : Z * APIResponse :=
  (status, mkResponse false "" NoData message).

(** The file part of a multipart form: the name and size of its header, and
    what the one [Read] into the buffer of that size gives. *)
Record FilePart : Type := mkPart {
  Filename : string;
  part_Size : Z;
  part_read : list byte;
  read_failed : bool
}.

Record UploadRequest : Type := mkUpload {
  parsed : bool;
  owner_id : string;
  file : option FilePart
}.

(** The buffer after the read: the bytes read, then zeros up to the size. *)
Definition buffer (size : Z) (read : list byte) : list byte :=
  firstn (Z.to_nat size) (read ++ repeat x00 (Z.to_nat size - length read)).

(** The two readings of the clock are those of [NewAcademicFile] and of
    [RecordUpload].  [None] is the panic of [make] on a negative size. *)
Definition uploadHandler (now now' : Z) (req : UploadRequest) (srv : Server)
    : Server * option (Z * APIResponse) :=
  if negb (parsed req) then
    (srv, Some (sendError StatusBadRequest "Failed to parse form"))
  else
    let ownerID := owner_id req in
    if String.eqb ownerID "" then
      (srv, Some (sendError StatusBadRequest "Owner ID required"))
    else
      match file req with
      | None => (srv, Some (sendError StatusBadRequest "File required"))
      | Some header =>
          if part_Size header <? 0 then (srv, None)
          else if read_failed header then
            (srv, Some (sendError StatusInternalServerError "Failed to read file"))
          else
            let content := buffer (part_Size header) (part_read header) in
            let parts := Go.Split (Filename header) "." in
            let ext :=
              if (1 <? length parts)%nat
              then ("." ++ List.last parts EmptyString)%string else EmptyString in
            let academicFile :=
              AcademicFile.NewAcademicFile now (Filename header) ownerID
                (part_Size header) ext content in
            (mkServer (FileIndex.Add academicFile (fileIndex srv)) (indexer srv)
               (ReputationService.RecordUpload now' ownerID (reputationService srv)),
             Some (StatusCreated,
                   mkResponse true "File uploaded successfully"
                     (Uploaded (AcademicFile.CID academicFile)
                        (AcademicFile.FileName academicFile)
                        (AcademicFile.Size academicFile)) ""))
      end.

Definition downloadHandler (now : Z) (cid requesterID : string) (srv : Server)
    : Server * (Z * APIResponse) :=
  if String.eqb cid "" || String.eqb requesterID "" then
    (srv, sendError StatusBadRequest "CID and requester_id required")
  else
    let (canDownload, reason) :=
      ReputationService.CanDownload requesterID (reputationService srv) in
    if negb canDownload then (srv, sendError StatusForbidden reason)
    else
      match FileIndex.Get cid (fileIndex srv) with
      | None => (srv, sendError StatusNotFound "File not found")
      | Some file =>
          let rs :=
            ReputationService.RecordDownload now requesterID (reputationService srv) in
          let file := AcademicFile.RecordDownload file in
          (mkServer (<[cid := file]> (fileIndex srv)) (indexer srv) rs,
           (StatusOK,
            mkResponse true "Download initiated"
              (Initiated (AcademicFile.CID file) (AcademicFile.FileName file)
                 (AcademicFile.Size file) (AcademicFile.OwnerID file)) ""))
      end.

End Gateway.

(** ** The words of the specification

    The definitions of this module follow the specification, not the code:
    they are what the code is compared with. *)

Module Spec.

(** [sub] occurs in [s] as a run of consecutive characters. *)
Fixpoint contains (sub s : string) : bool :=
  String.prefix sub s ||
  match s with
  | EmptyString => false
  | String _ s' => contains sub s'
  end.

Definition lower (c : ascii) : ascii :=
  let n := nat_of_ascii c in
  if ((65 <=? n) && (n <=? 90))%nat then ascii_of_nat (n + 32) else c.

Fixpoint to_lower (s : string) : string :=
  match s with
  | EmptyString => EmptyString
  | String c s' => String (lower c) (to_lower s')
  end.

(** [substr] occurs in [s] when the case of letters is ignored. *)
Definition contains_fold (s substr : string) : bool :=
  contains (to_lower substr) (to_lower s).

(** "matching name/description/subject substrings (case-insensitive)" *)
Definition search_matches (query : string) (file : AcademicFile.t) : bool :=
  contains_fold (AcademicFile.FileName file) query ||
  contains_fold (AcademicFile.Description file) query ||
  contains_fold (AcademicFile.Subject file) query.

(** "reputation ∈ [0,10]" *)
Definition score_in_range (q : Q) : Prop := (0 <= q <= 10)%Q.

(** "ratio < 0.5 → −1.0; ratio > 1.5 → +0.5", the ratio being that of
    uploads to downloads, written without the division. *)
Definition adjustment (uploads downloads : Z) : Q :=
  if 0 <? downloads then
    if 2 * uploads <? downloads then (- 1.0)%Q
    else if 3 * downloads <? 2 * uploads then 0.5%Q
    else 0%Q
  else 0%Q.

(** "then clamped to [0,10]" *)
Definition clamp (q : Q) : Q :=
  if Float64.ltb q 0 then 0%Q else if Float64.ltb 10 q then 10%Q else q.

Definition effective_score (s : Student.t) : Q :=
  clamp (Student.ReputationScore s +
         adjustment (Student.TotalUploads s) (Student.TotalDownloads s))%Q.

(** "ceil(b / token_size)" *)
Definition ceil_div (b size : Z) : Z := (b + size - 1) / size.

End Spec.

(** ** Invariants *)

Module Invariant.

(** Every registered peer has its score within range. *)
Definition registry_ok (pr : gmap string Student.t) : Prop :=
  map_Forall (fun _ s => Spec.score_in_range (Student.ReputationScore s)) pr.

(** What [NewThrottler] establishes and the refill keeps: a positive token
    size and a balance between zero and the bucket size. *)
Definition throttler_ok (th : Throttler.t) : Prop :=
  0 < Throttler.tokenSize th <= Int64.max_int /\
  0 <= Throttler.tokens th <= Throttler.maxTokens th /\
  Throttler.maxTokens th <= Int64.max_int.

(** No throttler runs on a [stopChan] that is closed: none was started
    again after a [Stop]. *)
Definition never_restarted (th : Throttler.t) : Prop :=
  Throttler.isRunning th = true -> Throttler.stopClosed th = false.

(** The reads of a file after its chunks: none, or the end of the file
    first. *)
Definition file_ends (tail : list TransferManager.read_result) : Prop :=
  tail = [] \/
  exists d rest, tail = TransferManager.mkRead d (Some TransferManager.EOF) :: rest.

(** Every peer the discovery service knows is in the registry and marked
    online there. *)
Definition known_online (d : Discovery.t) : Prop :=
  forall id lastSeen,
    Discovery.knownPeers d !! id = Some lastSeen ->
    exists p, Discovery.peerRegistry d !! id = Some p /\ Student.IsOnline p = true.

End Invariant.

(** ** Scenarios

    The concrete peers, files and transfers on which the properties below
    are tried. *)

(** A new peer after one download, and after six. *)
Definition one_download : Student.t :=
  Student.RecordDownload 1 (Student.NewStudent 0 "peer-b" "B" "10.0.0.2" 9001).

Definition six_downloads : Student.t :=
  Nat.iter 6 (Student.RecordDownload 1) (Student.NewStudent 0 "peer-b" "B" "10.0.0.2" 9001).

(** A service with one peer, and four events: an upload, two of large
    magnitude, and one for a peer that is not registered. *)
Definition peer_a : Student.t := Student.NewStudent 0 "peer-a" "A" "10.0.0.1" 9000.

Definition service_a : ReputationService.t :=
  ReputationService.NewReputationService
    (PeerRegistry.Register peer_a PeerRegistry.NewPeerRegistry).

Definition events_a : list ReputationService.ReputationEvent :=
  [ReputationService.mkEvent ReputationService.EventUpload "peer-a" 0.5 "Shared a file" 1;
   ReputationService.mkEvent ReputationService.EventContribution "peer-a" 1000 "bonus" 2;
   ReputationService.mkEvent ReputationService.EventLeeching "peer-a" (-5000) "penalty" 3;
   ReputationService.mkEvent ReputationService.EventDownload "peer-z" (-0.1) "unknown" 4].

(** A new peer after six leeching penalties: its score is 2.0. *)
Definition service_c : ReputationService.t :=
  ReputationService.processEvents
    (Nat.iter 6 (ReputationService.RecordLeeching 1 "peer-c")
       (ReputationService.NewReputationService
          (PeerRegistry.Register (Student.NewStudent 0 "peer-c" "C" "10.0.0.3" 9002)
             PeerRegistry.NewPeerRegistry))).

(** A service whose only peer has stored score [q] and no transfer. *)
Definition service_with_score (q : Q) : ReputationService.t :=
  ReputationService.NewReputationService
    (PeerRegistry.Register
       (Student.set_ReputationScore q (Student.NewStudent 0 "peer-d" "D" "10.0.0.4" 9003))
       PeerRegistry.NewPeerRegistry).

(** A three-byte file shared by peer-a, alone in an index; then the same
    bytes uploaded by peer-b. *)
Definition notes_abc : AcademicFile.t :=
  AcademicFile.NewAcademicFile 0 "notes.pdf" "peer-a" 3 ".pdf"
    (SHA256.bytes_of_string "abc").

Definition index_notes : gmap string AcademicFile.t :=
  FileIndex.Add notes_abc FileIndex.NewFileIndex.

Definition index_two_uploads : gmap string AcademicFile.t :=
  FileIndex.Add
    (AcademicFile.NewAcademicFile 5 "copy.pdf" "peer-b" 3 ".pdf"
       (SHA256.bytes_of_string "abc"))
    index_notes.

(** A new throttler of the normal tier. *)
Definition throttler_normal : Throttler.t := Throttler.NewThrottler "peer-a" 5.0.

(** A download of the three bytes, which the peer sends in two reads; in
    the second script the last byte arrives changed. *)
Definition download_abc : TransferManager.Transfer :=
  TransferManager.mkTransfer "t-1" (AcademicFile.CID notes_abc) "" "10.0.0.1:9000"
    "download" TransferManager.TransferActive 3 0 10 0 "" 0.

Definition world_abc : TransferManager.World :=
  TransferManager.mkWorld
    (TransferManager.addTransfer download_abc TransferManager.NewTransferManager) ∅ [].

Definition env_intact : TransferManager.RecvEnv :=
  TransferManager.mkRecvEnv None
    [TransferManager.mkRead (SHA256.bytes_of_string "ab") None;
     TransferManager.mkRead (SHA256.bytes_of_string "c") None]
    (fun _ => None) None.

Definition env_corrupt : TransferManager.RecvEnv :=
  TransferManager.mkRecvEnv None
    [TransferManager.mkRead (SHA256.bytes_of_string "ab") None;
     TransferManager.mkRead (SHA256.bytes_of_string "d") None]
    (fun _ => None) None.

(** A download of 101 bytes that arrive one by one, into a manager whose
    progress channel is empty. *)
Definition download_long : TransferManager.Transfer :=
  TransferManager.mkTransfer "t-3" "" "" "10.0.0.1:9000"
    "download" TransferManager.TransferActive 101 0 10 0 "" 0.

Definition world_long : TransferManager.World :=
  TransferManager.mkWorld
    (TransferManager.addTransfer download_long TransferManager.NewTransferManager) ∅ [].

Definition env_long : TransferManager.RecvEnv :=
  TransferManager.mkRecvEnv None
    (repeat (TransferManager.mkRead [x61] None) 101)
    (fun _ => None) None.

(** The three bytes served in two chunks, and the runs of that transfer
    under a schedule of loop passes and calls of [CancelTransfer]. *)
Definition upload_abc : TransferManager.Transfer :=
  TransferManager.mkTransfer "t-2" (AcademicFile.CID notes_abc) "notes.pdf" "peer-b"
    "upload" TransferManager.TransferActive 3 0 10 0 "" 0.

Definition manager_up : TransferManager.t :=
  TransferManager.addTransfer upload_abc TransferManager.NewTransferManager.

Definition world_up : TransferManager.World :=
  TransferManager.mkWorld manager_up ∅ [].

Definition env_up : TransferManager.StreamEnv :=
  TransferManager.mkStreamEnv None
    [TransferManager.mkRead (SHA256.bytes_of_string "ab") None;
     TransferManager.mkRead (SHA256.bytes_of_string "c") None;
     TransferManager.mkRead [] (Some TransferManager.EOF)]
    (fun _ => None).

Definition run_up (schedule : list TransferManager.action)
    : TransferManager.World * TransferManager.Streamer :=
  TransferManager.run 20 env_up "t-2" schedule
    (world_up, TransferManager.start_stream env_up).

(** Ratings of peer-a: a good one and a poor one by two other peers, one by
    peer-a itself, and a rating of the file. *)
Definition rating_good : Rating.t :=
  Rating.mk "r-1" "peer-b" "student" "peer-a" 4.5 "helpful" 1.

Definition rating_poor : Rating.t :=
  Rating.mk "r-2" "peer-c" "student" "peer-a" 2.0 "" 2.

Definition rating_self : Rating.t :=
  Rating.mk "r-3" "peer-a" "student" "peer-a" 5.0 "" 3.

Definition rating_file : Rating.t :=
  Rating.mk "r-4" "peer-b" "file" (AcademicFile.CID notes_abc) 3.0 "" 4.

Definition ratings_a : list Rating.t :=
  [rating_good; rating_self; rating_poor; rating_file].

(** A peer with an ID of ten bytes, registered with a reputation service
    whose channel is empty. *)
Definition alice : Student.t := Student.NewStudent 0 "peer-alice" "Alice" "10.0.0.5" 9005.

Definition service_alice : ReputationService.t :=
  ReputationService.NewReputationService
    (PeerRegistry.Register alice PeerRegistry.NewPeerRegistry).

(** Download events of peer-alice, [n] of them. *)
Definition downloads_alice (n : nat) : list ReputationService.ReputationEvent :=
  repeat
    (ReputationService.mkEvent ReputationService.EventDownload "peer-alice"
       (- ReputationService.DownloadPenalty) "Downloaded a file" 1) n.

(** The normal throttler started, with its bucket empty and with eight
    tokens; a writer that takes all it is offered; a manager that has seen
    a premium peer and a leecher. *)
Definition throttler_empty : Throttler.t :=
  Throttler.Start (Throttler.set_tokens 0 throttler_normal).

Definition throttler_eight : Throttler.t :=
  Throttler.Start (Throttler.set_tokens 8 throttler_normal).

(** A running throttler with tokens of two bytes, its bucket empty. *)
Definition throttler_small : Throttler.t :=
  Throttler.mk "peer-a" Throttler.TierNormal 20 0 10 2 true false.

Definition sink_all : ThrottledWriter.Sink :=
  ThrottledWriter.mkSink (fun _ len => (len, None)) [] 0.

Definition manager_two : ThrottlingManager.t :=
  ThrottlingManager.GetThrottler "peer-b" 2.0
    (ThrottlingManager.GetThrottler "peer-a" 9.0 ThrottlingManager.NewThrottlingManager).

(** A file of three bytes in the shared directory, indexed for peer-a; a
    request for it, served in two chunks. *)
Definition file_notes : Indexer.FileEnv :=
  Indexer.mkFileEnv (inl ("Notes.PDF"%string, 3)) (inl (SHA256.bytes_of_string "abc")).

Definition indexer_notes : Indexer.t :=
  (Indexer.IndexFile 5 file_notes "/srv/shared/Notes.PDF" "peer-a"
     (Indexer.NewIndexer "/srv/shared")).1.

Definition env_served : TransferManager.UploadEnv :=
  TransferManager.mkUploadEnv None env_up.

Definition world_idle : TransferManager.World :=
  TransferManager.mkWorld TransferManager.NewTransferManager ∅ [].

(** The discovery service after the announcement of peer-b, heard at
    instant 100. *)
Definition announce_b : Discovery.DiscoveryMessage :=
  Discovery.mkMessage "ANNOUNCE" "peer-b" "B" "10.0.0.2" 9001 100.

Definition discovery_b : Discovery.t :=
  Discovery.RegisterPeer 100 100 announce_b
    (Discovery.NewDiscovery PeerRegistry.NewPeerRegistry).

(** A server that has peer-alice in its registry, and the upload of the
    three bytes by peer-a. *)
Definition server_alice : Gateway.Server :=
  Gateway.mkServer FileIndex.NewFileIndex (Indexer.NewIndexer "/srv/shared")
    service_alice.

Definition part_notes : Gateway.FilePart :=
  Gateway.mkPart "notes.pdf" 3 (SHA256.bytes_of_string "abc") false.

(** One tick in the second sleep of every call of [Acquire], none before. *)
Definition ticks_late : ThrottledWriter.Ticks :=
  ThrottledWriter.mkTicks (fun _ => 0%nat) (fun _ => [0; 1]%nat).

(** * Properties *)

(** ** Machine integers and rationals *)

Ltac int64_range :=
  unfold Int64.in_range, Int64.min_int, Int64.max_int in *.

Module Int64Facts.

Import Int64.

Lemma wrap64_id z : in_range z -> wrap64 z = z.
Proof.
  int64_range. unfold wrap64. intros H.
  rewrite Z.mod_small; lia.
Qed.

Lemma wrap64_range z : in_range (wrap64 z).
Proof.
  int64_range. unfold wrap64.
  pose proof (Z.mod_pos_bound (z + 2 ^ 63) (2 ^ 64)). lia.
Qed.

Lemma wrap64_sub_l x y : wrap64 (wrap64 x - y) = wrap64 (x - y).
Proof.
  unfold wrap64. f_equal.
  replace ((x + 2 ^ 63) mod 2 ^ 64 - 2 ^ 63 - y + 2 ^ 63)
    with ((x + 2 ^ 63) mod 2 ^ 64 - y) by lia.
  rewrite Zminus_mod_idemp_l. f_equal. lia.
Qed.

Lemma add_small x y : in_range (x + y) -> add x y = x + y.
Proof. apply wrap64_id. Qed.

Lemma sub_small x y : in_range (x - y) -> sub x y = x - y.
Proof. apply wrap64_id. Qed.

Lemma mul_small x y : in_range (x * y) -> mul x y = x * y.
Proof. apply wrap64_id. Qed.

Lemma quot_small x y : in_range (Z.quot x y) -> quot x y = Z.quot x y.
Proof. apply wrap64_id. Qed.

End Int64Facts.

Module Float64Facts.

Import Float64.
Local Open Scope Q_scope.

Lemma leb_le x y : leb x y = true <-> x <= y.
Proof. apply Qle_bool_iff. Qed.

Lemma ltb_lt x y : ltb x y = true <-> x < y.
Proof.
  unfold ltb. rewrite negb_true_iff, <- not_true_iff_false, Qle_bool_iff.
  split; [apply Qnot_le_lt | apply Qlt_not_le].
Qed.

Lemma ltb_ge x y : ltb x y = false <-> y <= x.
Proof.
  unfold ltb. rewrite negb_false_iff. apply Qle_bool_iff.
Qed.

Lemma leb_gt x y : leb x y = false <-> y < x.
Proof.
  unfold leb. rewrite <- not_true_iff_false, Qle_bool_iff.
  split; [apply Qnot_le_lt | apply Qlt_not_le].
Qed.

Lemma ltb_compat (x x' y y' : Q) :
  x == x' -> y == y' -> ltb x y = ltb x' y'.
Proof.
  intros Hx Hy. apply eq_true_iff_eq.
  rewrite !ltb_lt, Hx, Hy. reflexivity.
Qed.

(** A quotient of two counters against a bound of the form [a / b], as an
    inequality between integers. *)
Lemma ratio_lt (n d a b : Z) :
  (0 < d)%Z -> (0 < b)%Z ->
  inject_Z n / inject_Z d < inject_Z a / inject_Z b <-> (n * b < a * d)%Z.
Proof.
  intros Hd Hb.
  destruct d as [|d|d]; try lia. destruct b as [|b|b]; try lia.
  unfold Qlt, Qdiv, Qmult, Qinv, inject_Z. simpl. lia.
Qed.

Lemma ratio_gt (n d a b : Z) :
  (0 < d)%Z -> (0 < b)%Z ->
  inject_Z a / inject_Z b < inject_Z n / inject_Z d <-> (a * d < n * b)%Z.
Proof.
  intros Hd Hb.
  destruct d as [|d|d]; try lia. destruct b as [|b|b]; try lia.
  unfold Qlt, Qdiv, Qmult, Qinv, inject_Z. simpl. lia.
Qed.

End Float64Facts.

Example sha256_empty :
  SHA256.EncodeToString (SHA256.Sum256 []) =
  "e3b0c44298fc1c149afbf4c8996fb92427ae41e4649b934ca495991b7852b855"%string.
Proof. vm_compute. reflexivity. Qed.

Example sha256_abc :
  SHA256.EncodeToString (SHA256.Sum256 (SHA256.bytes_of_string "abc")) =
  "ba7816bf8f01cfea414140de5dae2223b00361a396177a9cb410ff61f20015ad"%string.
Proof. vm_compute. reflexivity. Qed.

Example format_1f_examples :
  Float64.format_1f 2.0 = "2.0"%string /\ Float64.format_1f 2.96 = "3.0"%string /\
  Float64.format_1f 0.25 = "0.2"%string /\ Float64.format_1f 10 = "10.0"%string /\
  Float64.format_1f (-0.5) = "-0.5"%string.
Proof. vm_compute. repeat split. Qed.

(** ** Students: the leecher flag and the score range *)

Module StudentFacts.

Import Student.
Local Open Scope Q_scope.

Ltac branches :=
  repeat (match goal with |- context [if ?b then _ else _] => destruct b end).

Lemma checkLeecherStatus_score s :
  ReputationScore (checkLeecherStatus s) = ReputationScore s.
Proof. unfold checkLeecherStatus. branches; reflexivity. Qed.

Lemma checkLeecherStatus_counters s :
  TotalUploads (checkLeecherStatus s) = TotalUploads s /\
  TotalDownloads (checkLeecherStatus s) = TotalDownloads s.
Proof. unfold checkLeecherStatus. branches; split; reflexivity. Qed.

(** Whatever the score was and whatever the delta is, the score that
    [UpdateReputation] stores lies between 0 and 10. *)
Lemma UpdateReputation_range (delta : Q) (s : t) :
  Spec.score_in_range (ReputationScore (UpdateReputation delta s)).
Proof.
  unfold UpdateReputation, Spec.score_in_range.
  rewrite checkLeecherStatus_score. simpl.
  destruct (Float64.ltb MaxReputation _) eqn:Hhi.
  - split; discriminate.
  - destruct (Float64.ltb _ 0) eqn:Hlo.
    + split; discriminate.
    + apply Float64Facts.ltb_ge in Hhi, Hlo. split; [exact Hlo|].
      eapply Qle_trans; [exact Hhi | discriminate].
Qed.

(** The flag after [checkLeecherStatus], by the two counters. *)
Lemma checkLeecherStatus_flag (s : t) :
  IsLeecher (checkLeecherStatus s) =
  if (0 <? TotalDownloads s)%Z && (0 <? TotalUploads s)%Z
  then (3 * TotalUploads s <? TotalDownloads s)%Z
  else if (5 <? TotalDownloads s)%Z && (TotalUploads s =? 0)%Z then true
  else IsLeecher s.
Proof.
  unfold checkLeecherStatus.
  destruct ((0 <? TotalDownloads s)%Z && (0 <? TotalUploads s)%Z) eqn:Hpos.
  - apply andb_true_iff in Hpos as [Hd Hu].
    apply Z.ltb_lt in Hd, Hu. simpl.
    apply eq_true_iff_eq.
    rewrite Float64Facts.ltb_lt, Z.ltb_lt.
    change 3.0 with (inject_Z 30 / inject_Z 10).
    rewrite Float64Facts.ratio_gt by lia. lia.
  - destruct ((5 <? TotalDownloads s)%Z && (TotalUploads s =? 0)%Z); reflexivity.
Qed.

End StudentFacts.

(** C9, as stated, fails: one download and no upload is more than three
    times the uploads, and the flag stays off. *)
Lemma leecher_small_counterexample :
  Student.TotalDownloads one_download = 1%Z /\
  Student.TotalUploads one_download = 0%Z /\
  (Student.TotalDownloads one_download > 3 * Student.TotalUploads one_download)%Z /\
  Student.IsLeecher one_download = false /\
  Student.IsLeecher (Student.checkLeecherStatus one_download) = false.
Proof. vm_compute. repeat split. Qed.

(** C9 (amended).  [checkLeecherStatus] leaves the flag as it is when both
    counters are zero, so a new peer is not flagged; it sets the flag when
    the uploads are positive and the downloads exceed three times the
    uploads, and when there is no upload and more than five downloads; with
    no upload and one to five downloads it leaves the flag as it is. *)
Theorem checkLeecherStatus_policy (s : Student.t) :
  (Student.TotalDownloads s = 0%Z -> Student.TotalUploads s = 0%Z ->
   Student.IsLeecher (Student.checkLeecherStatus s) = Student.IsLeecher s) /\
  (forall now id name ip port,
     Student.IsLeecher
       (Student.checkLeecherStatus (Student.NewStudent now id name ip port)) = false) /\
  ((0 < Student.TotalUploads s)%Z ->
   (3 * Student.TotalUploads s < Student.TotalDownloads s)%Z ->
   Student.IsLeecher (Student.checkLeecherStatus s) = true) /\
  (Student.TotalUploads s = 0%Z -> (5 < Student.TotalDownloads s)%Z ->
   Student.IsLeecher (Student.checkLeecherStatus s) = true) /\
  (Student.TotalUploads s = 0%Z -> (0 < Student.TotalDownloads s <= 5)%Z ->
   Student.IsLeecher (Student.checkLeecherStatus s) = Student.IsLeecher s).
Proof.
  rewrite StudentFacts.checkLeecherStatus_flag.
  split; [|split; [|split; [|split]]].
  - intros -> ->. reflexivity.
  - intros now id name ip port. reflexivity.
  - intros Hu Hd.
    replace (0 <? Student.TotalDownloads s)%Z with true by (symmetry; apply Z.ltb_lt; lia).
    replace (0 <? Student.TotalUploads s)%Z with true by (symmetry; apply Z.ltb_lt; lia).
    simpl. apply Z.ltb_lt. lia.
  - intros -> Hd.
    replace (5 <? Student.TotalDownloads s)%Z with true by (symmetry; apply Z.ltb_lt; lia).
    rewrite andb_false_r. reflexivity.
  - intros -> [Hd1 Hd2].
    replace (5 <? Student.TotalDownloads s)%Z with false by (symmetry; apply Z.ltb_ge; lia).
    rewrite andb_false_r. reflexivity.
Qed.

Lemma checkLeecherStatus_policy_witness :
  Student.TotalUploads six_downloads = 0%Z /\
  (5 < Student.TotalDownloads six_downloads)%Z /\
  Student.IsLeecher (Student.checkLeecherStatus six_downloads) = true.
Proof.
  assert (Hu : Student.TotalUploads six_downloads = 0%Z) by reflexivity.
  assert (Hd : (5 < Student.TotalDownloads six_downloads)%Z) by reflexivity.
  exact (conj Hu (conj Hd
    (proj1 (proj2 (proj2 (proj2 (checkLeecherStatus_policy six_downloads)))) Hu Hd))).
Defined.

(** ** The reputation service *)

Module ReputationFacts.

Import ReputationService.
Local Open Scope Q_scope.

Lemma applyEvent_ok (e : ReputationEvent) (rs : t) :
  Invariant.registry_ok (peerRegistry rs) ->
  Invariant.registry_ok (peerRegistry (applyEvent e rs)).
Proof.
  intros Hok. unfold applyEvent, PeerRegistry.Get.
  destruct (peerRegistry rs !! StudentID e) as [s|] eqn:Hs; [|exact Hok].
  simpl. apply map_Forall_insert_2; [|exact Hok].
  apply StudentFacts.UpdateReputation_range.
Qed.

Lemma apply_all_ok (events : list ReputationEvent) (rs : t) :
  Invariant.registry_ok (peerRegistry rs) ->
  Invariant.registry_ok (peerRegistry (apply_all events rs)).
Proof.
  revert rs. induction events as [|e events IH]; intros rs Hok; [exact Hok|].
  simpl. apply IH, applyEvent_ok, Hok.
Qed.

Lemma processEvents_ok (rs : t) :
  Invariant.registry_ok (peerRegistry rs) ->
  Invariant.registry_ok (peerRegistry (processEvents rs)).
Proof.
  intros Hok. unfold processEvents. apply (apply_all_ok (eventChan rs)). exact Hok.
Qed.

Lemma applyInactivityDecay_ok (now : Z) (rs : t) :
  Invariant.registry_ok (peerRegistry rs) ->
  Invariant.registry_ok (peerRegistry (applyInactivityDecay now rs)).
Proof.
  unfold applyInactivityDecay.
  generalize (PeerRegistry.GetAllPeers (peerRegistry rs)). intros peers.
  revert rs. induction peers as [|p peers IH]; intros rs Hok; [exact Hok|].
  simpl. apply IH. destruct (_ <? _)%Z; [apply applyEvent_ok|]; exact Hok.
Qed.

Lemma NewStudent_in_range now id name ip port :
  Spec.score_in_range (Student.ReputationScore (Student.NewStudent now id name ip port)).
Proof. split; discriminate. Qed.

Lemma Register_ok (s : Student.t) (pr : gmap string Student.t) :
  Spec.score_in_range (Student.ReputationScore s) ->
  Invariant.registry_ok pr -> Invariant.registry_ok (PeerRegistry.Register s pr).
Proof. intros Hs Hok. apply map_Forall_insert_2; assumption. Qed.

Lemma clamp_compat (x y : Q) : x == y -> Spec.clamp x == Spec.clamp y.
Proof.
  intros H. unfold Spec.clamp.
  rewrite (Float64Facts.ltb_compat x y 0 0 H (Qeq_refl _)).
  destruct (Float64.ltb y 0); [reflexivity|].
  rewrite (Float64Facts.ltb_compat 10 10 x y (Qeq_refl _) H).
  destruct (Float64.ltb 10 y); [reflexivity | exact H].
Qed.

Lemma clamp_range (q : Q) : 0 <= Spec.clamp q <= 10.
Proof.
  unfold Spec.clamp.
  destruct (Float64.ltb q 0) eqn:Hlo; [split; discriminate|].
  destruct (Float64.ltb 10 q) eqn:Hhi; [split; discriminate|].
  apply Float64Facts.ltb_ge in Hlo, Hhi. split; assumption.
Qed.

(** The two clamps of [CalculateReputation], one after the other, are the
    clamp to [0,10]. *)
Lemma clamp_twice (q : Q) :
  (let b := if Float64.ltb q MinReputation then MinReputation else q in
   if Float64.ltb MaxReputation b then MaxReputation else b) == Spec.clamp q.
Proof.
  cbv zeta. unfold Spec.clamp.
  rewrite (Float64Facts.ltb_compat q q MinReputation 0 (Qeq_refl _)) by reflexivity.
  destruct (Float64.ltb q 0); [reflexivity|].
  rewrite (Float64Facts.ltb_compat MaxReputation 10 q q) by reflexivity.
  destruct (Float64.ltb 10 q); reflexivity.
Qed.

(** The code's effective score is the specification's. *)
Lemma CalculateReputation_spec (s : Student.t) :
  CalculateReputation s == Spec.effective_score s.
Proof.
  unfold CalculateReputation, Spec.effective_score, Spec.adjustment.
  destruct (0 <? Student.TotalDownloads s)%Z eqn:Hd.
  - apply Z.ltb_lt in Hd.
    assert (Hlo : Float64.ltb (inject_Z (Student.TotalUploads s) /
                               inject_Z (Student.TotalDownloads s)) 0.5 =
                  (2 * Student.TotalUploads s <? Student.TotalDownloads s)%Z).
    { apply eq_true_iff_eq. rewrite Float64Facts.ltb_lt, Z.ltb_lt.
      change 0.5 with (inject_Z 5 / inject_Z 10).
      rewrite Float64Facts.ratio_lt by lia. lia. }
    assert (Hhi : Float64.ltb 1.5 (inject_Z (Student.TotalUploads s) /
                                   inject_Z (Student.TotalDownloads s)) =
                  (3 * Student.TotalDownloads s <? 2 * Student.TotalUploads s)%Z).
    { apply eq_true_iff_eq. rewrite Float64Facts.ltb_lt, Z.ltb_lt.
      change 1.5 with (inject_Z 15 / inject_Z 10).
      rewrite Float64Facts.ratio_gt by lia. lia. }
    rewrite Hlo, Hhi.
    destruct (2 * Student.TotalUploads s <? Student.TotalDownloads s)%Z;
      [|destruct (3 * Student.TotalDownloads s <? 2 * Student.TotalUploads s)%Z].
    + apply clamp_twice.
    + apply clamp_twice.
    + rewrite (clamp_twice (Student.ReputationScore s)).
      apply clamp_compat. symmetry. apply Qplus_0_r.
  - rewrite (clamp_twice (Student.ReputationScore s)).
    apply clamp_compat. symmetry. apply Qplus_0_r.
Qed.

Lemma CalculateReputation_range (s : Student.t) :
  0 <= CalculateReputation s <= 10.
Proof. rewrite CalculateReputation_spec. apply clamp_range. Qed.

End ReputationFacts.

(** C1.  When every registered peer has its score in [0,10], it is so again
    after each event of any sequence of reputation events applied by
    [applyEvent], whatever the kinds, targets and deltas of the events. *)
Theorem reputation_stays_in_range
    (rs : ReputationService.t) (events : list ReputationService.ReputationEvent) :
  (forall id s, ReputationService.peerRegistry rs !! id = Some s ->
                (0 <= Student.ReputationScore s <= 10)%Q) ->
  forall (k : nat) id s,
    ReputationService.peerRegistry
      (ReputationService.apply_all (take k events) rs) !! id = Some s ->
    (0 <= Student.ReputationScore s <= 10)%Q.
Proof.
  intros Hinit k id s Hs.
  exact (ReputationFacts.apply_all_ok (take k events) rs Hinit id s Hs).
Qed.

Lemma service_a_in_range id s :
  ReputationService.peerRegistry service_a !! id = Some s ->
  (0 <= Student.ReputationScore s <= 10)%Q.
Proof.
  unfold service_a, PeerRegistry.Register, PeerRegistry.NewPeerRegistry. simpl.
  intros H. apply lookup_insert_Some in H as [[_ <-]|[_ H]].
  - split; discriminate.
  - rewrite lookup_empty in H. discriminate.
Defined.

Lemma reputation_stays_in_range_witness :
  exists s,
    ReputationService.peerRegistry
      (ReputationService.apply_all (take 3 events_a) service_a) !! "peer-a"%string = Some s /\
    (0 <= Student.ReputationScore s <= 10)%Q.
Proof.
  eexists. split.
  - vm_compute. reflexivity.
  - apply (reputation_stays_in_range service_a events_a service_a_in_range 3 "peer-a"%string).
    vm_compute. reflexivity.
Defined.

(** C10.  A peer made by [NewStudent] has score 5.0, is online, is not a
    leecher and has both counters at zero; its effective score is 5.0, and
    once registered it passes both download gates at once. *)
Theorem new_student_defaults (now : Z) (id name ip : string) (port : Z)
    (pr : gmap string Student.t) :
  let s := Student.NewStudent now id name ip port in
  let rs := ReputationService.NewReputationService (PeerRegistry.Register s pr) in
  Student.ReputationScore s = 5.0%Q /\
  Student.IsOnline s = true /\
  Student.IsLeecher s = false /\
  Student.TotalUploads s = 0%Z /\
  Student.TotalDownloads s = 0%Z /\
  ReputationService.CalculateReputation s = 5.0%Q /\
  Student.CanDownload s = true /\
  ReputationService.CanDownload id rs = (true, "Allowed"%string).
Proof.
  intros s rs. repeat split.
  unfold ReputationService.CanDownload, PeerRegistry.Get, rs, PeerRegistry.Register.
  simpl. rewrite lookup_insert_eq. reflexivity.
Qed.

(** C2, as stated, fails on the reason: a peer whose effective score is 2.0
    is 1.0 short of the threshold, and the reason it is given shows the
    score and the threshold, with no 1 in it. *)
Lemma denial_reason_counterexample :
  exists q,
    ReputationService.GetReputation "peer-c" service_c = Some q /\
    (q == 2.0)%Q /\
    (ReputationService.DownloadThreshold - q == 1)%Q /\
    ReputationService.CanDownload "peer-c" service_c =
      (false, "Insufficient reputation (2.0 < 3.0)"%string) /\
    Spec.contains
      (Float64.format_1f (ReputationService.DownloadThreshold - q))
      (ReputationService.CanDownload "peer-c" service_c).2 = false /\
    Spec.contains "1" (ReputationService.CanDownload "peer-c" service_c).2 = false.
Proof. eexists. split; [vm_compute; reflexivity|]. vm_compute. repeat split. Qed.

(** C2 (amended).  For an unknown id [CanDownload] denies.  For a registered
    peer the effective score is the stored score moved by the ratio of
    uploads to downloads (below 1/2: minus 1.0; above 3/2: plus 0.5) and
    clamped to [0,10]; the peer is allowed exactly when that score is at
    least 3.0; and a denial carries the reason that shows the effective
    score and the threshold, each with one decimal, not their difference. *)
Theorem CanDownload_gate (rs : ReputationService.t) (id : string) :
  (ReputationService.peerRegistry rs !! id = None ->
   ReputationService.CanDownload id rs = (false, "Student not found"%string)) /\
  (forall s, ReputationService.peerRegistry rs !! id = Some s ->
     let eff := ReputationService.CalculateReputation s in
     (eff == Spec.effective_score s)%Q /\
     (0 <= eff <= 10)%Q /\
     ((ReputationService.CanDownload id rs).1 = true <-> (3.0 <= eff)%Q) /\
     ((3.0 <= eff)%Q ->
      ReputationService.CanDownload id rs = (true, "Allowed"%string)) /\
     ((eff < 3.0)%Q ->
      ReputationService.CanDownload id rs =
        (false,
         ("Insufficient reputation (" ++ Float64.format_1f eff ++ " < 3.0)")%string))).
Proof.
  unfold ReputationService.CanDownload, PeerRegistry.Get. split.
  - intros ->. reflexivity.
  - intros s ->. cbv zeta.
    split; [apply ReputationFacts.CalculateReputation_spec|].
    split; [apply ReputationFacts.CalculateReputation_range|].
    destruct (Float64.ltb (ReputationService.CalculateReputation s)
                ReputationService.DownloadThreshold) eqn:Hlt.
    + apply Float64Facts.ltb_lt in Hlt.
      split; [|split].
      * split; [discriminate|]. intros H. exfalso. exact (Qlt_not_le _ _ Hlt H).
      * intros H. exfalso. exact (Qlt_not_le _ _ Hlt H).
      * intros _. reflexivity.
    + apply Float64Facts.ltb_ge in Hlt.
      split; [|split].
      * split; [intros _; exact Hlt | reflexivity].
      * reflexivity.
      * intros H. exfalso. exact (Qlt_not_le _ _ H Hlt).
Qed.

Lemma service_c_lookup :
  exists s, ReputationService.peerRegistry service_c !! "peer-c"%string = Some s /\
            (ReputationService.CalculateReputation s < 3.0)%Q.
Proof. eexists. split; [vm_compute; reflexivity|]. vm_compute. reflexivity. Defined.

Lemma CanDownload_gate_witness :
  ReputationService.CanDownload "nobody" service_c = (false, "Student not found"%string) /\
  ReputationService.CanDownload "peer-c" service_c =
    (false, "Insufficient reputation (2.0 < 3.0)"%string).
Proof.
  split.
  - apply (proj1 (CanDownload_gate service_c "nobody")). vm_compute. reflexivity.
  - destruct service_c_lookup as [s [Hs Hlt]].
    rewrite (proj2 (proj2 (proj2 (proj2
               (proj2 (CanDownload_gate service_c "peer-c") s Hs)))) Hlt).
    vm_compute in Hs. injection Hs as <-. vm_compute. reflexivity.
Defined.

(** At the threshold: stored scores 2.9, 3.0 and 3.1 with no
    download on record. *)
Example CanDownload_boundary :
  ReputationService.CanDownload "peer-d" (service_with_score 2.9) =
    (false, "Insufficient reputation (2.9 < 3.0)"%string) /\
  ReputationService.CanDownload "peer-d" (service_with_score 3.0) =
    (true, "Allowed"%string) /\
  ReputationService.CanDownload "peer-d" (service_with_score 3.1) =
    (true, "Allowed"%string).
Proof. vm_compute. repeat split. Qed.

(** ** Academic files and the file index *)

Module FileFacts.

Import AcademicFile.

Lemma has_location_In (p : string) (l : list string) :
  has_location p l = true <-> In p l.
Proof.
  induction l as [|x l IH]; simpl.
  - split; [discriminate | contradiction].
  - destruct (String.eqb x p) eqn:E.
    + apply String.eqb_eq in E. split; [left; exact E | reflexivity].
    + apply String.eqb_neq in E. rewrite IH. split; [right; assumption|].
      intros [H|H]; [contradiction | exact H].
Qed.

(** [AddPeerLocation] writes nothing but the list. *)
Lemma AddPeerLocation_IsAvailable (p : string) (f : t) :
  IsAvailable (AddPeerLocation p f) = IsAvailable f.
Proof.
  unfold AddPeerLocation. destruct (has_location p (PeerLocations f)); reflexivity.
Qed.

Lemma AddPeerLocation_In (p : string) (f : t) :
  In p (PeerLocations (AddPeerLocation p f)).
Proof.
  unfold AddPeerLocation. destruct (has_location p (PeerLocations f)) eqn:E.
  - apply has_location_In, E.
  - simpl. apply in_or_app. right. left. reflexivity.
Qed.

Lemma AddPeerLocation_idempotent (p : string) (f : t) :
  AddPeerLocation p (AddPeerLocation p f) = AddPeerLocation p f.
Proof.
  unfold AddPeerLocation at 1.
  destruct (has_location p (PeerLocations (AddPeerLocation p f))) eqn:E;
    [reflexivity|].
  pose proof (AddPeerLocation_In p f) as H.
  apply has_location_In in H. congruence.
Qed.

(** [RemovePeerLocation] leaves the flag equal to "the list is not empty". *)
Lemma RemovePeerLocation_available (p : string) (f : t) :
  IsAvailable (RemovePeerLocation p f) = true <->
  PeerLocations (RemovePeerLocation p f) <> [].
Proof.
  unfold RemovePeerLocation. simpl.
  destruct (List.filter _ (PeerLocations f)); simpl.
  - split; [discriminate | congruence].
  - split; [discriminate | reflexivity].
Qed.

Lemma RemovePeerLocation_not_In (p : string) (f : t) :
  ~ In p (PeerLocations (RemovePeerLocation p f)).
Proof.
  unfold RemovePeerLocation. simpl. intros H.
  apply filter_In in H as [_ H]. apply negb_true_iff, String.eqb_neq in H.
  congruence.
Qed.

Lemma filter_twice {A} (g : A -> bool) (l : list A) :
  List.filter g (List.filter g l) = List.filter g l.
Proof.
  induction l as [|x l IH]; simpl; [reflexivity|].
  destruct (g x) eqn:E; simpl; [rewrite E, IH|]; auto.
Qed.

Lemma RemovePeerLocation_idempotent (p : string) (f : t) :
  RemovePeerLocation p (RemovePeerLocation p f) = RemovePeerLocation p f.
Proof.
  unfold RemovePeerLocation. simpl. rewrite filter_twice. reflexivity.
Qed.

Import FileIndex.

(** What the body of [containsIgnoreCase] decides. *)
Lemma containsIgnoreCase_lengths (s substr : string) :
  containsIgnoreCase s substr = true <->
  (0 < String.length s)%nat /\ (0 < String.length substr)%nat /\
  (s = substr \/ (String.length substr < String.length s)%nat).
Proof.
  unfold containsIgnoreCase, len.
  rewrite !andb_true_iff, orb_true_iff, !Z.ltb_lt, String.eqb_eq.
  intuition lia.
Qed.

(** [Search] returns the files of the index that [matches] accepts. *)
Lemma Search_elem (query : string) (fi : gmap string AcademicFile.t)
    (f : AcademicFile.t) :
  In f (Search query fi) <->
  (exists cid, fi !! cid = Some f) /\ matches query f = true.
Proof.
  unfold Search, GetAllFiles. rewrite filter_In, <- list_elem_of_In, list_elem_of_fmap.
  split.
  - intros [[[cid f'] [-> H]] Hm]. apply elem_of_map_to_list in H.
    split; [exists cid; exact H | exact Hm].
  - intros [[cid H] Hm]. split; [|exact Hm].
    exists (cid, f). split; [reflexivity|]. apply elem_of_map_to_list, H.
Qed.

End FileFacts.

(** C4, at two failing inputs.  The index holds one file, named notes.pdf,
    with no description and no subject.  A query that occurs in none of the
    three fields finds it, and its own name in capitals does not. *)
Theorem search_compares_lengths :
  FileIndex.Search "xyz" index_notes = [notes_abc] /\
  Spec.search_matches "xyz" notes_abc = false /\
  FileIndex.Search "NOTES.PDF" index_notes = [] /\
  Spec.search_matches "NOTES.PDF" notes_abc = true.
Proof. vm_compute. repeat split. Qed.

(** C5, at the failing input.  The only location of a file is removed and
    another peer is added: the list is not empty and the file is still
    marked unavailable. *)
Theorem availability_not_restored :
  let f := AcademicFile.AddPeerLocation "peer-b"
             (AcademicFile.RemovePeerLocation "peer-a" notes_abc) in
  AcademicFile.PeerLocations notes_abc = ["peer-a"%string] /\
  AcademicFile.IsAvailable notes_abc = true /\
  AcademicFile.PeerLocations (AcademicFile.RemovePeerLocation "peer-a" notes_abc) = [] /\
  AcademicFile.IsAvailable (AcademicFile.RemovePeerLocation "peer-a" notes_abc) = false /\
  AcademicFile.PeerLocations f = ["peer-b"%string] /\
  AcademicFile.IsAvailable f = false.
Proof. vm_compute. repeat split. Qed.

(** C6, as stated, fails: after peer-a and then peer-b upload the same
    three bytes, the one record under their CID lists peer-b alone. *)
Lemma duplicate_upload_counterexample :
  exists f,
    FileIndex.Get (AcademicFile.GenerateCID (SHA256.bytes_of_string "abc"))
      index_two_uploads = Some f /\
    FileIndex.Count index_two_uploads = 1%Z /\
    AcademicFile.PeerLocations f = ["peer-b"%string] /\
    AcademicFile.has_location "peer-a" (AcademicFile.PeerLocations f) = false.
Proof. eexists. split; [vm_compute; reflexivity|]. vm_compute. repeat split. Qed.

(** C6 (amended).  The CID is a function of the content alone, so two
    uploads of the same bytes have the same CID; after both are added, the
    index holds under that CID the record of the second upload, whose only
    location is the second uploader, and no record more than after the
    first. *)
Theorem duplicate_upload_overwrites
    (now1 now2 : Z) (name1 name2 owner1 owner2 : string) (size1 size2 : Z)
    (type1 type2 : string) (content : list byte) (fi : gmap string AcademicFile.t) :
  let f1 := AcademicFile.NewAcademicFile now1 name1 owner1 size1 type1 content in
  let f2 := AcademicFile.NewAcademicFile now2 name2 owner2 size2 type2 content in
  let fi' := FileIndex.Add f2 (FileIndex.Add f1 fi) in
  AcademicFile.CID f1 = AcademicFile.GenerateCID content /\
  AcademicFile.CID f2 = AcademicFile.CID f1 /\
  FileIndex.Get (AcademicFile.CID f1) fi' = Some f2 /\
  AcademicFile.PeerLocations f2 = [owner2] /\
  (forall cid, cid <> AcademicFile.CID f1 -> FileIndex.Get cid fi' = FileIndex.Get cid fi) /\
  FileIndex.Count fi' = FileIndex.Count (FileIndex.Add f1 fi).
Proof.
  intros f1 f2 fi'. unfold fi', FileIndex.Add, FileIndex.Get, FileIndex.Count.
  change (AcademicFile.CID f2) with (AcademicFile.CID f1).
  split; [reflexivity|]. split; [reflexivity|].
  split; [apply lookup_insert_eq|]. split; [reflexivity|]. split.
  - intros cid Hne. rewrite !lookup_insert_ne by congruence. reflexivity.
  - rewrite insert_insert_eq. f_equal. rewrite !map_size_insert. reflexivity.
Qed.

Lemma duplicate_upload_overwrites_witness :
  "other"%string <> AcademicFile.CID notes_abc /\
  FileIndex.Get "other" index_two_uploads = FileIndex.Get "other" FileIndex.NewFileIndex.
Proof.
  assert (Hne : "other"%string <> AcademicFile.CID notes_abc) by (vm_compute; discriminate).
  split; [exact Hne|].
  exact (proj1 (proj2 (proj2 (proj2 (proj2
    (duplicate_upload_overwrites 0 5 "notes.pdf" "copy.pdf" "peer-a" "peer-b" 3 3
       ".pdf" ".pdf" (SHA256.bytes_of_string "abc") FileIndex.NewFileIndex)))))
    "other"%string Hne).
Defined.

(** ** The throttler *)

Module ThrottlerFacts.

Import Throttler.

Lemma ceil_div_spec (b size : Z) :
  0 < size -> 0 < b ->
  (Spec.ceil_div b size - 1) * size < b <= Spec.ceil_div b size * size.
Proof.
  intros Hs Hb. unfold Spec.ceil_div.
  pose proof (Z.div_mod (b + size - 1) size ltac:(lia)) as Hdm.
  pose proof (Z.mod_pos_bound (b + size - 1) size Hs) as Hm.
  nia.
Qed.

Lemma tokenSize_of_tier (tier : BandwidthTier) :
  0 < Int64.quot (GetBandwidth tier) TokenBucketSize <= Int64.max_int.
Proof. destruct tier; vm_compute; split; congruence. Qed.

Lemma NewThrottler_ok (id : string) (reputation : Q) :
  Invariant.throttler_ok (NewThrottler id reputation).
Proof.
  unfold Invariant.throttler_ok, NewThrottler. simpl.
  split; [apply tokenSize_of_tier|]. vm_compute. repeat split; congruence.
Qed.

Lemma refill_ok (th : t) :
  Invariant.throttler_ok th -> Invariant.throttler_ok (refill th).
Proof.
  intros Hok. unfold refill.
  destruct (negb (refilling th)); [exact Hok|].
  destruct (tokens th <? maxTokens th) eqn:Hlt; [|exact Hok].
  apply Z.ltb_lt in Hlt.
  destruct Hok as [Hs [[Ht1 Ht2] Hm]].
  rewrite Int64Facts.add_small by (int64_range; lia).
  unfold Invariant.throttler_ok. simpl.
  destruct (maxTokens th <? tokens th + 1) eqn:E;
    [apply Z.ltb_lt in E | apply Z.ltb_ge in E]; repeat split; lia.
Qed.

Lemma UpdateReputation_ok (q : Q) (th : t) :
  Invariant.throttler_ok th -> Invariant.throttler_ok (UpdateReputation q th).
Proof.
  intros Hok. unfold UpdateReputation.
  destruct (negb _); [|exact Hok].
  destruct Hok as [_ Hrest]. split; [apply tokenSize_of_tier | exact Hrest].
Qed.

Lemma tokensNeeded_exact (b : Z) (th : t) :
  Invariant.throttler_ok th -> 0 < b <= Int64.max_int - tokenSize th + 1 ->
  Int64.quot (Int64.sub (Int64.add b (tokenSize th)) 1) (tokenSize th) =
  Spec.ceil_div b (tokenSize th).
Proof.
  intros [[Hs1 Hs2] _] [Hb1 Hb2]. int64_range.
  unfold Int64.add, Int64.sub. rewrite Int64Facts.wrap64_sub_l.
  rewrite Int64Facts.wrap64_id by (int64_range; lia).
  unfold Int64.quot, Spec.ceil_div. rewrite Z.quot_div_nonneg by lia.
  apply Int64Facts.wrap64_id. int64_range.
  pose proof (Z.div_pos (b + tokenSize th - 1) (tokenSize th) ltac:(lia) ltac:(lia)).
  pose proof (Z.div_le_upper_bound (b + tokenSize th - 1) (tokenSize th) (2 ^ 63 - 1)
                ltac:(lia) ltac:(nia)).
  lia.
Qed.

(** As long as [bytes + tokenSize - 1] does not overflow, [Acquire] charges
    the rounded-up token count for a full grant, and with fewer tokens, but
    at least one, grants at once what they cover, which is less than was
    asked; the throttler stays well formed. *)
Lemma Acquire_without_overflow (ticks : list nat) (b : Z) (th : t) :
  Invariant.throttler_ok th -> 0 < b <= Int64.max_int - tokenSize th + 1 ->
  let needed := Spec.ceil_div b (tokenSize th) in
  (needed <= tokens th ->
   Acquire ticks b th = Returned b (set_tokens (tokens th - needed) th) /\
   Invariant.throttler_ok (set_tokens (tokens th - needed) th)) /\
  (0 < tokens th < needed ->
   Acquire ticks b th = Returned (tokens th * tokenSize th) (set_tokens 0 th) /\
   tokens th * tokenSize th < b /\
   Invariant.throttler_ok (set_tokens 0 th)).
Proof.
  intros Hok Hb needed.
  pose proof (tokensNeeded_exact b th Hok Hb) as Hn. fold needed in Hn.
  destruct Hok as [[Hs1 Hs2] [[Ht1 Ht2] Hm]].
  pose proof (ceil_div_spec b (tokenSize th) Hs1 (proj1 Hb)) as [Hc1 Hc2].
  fold needed in Hc1, Hc2.
  assert (Hn0 : 0 < needed) by nia.
  unfold Acquire.
  replace (tokenSize th =? 0) with false by (symmetry; apply Z.eqb_neq; lia).
  rewrite Hn. split.
  - intros Hle. split.
    + destruct ticks; simpl; unfold try_acquire;
        (replace (needed <=? tokens th) with true by (symmetry; apply Z.leb_le; lia));
        (rewrite Int64Facts.sub_small by (int64_range; lia));
        reflexivity.
    + unfold Invariant.throttler_ok. simpl. lia.
  - intros [Hpos Hlt].
    assert (Hsmall : tokens th * tokenSize th < b) by nia.
    split; [|split; [exact Hsmall|]].
    + destruct ticks; simpl; unfold try_acquire;
        (replace (needed <=? tokens th) with false by (symmetry; apply Z.leb_gt; lia));
        (replace (0 <? tokens th) with true by (symmetry; apply Z.ltb_lt; lia));
        (rewrite Int64Facts.mul_small by (int64_range; nia));
        reflexivity.
    + unfold Invariant.throttler_ok. simpl. lia.
Qed.

(** With no token left, [Acquire] goes to sleep. *)
Lemma Acquire_waits (b : Z) (th : t) :
  Invariant.throttler_ok th -> 0 < b <= Int64.max_int - tokenSize th + 1 ->
  tokens th = 0 ->
  Acquire [] b th = Waiting th.
Proof.
  intros Hok Hb Hzero.
  pose proof (tokensNeeded_exact b th Hok Hb) as Hn.
  destruct Hok as [[Hs1 Hs2] _].
  pose proof (ceil_div_spec b (tokenSize th) Hs1 (proj1 Hb)) as [Hc1 Hc2].
  unfold Acquire.
  replace (tokenSize th =? 0) with false by (symmetry; apply Z.eqb_neq; lia).
  rewrite Hn. simpl. unfold try_acquire. rewrite Hzero.
  replace (Spec.ceil_div b (tokenSize th) <=? 0) with false
    by (symmetry; apply Z.leb_gt; nia).
  reflexivity.
Qed.

End ThrottlerFacts.

(** C7, at the failing input.  A new throttler of the normal tier holds 10
    tokens of 51200 bytes.  A request for the largest [int64] costs far more
    tokens than that; the sum [bytes + tokenSize - 1] wraps, the count comes
    out negative, and the call grants the whole request and raises the
    balance above the bucket size. *)
Theorem Acquire_overflow :
  Throttler.tokens throttler_normal = 10 /\
  Throttler.maxTokens throttler_normal = 10 /\
  Throttler.tokenSize throttler_normal = 51200 /\
  Spec.ceil_div Int64.max_int 51200 = 180143985094820 /\
  Throttler.Acquire [] Int64.max_int throttler_normal =
    Throttler.Returned Int64.max_int
      (Throttler.set_tokens (10 + 180143985094818) throttler_normal).
Proof. vm_compute. repeat split. Qed.

(** ** The transfer manager *)

Module TransferFacts.

Import TransferManager.

Lemma status_eqb_eq (a b : TransferStatus) : status_eqb a b = true <-> a = b.
Proof. destruct a, b; simpl; split; congruence. Qed.

Lemma update_lookup (tid : string) (f : Transfer -> Transfer) (tm : t) :
  transfers (update tid f tm) !! tid = f <$> transfers tm !! tid.
Proof. unfold update. simpl. apply lookup_alter_eq. Qed.

Lemma update_lookup_ne (tid id : string) (f : Transfer -> Transfer) (tm : t) :
  tid <> id -> transfers (update tid f tm) !! id = transfers tm !! id.
Proof. intros H. unfold update. simpl. apply lookup_alter_ne, H. Qed.

Lemma fail_lookup (tid msg : string) (tm : t) :
  transfers (fail tid msg tm) !! tid =
  (fun x => set_Error msg (set_Status TransferFailed x)) <$> transfers tm !! tid.
Proof. apply update_lookup. Qed.

(** A send goes through exactly when the buffer has room. *)
Lemma push_progress_room (u : ProgressUpdate.t) (tm : t) :
  (length (progressChan tm) < ProgressCapacity)%nat ->
  push_progress u tm =
  Some (mk (transfers tm) (progressChan tm ++ [u]) (totalUploads tm) (totalDownloads tm)
          (bytesUploaded tm) (bytesDownloaded tm)).
Proof.
  intros H. unfold push_progress.
  replace (length (progressChan tm) <? ProgressCapacity)%nat with true
    by (symmetry; apply Nat.ltb_lt, H).
  reflexivity.
Qed.

Lemma push_progress_full (u : ProgressUpdate.t) (tm : t) :
  (ProgressCapacity <= length (progressChan tm))%nat -> push_progress u tm = None.
Proof.
  intros H. unfold push_progress.
  replace (length (progressChan tm) <? ProgressCapacity)%nat with false
    by (symmetry; apply Nat.ltb_ge, H).
  reflexivity.
Qed.

Section ReceiveLoop.

Context (env : RecvEnv) (savePath : string) (fileSize : Z) (tid : string).

Lemma receive_pass (c : list byte) (reads : list read_result) (k : nat)
    (received : Z) (w : World) :
  received < fileSize -> write_err env k = None ->
  0 <= received -> received + Z.of_nat (length c) <= Int64.max_int ->
  receive_loop env savePath fileSize tid (mkRead c None :: reads) k received w =
  match push_progress
          (ProgressUpdate.mk tid (received + Z.of_nat (length c)) fileSize
             (inject_Z (received + Z.of_nat (length c)) / inject_Z fileSize * 100) 0)
          (manager (receive_chunk savePath fileSize tid c (received + Z.of_nat (length c)) w)) with
  | Some tm =>
      receive_loop env savePath fileSize tid reads (S k)
        (received + Z.of_nat (length c))
        (mkWorld tm (disk (receive_chunk savePath fileSize tid c (received + Z.of_nat (length c)) w)) (wire (receive_chunk savePath fileSize tid c (received + Z.of_nat (length c)) w)))
  | None => (receive_chunk savePath fileSize tid c (received + Z.of_nat (length c)) w, Parked)
  end.
Proof.
  intros Hlt Hw H0 Hmax. cbn [receive_loop rd_err rd_data].
  replace (received <? fileSize) with true by (symmetry; apply Z.ltb_lt, Hlt).
  cbn [negb]. rewrite Hw.
  rewrite Int64Facts.add_small by (int64_range; lia).
  reflexivity.
Qed.

(** The loop on a connection that delivers the chunks and then stops, onto
    a disk that takes every write, while the progress channel has room for
    one update per chunk: it returns without error, and the file holds what
    it held before followed by the chunks. *)
Lemma receive_loop_receives (chunks : list (list byte)) (tail : list read_result) :
  forall (k : nat) (received : Z) (w : World) (x : Transfer) (c0 : list byte),
    transfers (manager w) !! tid = Some x ->
    disk w !! savePath = Some c0 ->
    (forall j, (j < length chunks)%nat -> write_err env (k + j) = None) ->
    (forall j, (j < length chunks)%nat ->
       received + Z.of_nat (length (concat (take j chunks))) < fileSize) ->
    fileSize <= received + Z.of_nat (length (concat chunks)) \/ Invariant.file_ends tail ->
    0 <= received -> received + Z.of_nat (length (concat chunks)) <= Int64.max_int ->
    (length (progressChan (manager w)) + length chunks <= ProgressCapacity)%nat ->
    exists (w1 : World) (x1 : Transfer),
      receive_loop env savePath fileSize tid
        (map (fun c => mkRead c None) chunks ++ tail) k received w = (w1, Returned None) /\
      disk w1 !! savePath = Some (c0 ++ concat chunks) /\
      transfers (manager w1) !! tid = Some x1 /\
      Status x1 = Status x /\
      wire w1 = wire w.
Proof.
  induction chunks as [|c chunks IH];
    intros k received w x c0 Hin Hdisk Hw Hless Hstop H0 Hmax Hroom.
  - exists w, x. cbn [map app concat]. rewrite app_nil_r.
    split; [|repeat split; assumption].
    destruct (received <? fileSize) eqn:E.
    + apply Z.ltb_lt in E. cbn [concat length] in Hstop.
      destruct Hstop as [Hge | [-> | (d & rest & ->)]]; [lia| |].
      * cbn [receive_loop]. destruct (negb _); reflexivity.
      * cbn [receive_loop rd_err]. destruct (negb _); reflexivity.
    + destruct tail; cbn [receive_loop]; rewrite E; reflexivity.
  - cbn [map app]. cbn [concat] in *. rewrite length_app in Hmax, Hstop.
    assert (Hlt : received < fileSize).
    { specialize (Hless 0%nat ltac:(simpl; lia)). simpl in Hless. lia. }
    assert (Hk : write_err env k = None).
    { rewrite <- (Nat.add_0_r k). apply Hw. simpl. lia. }
    rewrite receive_pass by (try assumption; lia).
    cbn [length] in Hroom.
    rewrite push_progress_room
      by (cbn [receive_chunk on_manager manager update set_transfers progressChan
               append_file set_disk]; lia).
    set (w' := mkWorld _ _ _).
    destruct (IH (S k) (received + Z.of_nat (length c)) w'
                (set_Progress
                   (inject_Z (received + Z.of_nat (length c)) / inject_Z fileSize * 100)
                   (set_SentBytes (received + Z.of_nat (length c)) x))
                (c0 ++ c))
      as (w1 & x1 & Hloop & Hd1 & Hin1 & Hst1 & Hwire1).
    + subst w'. cbn [manager transfers receive_chunk on_manager update set_transfers].
      rewrite lookup_alter_eq.
      cbn [append_file set_disk manager]. rewrite Hin. reflexivity.
    + subst w'. cbn [disk receive_chunk on_manager append_file set_disk].
      rewrite lookup_alter_eq, Hdisk. reflexivity.
    + intros j Hj. replace (S k + j)%nat with (k + S j)%nat by lia.
      apply Hw. simpl. lia.
    + intros j Hj. specialize (Hless (S j) ltac:(simpl; lia)).
      cbn [take concat] in Hless. rewrite length_app in Hless. lia.
    + destruct Hstop as [Hge | Hends]; [left; lia | right; exact Hends].
    + lia.
    + lia.
    + subst w'. cbn [manager progressChan receive_chunk on_manager update set_transfers
                       append_file set_disk].
      rewrite length_app. cbn [length]. lia.
    + exists w1, x1. split; [exact Hloop|].
      split; [rewrite Hd1, <- app_assoc; reflexivity|].
      split; [exact Hin1|]. split; [exact Hst1|].
      rewrite Hwire1. reflexivity.
Qed.

(** When the channel has room for fewer updates than there are chunks, the
    loop waits for ever in the send that finds it full: the chunk of that
    pass is in the file, the status is as it was, and the call has not
    returned. *)
Lemma receive_loop_parks (chunks : list (list byte)) (tail : list read_result) :
  forall (k : nat) (received : Z) (w : World) (x : Transfer) (c0 : list byte),
    transfers (manager w) !! tid = Some x ->
    disk w !! savePath = Some c0 ->
    (forall j, (j < length chunks)%nat -> write_err env (k + j) = None) ->
    (forall j, (j < length chunks)%nat ->
       received + Z.of_nat (length (concat (take j chunks))) < fileSize) ->
    0 <= received -> received + Z.of_nat (length (concat chunks)) <= Int64.max_int ->
    let room := (ProgressCapacity - length (progressChan (manager w)))%nat in
    (room < length chunks)%nat ->
    exists (w1 : World) (x1 : Transfer),
      receive_loop env savePath fileSize tid
        (map (fun c => mkRead c None) chunks ++ tail) k received w = (w1, Parked) /\
      disk w1 !! savePath = Some (c0 ++ concat (take (S room) chunks)) /\
      transfers (manager w1) !! tid = Some x1 /\
      Status x1 = Status x.
Proof.
  induction chunks as [|c chunks IH];
    intros k received w x c0 Hin Hdisk Hw Hless H0 Hmax room Hroom;
    [simpl in Hroom; lia|].
  cbn [map app]. cbn [concat] in Hmax. rewrite length_app in Hmax.
  assert (Hlt : received < fileSize).
  { specialize (Hless 0%nat ltac:(simpl; lia)). simpl in Hless. lia. }
  assert (Hk : write_err env k = None).
  { rewrite <- (Nat.add_0_r k). apply Hw. simpl. lia. }
  rewrite receive_pass by (try assumption; lia).
  assert (Hin' : transfers (manager (receive_chunk savePath fileSize tid c (received + Z.of_nat (length c)) w)) !! tid =
                 Some (set_Progress
                         (inject_Z (received + Z.of_nat (length c)) / inject_Z fileSize * 100)
                         (set_SentBytes (received + Z.of_nat (length c)) x))).
  { cbn [manager transfers receive_chunk on_manager update set_transfers].
    rewrite lookup_alter_eq.
    cbn [append_file set_disk manager]. rewrite Hin. reflexivity. }
  assert (Hdisk' : disk (receive_chunk savePath fileSize tid c (received + Z.of_nat (length c)) w) !! savePath = Some (c0 ++ c)).
  { cbn [disk receive_chunk on_manager append_file set_disk].
    rewrite lookup_alter_eq, Hdisk. reflexivity. }
  destruct (le_lt_dec ProgressCapacity (length (progressChan (manager w)))) as [Hfull|Hfree].
  - rewrite push_progress_full
      by (cbn [receive_chunk on_manager manager update set_transfers progressChan
               append_file set_disk]; lia).
    eexists _, _. split; [reflexivity|].
    replace room with 0%nat by (unfold room; lia).
    cbn [take concat]. rewrite app_nil_r.
    split; [exact Hdisk'|]. split; [exact Hin' | reflexivity].
  - rewrite push_progress_room
      by (cbn [receive_chunk on_manager manager update set_transfers progressChan
               append_file set_disk]; lia).
    set (w' := mkWorld _ _ _).
    destruct (IH (S k) (received + Z.of_nat (length c)) w'
                (set_Progress
                   (inject_Z (received + Z.of_nat (length c)) / inject_Z fileSize * 100)
                   (set_SentBytes (received + Z.of_nat (length c)) x))
                (c0 ++ c))
      as (w1 & x1 & Hloop & Hd1 & Hin1 & Hst1).
    + subst w'. cbn [manager]. exact Hin'.
    + subst w'. cbn [disk]. exact Hdisk'.
    + intros j Hj. replace (S k + j)%nat with (k + S j)%nat by lia.
      apply Hw. simpl. lia.
    + intros j Hj. specialize (Hless (S j) ltac:(simpl; lia)).
      cbn [take concat] in Hless. rewrite length_app in Hless. lia.
    + lia.
    + lia.
    + subst w'. cbn [manager progressChan receive_chunk on_manager update set_transfers
                       append_file set_disk].
      rewrite length_app. cbn [length]. unfold room in Hroom. cbn [length] in Hroom. lia.
    + exists w1, x1. split; [exact Hloop|].
      assert (Hr : room =
                   S (ProgressCapacity - length (progressChan (manager w')))).
      { subst w'. cbn [manager progressChan receive_chunk on_manager update
                         set_transfers append_file set_disk].
        rewrite length_app. cbn [length]. unfold room. lia. }
      rewrite Hr. cbn [take concat].
      split; [rewrite Hd1, <- app_assoc; reflexivity|].
      split; [exact Hin1 | exact Hst1].
Qed.

End ReceiveLoop.

(** A download of more chunks than the progress channel has room for does
    not reach the check: [receiveFile] waits in the send, the file stays on
    the disk with the chunks written so far, and the status is as it was. *)
Lemma receiveFile_parks
    (now : Z) (env : RecvEnv) (savePath : string) (fileSize : Z)
    (checksum tid : string) (w : World) (x : Transfer)
    (chunks : list (list byte)) (tail : list read_result) :
  transfers (manager w) !! tid = Some x ->
  create_err env = None ->
  conn_reads env = (map (fun c => mkRead c None) chunks ++ tail)%list ->
  (forall k, (k < length chunks)%nat -> write_err env k = None) ->
  (forall j, (j < length chunks)%nat ->
     Z.of_nat (length (concat (take j chunks))) < fileSize) ->
  Z.of_nat (length (concat chunks)) <= Int64.max_int ->
  let room := (ProgressCapacity - length (progressChan (manager w)))%nat in
  (room < length chunks)%nat ->
  let res := receiveFile now env savePath fileSize checksum tid w in
  res.2 = Parked /\
  disk res.1 !! savePath = Some (concat (take (S room) chunks)) /\
  exists x1, transfers (manager res.1) !! tid = Some x1 /\ Status x1 = Status x.
Proof.
  intros Hin Hcreate Hreads Hw Hless Hmax room Hroom. cbv zeta.
  destruct (receive_loop_parks env savePath fileSize tid chunks tail 0 0
              (set_disk (<[savePath := []]> (disk w)) w) x [])
    as (w1 & x1 & Hloop & Hd1 & Hin1 & Hst1); try assumption; try lia.
  - cbn [set_disk disk]. apply lookup_insert_eq.
  - unfold receiveFile. rewrite Hcreate, Hreads, Hloop. cbn [fst snd].
    split; [reflexivity|]. split; [exact Hd1|]. exists x1. split; assumption.
Qed.

(** [completeTransfer], the deferred call of [Download], turns only an
    active transfer into a completed one. *)
Lemma completeTransfer_status (now : Z) (id : string) (tm : t) (x : Transfer) :
  transfers tm !! id = Some x ->
  Status <$> transfers (completeTransfer now id tm) !! id =
  Some (if status_eqb (Status x) TransferActive then TransferCompleted else Status x).
Proof.
  intros H. unfold completeTransfer. rewrite H. simpl. rewrite lookup_insert_eq.
  destruct (status_eqb (Status x) TransferActive); reflexivity.
Qed.

End TransferFacts.



(** A download in 101 reads: every byte is in the file, and the call waits
    in the send of the 101st progress update, before the check; the
    transfer stays active. *)
Example receiveFile_long_waits :
  let res := TransferManager.receiveFile 20 env_long "/tmp/long.txt" 101
               (SHA256.EncodeToString (SHA256.Sum256 (repeat x61 101))) "t-3"
               world_long in
  res.2 = TransferManager.Parked /\
  TransferManager.disk res.1 !! "/tmp/long.txt"%string = Some (repeat x61 101) /\
  length (TransferManager.progressChan (TransferManager.manager res.1)) = 100%nat /\
  TransferManager.Status <$>
    TransferManager.transfers (TransferManager.manager res.1) !! "t-3"%string =
    Some TransferManager.TransferActive.
Proof. vm_compute. repeat split. Qed.

Example receiveFile_intact :
  let res := TransferManager.receiveFile 20 env_intact "/tmp/notes.pdf" 3
               (AcademicFile.Checksum notes_abc) "t-1" world_abc in
  res.2 = TransferManager.Returned None /\
  TransferManager.disk res.1 !! "/tmp/notes.pdf"%string =
    Some (SHA256.bytes_of_string "abc") /\
  TransferManager.Status <$>
    TransferManager.transfers (TransferManager.manager res.1) !! "t-1"%string =
    Some TransferManager.TransferCompleted /\
  TransferManager.SentBytes <$>
    TransferManager.transfers (TransferManager.manager res.1) !! "t-1"%string = Some 3.
Proof. vm_compute. repeat split. Qed.

Module StreamFacts.

Import TransferManager.

(** A pass that reads data and sends it appends the data to the connection,
    whatever the record of the transfer says, and goes on when its progress
    update finds room in the channel; when the channel is full it waits in
    the send, the data already on the connection. *)
Lemma stream_iter_sends (tid : string) (r : read_result) (w : World) :
  rd_err r = None ->
  wire (stream_iter tid r None w).1 = wire w ++ rd_data r /\
  (stream_iter tid r None w).2 =
    match transfers (manager w) !! tid with
    | Some _ =>
        if (length (progressChan (manager w)) <? ProgressCapacity)%nat
        then Continue else Park
    | None => Continue
    end.
Proof.
  intros Hr. unfold stream_iter. rewrite Hr.
  cbn [send_chunk on_manager manager set_wire update set_transfers transfers wire].
  rewrite lookup_alter_eq.
  destruct (transfers (manager w) !! tid); cbn [fmap option_fmap option_map];
    [|split; reflexivity].
  unfold push_progress, update, set_transfers. cbn [progressChan].
  destruct (length (progressChan (manager w)) <? ProgressCapacity)%nat;
    split; reflexivity.
Qed.

(** The loop taken one pass at a time, with no other call in between, ends
    as [stream_loop] does. *)
Lemma steps_stream_loop (now : Z) (env : StreamEnv) (tid : string)
    (reads : list read_result) :
  forall (k : nat) (w : World),
    exists (n : nat) (rest : list read_result) (wr : nat),
      steps now env tid n (w, mkStreamer reads k true None false) =
      ((stream_loop now env tid reads k w).1,
       match (stream_loop now env tid reads k w).2 with
       | Returned r => mkStreamer rest wr false r false
       | Parked => mkStreamer rest wr true None true
       end).
Proof.
  induction reads as [|r reads IH]; intros k w.
  - exists 1%nat, [], k. reflexivity.
  - simpl stream_loop.
    destruct (stream_iter tid r (send_err env k) w) as [w' [| |e|]] eqn:Hit.
    + destruct (IH (S k) w') as [n [rest [wr Hn]]].
      exists (S n), rest, wr. simpl. rewrite Hit. exact Hn.
    + exists 1%nat, reads, k. simpl. rewrite Hit. reflexivity.
    + exists 1%nat, reads, k. simpl. rewrite Hit. reflexivity.
    + exists 1%nat, reads, (S k). simpl. rewrite Hit. reflexivity.
Qed.

Lemma CancelTransfer_unknown (now : Z) (id : string) (tm : t) :
  transfers tm !! id = None ->
  CancelTransfer now id tm = (tm, Some ("transfer not found: " ++ id)%string).
Proof. intros H. unfold CancelTransfer. rewrite H. reflexivity. Qed.

Lemma CancelTransfer_inactive (now : Z) (id : string) (tm : t) (x : Transfer) :
  transfers tm !! id = Some x -> Status x <> TransferActive ->
  CancelTransfer now id tm = (tm, Some "transfer is not active"%string).
Proof.
  intros H Hst. unfold CancelTransfer. rewrite H.
  destruct (status_eqb (Status x) TransferActive) eqn:E; [|reflexivity].
  apply TransferFacts.status_eqb_eq in E. contradiction.
Qed.

Lemma CancelTransfer_active (now : Z) (id : string) (tm : t) (x : Transfer) :
  transfers tm !! id = Some x -> Status x = TransferActive ->
  CancelTransfer now id tm =
  (set_transfers (<[id := set_EndTime now (set_Status TransferCancelled x)]> (transfers tm)) tm,
   None).
Proof.
  intros H Hst. unfold CancelTransfer. rewrite H, Hst. reflexivity.
Qed.

End StreamFacts.

(** C8, as stated, fails: the transfer is cancelled after the first chunk;
    the loop sends the second chunk all the same, and at the end of the file
    marks the transfer completed. *)
Lemma cancel_counterexample :
  let status_of (st : TransferManager.World * TransferManager.Streamer) :=
    TransferManager.Status <$>
      TransferManager.transfers (TransferManager.manager st.1) !! "t-2"%string in
  let cancelled := run_up [TransferManager.StreamStep; TransferManager.CallCancel "t-2"] in
  let next := run_up [TransferManager.StreamStep; TransferManager.CallCancel "t-2";
                      TransferManager.StreamStep] in
  let final := run_up [TransferManager.StreamStep; TransferManager.CallCancel "t-2";
                       TransferManager.StreamStep; TransferManager.StreamStep] in
  status_of cancelled = Some TransferManager.TransferCancelled /\
  TransferManager.wire cancelled.1 = SHA256.bytes_of_string "ab" /\
  status_of next = Some TransferManager.TransferCancelled /\
  TransferManager.wire next.1 = SHA256.bytes_of_string "abc" /\
  TransferManager.running final.2 = false /\
  TransferManager.returned final.2 = None /\
  TransferManager.parked final.2 = false /\
  status_of final = Some TransferManager.TransferCompleted.
Proof. vm_compute. repeat split. Qed.

(** C8 (amended).  [CancelTransfer] on an unknown id, or on a transfer that
    is not active, returns an error and changes nothing.  On an active
    transfer it returns no error and rewrites that one record: cancelled,
    with the end time set.  The streaming loop does not read the status: its
    next pass sends the chunk it read as it would have without the call,
    and goes on, or waits in the send of its progress update when the
    channel is full. *)
Theorem CancelTransfer_marks (now : Z) (id : string) (w : TransferManager.World) :
  let tm := TransferManager.manager w in
  (TransferManager.transfers tm !! id = None ->
   TransferManager.CancelTransfer now id tm =
     (tm, Some ("transfer not found: " ++ id)%string)) /\
  (forall x, TransferManager.transfers tm !! id = Some x ->
     (TransferManager.Status x <> TransferManager.TransferActive ->
      TransferManager.CancelTransfer now id tm =
        (tm, Some "transfer is not active"%string)) /\
     (TransferManager.Status x = TransferManager.TransferActive ->
      let res := TransferManager.CancelTransfer now id tm in
      let w' := TransferManager.mkWorld res.1 (TransferManager.disk w)
                  (TransferManager.wire w) in
      res.2 = None /\
      TransferManager.transfers res.1 !! id =
        Some (TransferManager.set_EndTime now
                (TransferManager.set_Status TransferManager.TransferCancelled x)) /\
      (forall id', id' <> id ->
         TransferManager.transfers res.1 !! id' = TransferManager.transfers tm !! id') /\
      (forall r, TransferManager.rd_err r = None ->
         TransferManager.wire (TransferManager.stream_iter id r None w').1 =
           TransferManager.wire w ++ TransferManager.rd_data r /\
         (TransferManager.stream_iter id r None w').2 =
           if (length (TransferManager.progressChan tm) <?
               TransferManager.ProgressCapacity)%nat
           then TransferManager.Continue else TransferManager.Park))).
Proof.
  cbv zeta.
  split; [apply StreamFacts.CancelTransfer_unknown|].
  intros x Hx. split; [apply StreamFacts.CancelTransfer_inactive, Hx|].
  intros Hact.
  rewrite (StreamFacts.CancelTransfer_active now id _ x Hx Hact). simpl.
  split; [reflexivity|]. split; [apply lookup_insert_eq|].
  split; [intros id' Hne; apply lookup_insert_ne; congruence|].
  intros r Hr.
  pose proof (StreamFacts.stream_iter_sends id r
           (TransferManager.mkWorld
              (TransferManager.set_transfers
                 (<[id := TransferManager.set_EndTime now
                            (TransferManager.set_Status TransferManager.TransferCancelled x)]>
                    (TransferManager.transfers (TransferManager.manager w)))
                 (TransferManager.manager w))
              (TransferManager.disk w) (TransferManager.wire w)) Hr) as [Hwire Hflow].
  split; [exact Hwire|]. rewrite Hflow.
  cbn [TransferManager.manager TransferManager.set_transfers TransferManager.transfers
       TransferManager.progressChan].
  rewrite lookup_insert_eq. reflexivity.
Qed.

Lemma CancelTransfer_marks_witness :
  TransferManager.CancelTransfer 20 "t-9" manager_up =
    (manager_up, Some "transfer not found: t-9"%string) /\
  (TransferManager.CancelTransfer 20 "t-2" manager_up).2 = None /\
  TransferManager.CancelTransfer 21 "t-2"
    (TransferManager.CancelTransfer 20 "t-2" manager_up).1 =
    ((TransferManager.CancelTransfer 20 "t-2" manager_up).1,
     Some "transfer is not active"%string).
Proof.
  assert (H9 : TransferManager.transfers manager_up !! "t-9"%string = None)
    by (vm_compute; reflexivity).
  assert (H2 : TransferManager.transfers manager_up !! "t-2"%string = Some upload_abc)
    by (vm_compute; reflexivity).
  assert (Hact : TransferManager.Status upload_abc = TransferManager.TransferActive)
    by reflexivity.
  pose proof (proj2 (proj2 (CancelTransfer_marks 20 "t-2" world_up) upload_abc H2) Hact)
    as [Hnone [Hrec _]].
  split; [exact (proj1 (CancelTransfer_marks 20 "t-9" world_up) H9)|].
  split; [exact Hnone|].
  refine (proj1 (proj2 (CancelTransfer_marks 21 "t-2"
                          (TransferManager.mkWorld _ ∅ [])) _ Hrec) _).
  simpl. discriminate.
Defined.

(** * Further properties of the code *)

(** ** Digests and content identifiers *)

Module HashFacts.

Lemma round_length (st : list Z) (kw : Z * Z) :
  length (SHA256.round st kw) = length st.
Proof.
  unfold SHA256.round.
  destruct st as [|a [|b [|c [|d [|e [|f [|g [|h [|]]]]]]]]]; reflexivity.
Qed.

Lemma rounds_length (l : list (Z * Z)) :
  forall st, length (fold_left SHA256.round l st) = length st.
Proof.
  induction l as [|kw l IH]; intros st; simpl; [reflexivity|].
  rewrite IH. apply round_length.
Qed.

Lemma compress_length (h : list Z) (block : list byte) :
  length (SHA256.compress h block) = length h.
Proof.
  unfold SHA256.compress.
  rewrite List.length_map, List.length_combine, rounds_length. lia.
Qed.

Lemma blocks_length (n : nat) :
  forall h bs, length (SHA256.blocks n h bs) = length h.
Proof.
  induction n as [|n IH]; intros h bs; simpl; [reflexivity|].
  rewrite IH. apply compress_length.
Qed.

Lemma be_bytes_length (n : nat) (z : Z) : length (SHA256.be_bytes n z) = n.
Proof. induction n as [|n IH]; simpl; [reflexivity | rewrite IH; reflexivity]. Qed.

Lemma words_bytes_length (l : list Z) :
  length (concat (map (SHA256.be_bytes 4) l)) = (4 * length l)%nat.
Proof.
  induction l as [|x l IH]; [reflexivity|].
  cbn [map concat]. rewrite List.length_app, be_bytes_length, IH. simpl. lia.
Qed.

(** The digest has 32 bytes, whatever the message. *)
Lemma Sum256_length (msg : list byte) : length (SHA256.Sum256 msg) = 32%nat.
Proof.
  unfold SHA256.Sum256. rewrite words_bytes_length, blocks_length. reflexivity.
Qed.

Lemma EncodeToString_length (bs : list byte) :
  String.length (SHA256.EncodeToString bs) = (2 * length bs)%nat.
Proof. induction bs as [|b bs IH]; simpl; [reflexivity | rewrite IH; lia]. Qed.

Lemma hexdigit_hex (z : Z) :
  0 <= z < 16 ->
  In (SHA256.hexdigit z) (list_ascii_of_string "0123456789abcdef").
Proof.
  intros H. unfold SHA256.hexdigit.
  assert (Hn : (Z.to_nat z < 16)%nat) by lia.
  remember (Z.to_nat z) as n eqn:E. clear E H.
  do 16 (destruct n as [|n]; [simpl; auto 20|]). lia.
Qed.

Lemma byteZ_range (b : byte) : 0 <= SHA256.byteZ b < 256.
Proof.
  unfold SHA256.byteZ. pose proof (Byte.to_N_bounded b). lia.
Qed.

Lemma EncodeToString_hex (bs : list byte) :
  Forall (fun c => In c (list_ascii_of_string "0123456789abcdef"))
    (list_ascii_of_string (SHA256.EncodeToString bs)).
Proof.
  induction bs as [|b bs IH]; simpl; [constructor|].
  pose proof (byteZ_range b) as Hb.
  constructor; [|constructor; [|exact IH]]; apply hexdigit_hex.
  - split; [apply Z.div_pos; lia | apply Z.div_lt_upper_bound; lia].
  - apply Z.mod_pos_bound. lia.
Qed.

Lemma substring_length (n : nat) :
  forall s, (n <= String.length s)%nat -> String.length (String.substring 0 n s) = n.
Proof.
  induction n as [|n IH]; intros [|c s] H; simpl in *; try reflexivity; try lia.
  rewrite IH by lia. reflexivity.
Qed.

Lemma substring_prefix (n : nat) :
  forall s, (n <= String.length s)%nat ->
            String.prefix (String.substring 0 n s) s = true.
Proof.
  induction n as [|n IH]; intros [|c s] H; simpl in *; try reflexivity; try lia.
  destruct (ascii_dec c c) as [_|Hne]; [apply IH; lia | contradiction].
Qed.

Lemma slice_to_Some (n : nat) (s : string) :
  (n <= String.length s)%nat ->
  Go.slice_to n s = Some (String.substring 0 n s).
Proof.
  intros H. unfold Go.slice_to.
  destruct (n <=? String.length s)%nat eqn:E; [reflexivity|].
  apply Nat.leb_gt in E. lia.
Qed.

Lemma length_append (s1 s2 : string) :
  String.length (s1 ++ s2) = (String.length s1 + String.length s2)%nat.
Proof. induction s1 as [|c s1 IH]; simpl; [reflexivity | rewrite IH; reflexivity]. Qed.

Lemma HashBytes_length (data : list byte) :
  String.length (Utils.HashBytes data) = 64%nat.
Proof.
  unfold Utils.HashBytes. rewrite EncodeToString_length, Sum256_length. reflexivity.
Qed.

(** X1.  [HashBytes], the hexadecimal SHA-256 digest that serves as checksum
    and, in package models, as CID, has 64 characters for every input, each
    of them one of 0-9 and a-f. *)
Theorem HashBytes_shape (data : list byte) :
  String.length (Utils.HashBytes data) = 64%nat /\
  Forall (fun c => In c (list_ascii_of_string "0123456789abcdef"))
    (list_ascii_of_string (Utils.HashBytes data)) /\
  AcademicFile.GenerateCID data = Utils.HashBytes data /\
  AcademicFile.GenerateChecksum data = Utils.HashBytes data.
Proof.
  unfold Utils.HashBytes. split; [|split; [apply EncodeToString_hex|split; reflexivity]].
  rewrite EncodeToString_length, Sum256_length. reflexivity.
Qed.

(** X2.  The short CID of package utils and of the integrity service is
    "kx-" followed by the first 32 characters of the digest: the slice never
    panics, the CID has 35 characters, and [VerifyCID] accepts, for a given
    content, that CID and no other string. *)
Theorem VerifyCID_GenerateCID (content : list byte) :
  exists h : string,
    String.length h = 32%nat /\
    String.prefix h (Utils.HashBytes content) = true /\
    Utils.GenerateCID content = Some ("kx-" ++ h)%string /\
    IntegrityService.GenerateCID content = Some ("kx-" ++ h)%string /\
    IntegrityService.VerifyCID content ("kx-" ++ h)%string = Some true /\
    forall cid, IntegrityService.VerifyCID content cid = Some true <->
                cid = ("kx-" ++ h)%string.
Proof.
  assert (Hlen : (32 <= String.length (Utils.HashBytes content))%nat).
  { unfold Utils.HashBytes. rewrite EncodeToString_length, Sum256_length. lia. }
  exists (String.substring 0 32 (Utils.HashBytes content)).
  split; [apply substring_length, Hlen|].
  split; [apply substring_prefix, Hlen|].
  unfold Utils.GenerateCID, IntegrityService.GenerateCID, IntegrityService.VerifyCID,
    IntegrityService.ComputeHash.
  fold (Utils.HashBytes content). rewrite (slice_to_Some _ _ Hlen).
  split; [reflexivity|]. split; [reflexivity|].
  set (c := ("kx-" ++ String.substring 0 32 (Utils.HashBytes content))%string).
  split; [rewrite String.eqb_refl; reflexivity|].
  intros cid. split.
  - intros H. destruct (String.eqb c cid) eqn:E; [|discriminate H].
    apply String.eqb_eq in E. symmetry. exact E.
  - intros ->. rewrite String.eqb_refl. reflexivity.
Qed.

(** X3.  The CID that [NewAcademicFile] gives a record is the full digest,
    64 characters long, and is never a CID in the sense of [VerifyCID]:
    for the very content the record was made from, [VerifyCID] answers
    false, while the checksum of the record verifies. *)
Theorem VerifyCID_rejects_record_CID
    (now : Z) (fileName ownerID : string) (size : Z) (fileType : string)
    (content : list byte) :
  let f := AcademicFile.NewAcademicFile now fileName ownerID size fileType content in
  String.length (AcademicFile.CID f) = 64%nat /\
  IntegrityService.VerifyCID content (AcademicFile.CID f) = Some false /\
  IntegrityService.VerifyContent content (AcademicFile.Checksum f) = true /\
  AcademicFile.VerifyIntegrity content f = true.
Proof.
  cbv zeta.
  assert (H64 : String.length (Utils.HashBytes content) = 64%nat).
  { unfold Utils.HashBytes. rewrite EncodeToString_length, Sum256_length. reflexivity. }
  split; [exact H64|]. split.
  - unfold IntegrityService.VerifyCID, IntegrityService.ComputeHash.
    fold (Utils.HashBytes content).
    rewrite slice_to_Some by (rewrite H64; lia). f_equal.
    apply String.eqb_neq. intros Heq.
    apply (f_equal String.length) in Heq.
    change (AcademicFile.CID _) with (Utils.HashBytes content) in Heq.
    rewrite H64, length_append, substring_length in Heq by (rewrite H64; lia).
    discriminate.
  - split; [apply String.eqb_refl | apply String.eqb_refl].
Qed.

(** X4.  [VerifyAcademicFile] answers from its cache whenever it has an
    entry for the CID of the record: the answer of the first call comes back
    for every later call on that CID, whatever content is passed, until
    [InvalidateCache] or [ClearCache] removes the entry; the next call then
    compares the content with the checksum again. *)
Theorem VerifyAcademicFile_cached
    (svc : gmap string bool) (file file' : AcademicFile.t) (content content' : list byte) :
  AcademicFile.CID file' = AcademicFile.CID file ->
  let first := IntegrityService.VerifyAcademicFile file content svc in
  IntegrityService.VerifyAcademicFile file' content' first.2 = (first.1, first.2) /\
  (IntegrityService.VerifyAcademicFile file' content'
     (IntegrityService.InvalidateCache (AcademicFile.CID file) first.2)).1 =
    IntegrityService.VerifyContent content' (AcademicFile.Checksum file') /\
  (IntegrityService.VerifyAcademicFile file' content'
     (IntegrityService.ClearCache first.2)).1 =
    IntegrityService.VerifyContent content' (AcademicFile.Checksum file').
Proof.
  intros Hcid. cbv zeta.
  unfold IntegrityService.VerifyAcademicFile, IntegrityService.InvalidateCache,
    IntegrityService.ClearCache.
  rewrite Hcid. split; [|split].
  - destruct (svc !! AcademicFile.CID file) as [v|] eqn:E; simpl.
    + rewrite E. reflexivity.
    + rewrite lookup_insert_eq. reflexivity.
  - rewrite lookup_delete_eq. reflexivity.
  - rewrite lookup_empty. reflexivity.
Qed.

End HashFacts.

(** A record whose content was verified once is still reported intact when
    other bytes are passed. *)
Lemma VerifyAcademicFile_cached_witness :
  let first :=
    IntegrityService.VerifyAcademicFile notes_abc (SHA256.bytes_of_string "abc")
      IntegrityService.NewIntegrityService in
  first.1 = true /\
  IntegrityService.VerifyAcademicFile notes_abc (SHA256.bytes_of_string "abd") first.2 =
    (true, first.2) /\
  IntegrityService.VerifyContent (SHA256.bytes_of_string "abd")
    (AcademicFile.Checksum notes_abc) = false.
Proof.
  cbv zeta. split; [vm_compute; reflexivity|]. split.
  - exact (proj1 (HashFacts.VerifyAcademicFile_cached IntegrityService.NewIntegrityService
                    notes_abc notes_abc (SHA256.bytes_of_string "abc")
                    (SHA256.bytes_of_string "abd") eq_refl)).
  - vm_compute. reflexivity.
Defined.

(** ** Hashing by chunks *)

Module ChunkFacts.

Section ChunkLoop.

Context (data : list byte) (size : Z).
Hypothesis Hsize : 0 < size <= Int64.max_int.
Hypothesis Hlen : 2 * Z.of_nat (length data) <= Int64.max_int.

Lemma ceil_div_step (x : Z) : Spec.ceil_div x size = 1 + Spec.ceil_div (x - size) size.
Proof.
  unfold Spec.ceil_div.
  replace (x + size - 1) with (x - size + size - 1 + 1 * size) by lia.
  rewrite Z.div_add by lia. lia.
Qed.

Lemma chunk_loop_spec (fuel : nat) :
  forall (i : Z) (hashes : list string),
    0 <= i -> i = 0 \/ size <= i ->
    - size < Z.of_nat (length data) - i <= Z.of_nat fuel ->
    exists chunks : list (list byte),
      Utils.chunk_loop fuel data size i hashes =
        Utils.Hashes (hashes ++ map Utils.HashBytes chunks) /\
      concat chunks = skipn (Z.to_nat i) data /\
      Z.of_nat (length chunks) = Spec.ceil_div (Z.of_nat (length data) - i) size /\
      forall k : nat, (k < length chunks)%nat ->
        nth k chunks [] =
          firstn (Z.to_nat size) (skipn (Z.to_nat i + k * Z.to_nat size) data) /\
        nth k chunks [] <> [].
Proof.
  induction fuel as [|fuel IH]; intros i hashes Hi Hmult Hfuel.
  - exists []. simpl.
    replace (i <? Z.of_nat (length data)) with false by (symmetry; apply Z.ltb_ge; lia).
    simpl. rewrite app_nil_r. split; [reflexivity|].
    split; [symmetry; apply skipn_all2; lia|].
    split; [|intros k Hk; simpl in Hk; lia].
    unfold Spec.ceil_div. rewrite Z.div_small; lia.
  - simpl. destruct (i <? Z.of_nat (length data)) eqn:Hlt; simpl.
    + apply Z.ltb_lt in Hlt.
      assert (Hadd : Int64.add i size = i + size).
      { apply Int64Facts.add_small. int64_range. lia. }
      rewrite Hadd.
      set (e := if Z.of_nat (length data) <? i + size
                then Z.of_nat (length data) else i + size).
      assert (He : i < e <= Z.of_nat (length data) /\ e <= i + size /\
                   (e = i + size \/ e = Z.of_nat (length data))).
      { unfold e. destruct (Z.of_nat (length data) <? i + size) eqn:E;
          [apply Z.ltb_lt in E | apply Z.ltb_ge in E]; lia. }
      unfold Go.slice.
      replace ((0 <=? i) && (i <=? e) && (e <=? Z.of_nat (length data))) with true
        by (symmetry; rewrite !andb_true_iff, !Z.leb_le; lia).
      set (chunk := firstn (Z.to_nat (e - i)) (skipn (Z.to_nat i) data)).
      assert (Hchunk : chunk = firstn (Z.to_nat size) (skipn (Z.to_nat i) data)).
      { unfold chunk. destruct He as [He1 [He2 [He3 | He3]]].
        - f_equal. lia.
        - rewrite !firstn_all2; [reflexivity | |]; rewrite length_skipn; lia. }
      destruct (IH (i + size) (hashes ++ [Utils.HashBytes chunk]))
        as [chunks [Hrun [Hcat [Hcount Hnth]]]]; try lia.
      exists (chunk :: chunks). split; [|split; [|split]].
      * rewrite Hrun, <- app_assoc. reflexivity.
      * simpl. rewrite Hcat, Hchunk.
        replace (Z.to_nat (i + size)) with (Z.to_nat size + Z.to_nat i)%nat by lia.
        rewrite <- skipn_skipn. apply firstn_skipn.
      * simpl length. rewrite Nat2Z.inj_succ, Hcount.
        rewrite (ceil_div_step (Z.of_nat (length data) - i)).
        replace (Z.of_nat (length data) - (i + size))
          with (Z.of_nat (length data) - i - size) by lia. lia.
      * intros [|k] Hk.
        -- simpl. rewrite Nat.add_0_r. split; [exact Hchunk|].
           rewrite Hchunk. intros Hnil.
           apply (f_equal (@length byte)) in Hnil.
           rewrite length_firstn, length_skipn in Hnil. simpl in Hnil. lia.
        -- simpl in Hk. destruct (Hnth k ltac:(lia)) as [Hk1 Hk2].
           cbn [nth]. split; [|exact Hk2]. rewrite Hk1. do 2 f_equal. lia.
    + apply Z.ltb_ge in Hlt. exists []. simpl. rewrite app_nil_r.
      split; [reflexivity|].
      split; [symmetry; apply skipn_all2; lia|].
      split; [|intros k Hk; simpl in Hk; lia].
      unfold Spec.ceil_div. rewrite Z.div_small; lia.
Qed.

End ChunkLoop.

(** X5.  [ChunkHash] cuts the data into consecutive chunks of [chunkSize]
    bytes (of 1 MB when [chunkSize] is zero or negative), the last one
    shorter when the length is not a multiple, and returns their digests in
    order: the chunks put together are the data, none is empty, and there
    are as many as the length divided by the chunk size, rounded up (none
    for empty data).  No slice expression panics as long as twice the
    length fits an [int]. *)
Theorem ChunkHash_covers (data : list byte) (chunkSize : Z) :
  Int64.in_range chunkSize ->
  2 * Z.of_nat (length data) <= Int64.max_int ->
  let size := if chunkSize <=? 0 then 1024 * 1024 else chunkSize in
  exists chunks : list (list byte),
    Utils.ChunkHash data chunkSize = Utils.Hashes (map Utils.HashBytes chunks) /\
    concat chunks = data /\
    Z.of_nat (length chunks) = Spec.ceil_div (Z.of_nat (length data)) size /\
    forall k : nat, (k < length chunks)%nat ->
      nth k chunks [] = firstn (Z.to_nat size) (skipn (k * Z.to_nat size) data) /\
      nth k chunks [] <> [].
Proof.
  intros Hrange Hlen size.
  assert (Hsize : 0 < size <= Int64.max_int).
  { unfold size. int64_range.
    destruct (chunkSize <=? 0) eqn:E; [|apply Z.leb_gt in E]; lia. }
  destruct (chunk_loop_spec data size Hsize Hlen (length data) 0 [])
    as [chunks [Hrun [Hcat [Hcount Hnth]]]]; try lia.
  exists chunks. unfold Utils.ChunkHash. fold size.
  split; [exact Hrun|]. split; [exact Hcat|].
  split; [rewrite Hcount; f_equal; lia|].
  exact Hnth.
Qed.

End ChunkFacts.

(** Five bytes in chunks of two. *)
Lemma ChunkHash_covers_witness :
  Utils.ChunkHash (SHA256.bytes_of_string "abcde") 2 =
    Utils.Hashes
      [Utils.HashString "ab"; Utils.HashString "cd"; Utils.HashString "e"].
Proof.
  assert (H1 : Int64.in_range 2) by (int64_range; lia).
  assert (H2 : 2 * Z.of_nat (length (SHA256.bytes_of_string "abcde")) <= Int64.max_int)
    by (vm_compute; discriminate).
  destruct (ChunkFacts.ChunkHash_covers (SHA256.bytes_of_string "abcde") 2 H1 H2)
    as [chunks [Hrun [_ [Hcount Hnth]]]].
  rewrite Hrun. f_equal.
  change (Spec.ceil_div _ _) with 3 in Hcount.
  destruct chunks as [|c0 [|c1 [|c2 [|c3 chunks]]]]; try discriminate Hcount.
  - destruct (Hnth 0%nat ltac:(simpl; lia)) as [E0 _].
    destruct (Hnth 1%nat ltac:(simpl; lia)) as [E1 _].
    destruct (Hnth 2%nat ltac:(simpl; lia)) as [E2 _].
    vm_compute in E0, E1, E2. subst c0 c1 c2.
    unfold Utils.HashString. cbn [map].
    change (SHA256.bytes_of_string "ab") with [x61; x62].
    change (SHA256.bytes_of_string "cd") with [x63; x64].
    change (SHA256.bytes_of_string "e") with [x65].
    reflexivity.
  - exfalso. cbn [length] in Hcount. lia.
Defined.

(** ** Peer addresses *)

Module AddressFacts.

Lemma append_inj_l (s a b : string) : (s ++ a)%string = (s ++ b)%string -> a = b.
Proof.
  induction s as [|c s IH]; simpl; intros H; [exact H|].
  injection H as H. apply IH, H.
Qed.

(** A check of every integer from 0 up to [n - 1], by iteration. *)
Lemma iter_all (check : Z -> bool) (n : N) :
  fst (N.iter n (fun st : bool * Z => (fst st && check (snd st), snd st + 1)) (true, 0)) = true ->
  forall p, 0 <= p < Z.of_N n -> check p = true.
Proof.
  set (step := fun st : bool * Z => (fst st && check (snd st), snd st + 1)).
  assert (Hinv : forall k,
             snd (N.iter k step (true, 0)) = Z.of_N k /\
             (fst (N.iter k step (true, 0)) = true ->
              forall p, 0 <= p < Z.of_N k -> check p = true)).
  { intros k. induction k as [|k IH] using N.peano_ind.
    - simpl. split; [reflexivity | intros _ p Hp; lia].
    - rewrite N.iter_succ. destruct IH as [IH1 IH2]. unfold step at 1 3. simpl.
      rewrite IH1. split; [lia|].
      intros H p Hp. apply andb_true_iff in H as [Hk Hc].
      destruct (Z.eq_dec p (Z.of_N k)) as [->|Hne]; [exact Hc|].
      apply IH2; [exact Hk | lia]. }
  intros H p Hp. exact (proj2 (Hinv n) H p Hp).
Qed.

(** For each port up to 65535 the UTF-8 encoding of the code point differs
    from the decimal numeral. *)
Lemma rune_not_decimal (p : Z) :
  0 <= p < 65536 ->
  String.eqb (Go.string_of_rune (Go.rune p)) (Go.format_d p) = false.
Proof.
  intros Hp. apply negb_true_iff.
  apply (iter_all
           (fun p => negb (String.eqb (Go.string_of_rune (Go.rune p)) (Go.format_d p)))
           65536); [vm_compute; reflexivity | exact Hp].
Qed.

(** X6.  [GetAddress] joins the IP address, a colon and the UTF-8 encoding
    of the code point whose number is the port.  For a valid port (1 to
    65535) that is at most three bytes, and the result is never the address
    that [FormatAddress] writes, with the port in decimal digits. *)
Theorem GetAddress_not_decimal (s : Student.t) :
  Utils.IsValidPort (Student.Port s) = true ->
  Student.GetAddress s <> Utils.FormatAddress (Student.IPAddress s) (Student.Port s) /\
  (String.length (Student.GetAddress s) <= String.length (Student.IPAddress s) + 4)%nat.
Proof.
  intros Hport. unfold Utils.IsValidPort in Hport.
  apply andb_true_iff in Hport as [H0 H1]. apply Z.ltb_lt in H0. apply Z.leb_le in H1.
  unfold Student.GetAddress, Utils.FormatAddress. split.
  - intros Heq. apply append_inj_l in Heq. apply (append_inj_l ":") in Heq.
    pose proof (rune_not_decimal (Student.Port s) ltac:(lia)) as Hne.
    rewrite Heq, String.eqb_refl in Hne. discriminate Hne.
  - assert (Hr : Go.rune (Student.Port s) = Student.Port s).
    { unfold Go.rune. rewrite Z.mod_small; lia. }
    rewrite Hr, !HashFacts.length_append.
    assert (Hs : (String.length (Go.string_of_rune (Student.Port s)) <= 3)%nat).
    { unfold Go.string_of_rune.
      destruct (_ || _); [simpl; lia|].
      destruct (_ <? 128); [simpl; lia|].
      destruct (_ <? 2048); [simpl; lia|].
      destruct (Student.Port s <? 65536) eqn:E; [simpl; lia|].
      apply Z.ltb_ge in E. lia. }
    simpl. lia.
Qed.

End AddressFacts.

(** Port 9000 comes out as the three bytes of U+2328. *)
Lemma GetAddress_not_decimal_witness :
  Utils.FormatAddress (Student.IPAddress peer_a) (Student.Port peer_a) =
    "10.0.0.1:9000"%string /\
  String.length (Student.GetAddress peer_a) = 12%nat /\
  (Student.GetAddress peer_a <>
     Utils.FormatAddress (Student.IPAddress peer_a) (Student.Port peer_a) /\
   (String.length (Student.GetAddress peer_a) <=
      String.length (Student.IPAddress peer_a) + 4)%nat).
Proof.
  split; [reflexivity|]. split; [reflexivity|].
  exact (AddressFacts.GetAddress_not_decimal peer_a eq_refl).
Defined.

(** ** Validity and ratings of a file *)

Module FileRatingFacts.

Import AcademicFile.
Local Open Scope Q_scope.

Lemma inject_Z_nonzero (n : Z) : (n <> 0)%Z -> ~ inject_Z n == 0.
Proof. intros H. unfold Qeq. simpl. lia. Qed.

Lemma AddRating_step (rating : Q) (f : t) :
  (0 <= TotalRatings f < Int64.max_int)%Z ->
  TotalRatings (AddRating rating f) = (TotalRatings f + 1)%Z /\
  AverageRating (AddRating rating f) * inject_Z (TotalRatings (AddRating rating f)) ==
    AverageRating f * inject_Z (TotalRatings f) + rating.
Proof.
  intros Hn. unfold AddRating. cbn [TotalRatings AverageRating].
  rewrite Int64Facts.add_small by (int64_range; lia).
  split; [reflexivity|].
  rewrite Qmult_comm. apply Qmult_div_r, inject_Z_nonzero. lia.
Qed.

(** X7.  [AddRating] keeps a running mean.  After the ratings of a list
    have been added to a file, its count has grown by their number and its
    average times the count is what it was before plus their sum: for a new
    file the average is the mean of the ratings (in the exact arithmetic of
    this model of float64). *)
Theorem AddRating_mean (f : t) (ratings : list Q) :
  (0 <= TotalRatings f)%Z ->
  (TotalRatings f + Z.of_nat (length ratings) <= Int64.max_int)%Z ->
  let f' := fold_left (fun f r => AddRating r f) ratings f in
  TotalRatings f' = (TotalRatings f + Z.of_nat (length ratings))%Z /\
  AverageRating f' * inject_Z (TotalRatings f') ==
    AverageRating f * inject_Z (TotalRatings f) + fold_right Qplus 0 ratings /\
  (ratings <> [] ->
   AverageRating f' ==
     (AverageRating f * inject_Z (TotalRatings f) + fold_right Qplus 0 ratings) /
     inject_Z (TotalRatings f + Z.of_nat (length ratings))).
Proof.
  cbv zeta. revert f. induction ratings as [|r ratings IH]; intros f Hn Hlen.
  - simpl. split; [lia|]. split; [ring | congruence].
  - cbn [length fold_left fold_right] in *.
    destruct (AddRating_step r f ltac:(lia)) as [Hc Ha].
    destruct (IH (AddRating r f) ltac:(lia) ltac:(lia)) as [IH1 [IH2 _]].
    assert (Hcount : TotalRatings (fold_left (fun f r => AddRating r f) ratings (AddRating r f)) =
                     (TotalRatings f + Z.of_nat (S (length ratings)))%Z) by lia.
    assert (Hsum : AverageRating (fold_left (fun f r => AddRating r f) ratings (AddRating r f)) *
                   inject_Z (TotalRatings (fold_left (fun f r => AddRating r f) ratings (AddRating r f))) ==
                   AverageRating f * inject_Z (TotalRatings f) + (r + fold_right Qplus 0 ratings)).
    { rewrite IH2, Ha. ring. }
    split; [exact Hcount|]. split; [exact Hsum|].
    intros _. rewrite <- Hsum, Hcount.
    rewrite Qdiv_mult_l; [reflexivity|]. apply inject_Z_nonzero. lia.
Qed.

(** X8.  [IsValid] accepts a record exactly when its size is positive and at
    most 100 MB, its type is one of the seven of package models, and its
    name and owner are not empty; what it rejects it rejects with a message.
    Every accepted record passes the size and type checks of package utils,
    whose list of types is longer: an .epub record of one byte is refused
    here and allowed there. *)
Theorem IsValid_accepts (f : t) :
  (IsValid f = (true, ""%string) <->
   (0 < Size f <= MaxFileSize)%Z /\ In (FileType f) AllowedFileTypes /\
   FileName f <> ""%string /\ OwnerID f <> ""%string) /\
  ((IsValid f).1 = false -> (IsValid f).2 <> ""%string) /\
  (IsValid f = (true, ""%string) ->
   Utils.IsAllowedFileType (FileType f) = true /\ (Size f <= Utils.MaxFileSizeBytes)%Z) /\
  (forall now name owner content,
     let g := NewAcademicFile now name owner 1 ".epub" content in
     Utils.IsAllowedFileType (FileType g) = true /\
     IsValid g = (false, "File type not allowed"%string)).
Proof.
  assert (Htype : existsb (String.eqb (FileType f)) AllowedFileTypes = true <->
                  In (FileType f) AllowedFileTypes).
  { rewrite existsb_exists. split.
    - intros [x [Hin Heq]]. apply String.eqb_eq in Heq. subst x. exact Hin.
    - intros Hin. exists (FileType f). split; [exact Hin | apply String.eqb_refl]. }
  assert (Hacc : IsValid f = (true, ""%string) <->
                 (0 < Size f <= MaxFileSize)%Z /\ In (FileType f) AllowedFileTypes /\
                 FileName f <> ""%string /\ OwnerID f <> ""%string).
  { rewrite <- Htype. unfold IsValid.
    destruct (MaxFileSize <? Size f)%Z eqn:E1;
      [apply Z.ltb_lt in E1 | apply Z.ltb_ge in E1].
    { split; [discriminate | lia]. }
    destruct (Size f <=? 0)%Z eqn:E2; [apply Z.leb_le in E2 | apply Z.leb_gt in E2].
    { split; [discriminate | lia]. }
    destruct (existsb (String.eqb (FileType f)) AllowedFileTypes) eqn:E3; simpl.
    2:{ split; [discriminate | intros [_ [H _]]; discriminate H]. }
    destruct (String.eqb (FileName f) "") eqn:E4;
      [apply String.eqb_eq in E4 | apply String.eqb_neq in E4].
    { split; [discriminate | intros [_ [_ [H _]]]; contradiction]. }
    destruct (String.eqb (OwnerID f) "") eqn:E5;
      [apply String.eqb_eq in E5 | apply String.eqb_neq in E5].
    { split; [discriminate | intros [_ [_ [_ H]]]; contradiction]. }
    split; [intros _; repeat split; (lia || assumption) | reflexivity]. }
  split; [exact Hacc|]. split; [|split].
  - unfold IsValid.
    repeat (match goal with |- context [if ?b then _ else _] => destruct b end);
      simpl; discriminate.
  - intros H. apply Hacc in H as [Hs [Ht _]]. split; [|exact (proj2 Hs)].
    unfold Utils.IsAllowedFileType. apply existsb_exists.
    exists (FileType f). split; [|apply String.eqb_refl].
    unfold AllowedFileTypes in Ht. unfold Utils.AllowedFileTypes.
    simpl in Ht |- *. intuition.
  - intros now name owner content. split; reflexivity.
Qed.

End FileRatingFacts.

(** Two ratings, 4 and 5, of a new file. *)
Lemma AddRating_mean_witness :
  let f' := fold_left (fun f r => AcademicFile.AddRating r f) [4%Q; 5%Q] notes_abc in
  AcademicFile.TotalRatings f' = 2%Z /\ (AcademicFile.AverageRating f' == 4.5)%Q.
Proof.
  cbv zeta.
  assert (H0 : (0 <= AcademicFile.TotalRatings notes_abc)%Z) by (vm_compute; discriminate).
  assert (H1 : (AcademicFile.TotalRatings notes_abc + Z.of_nat (length [4%Q; 5%Q]) <=
                Int64.max_int)%Z) by (vm_compute; discriminate).
  destruct (FileRatingFacts.AddRating_mean notes_abc [4%Q; 5%Q] H0 H1) as [Hc [_ Hm]].
  split; [exact Hc|].
  rewrite (Hm ltac:(discriminate)). vm_compute. reflexivity.
Defined.

(** ** Ratings *)

Module RatingFacts.

Local Open Scope Q_scope.

Lemma IsValid_true (r : Rating.t) :
  (Rating.IsValid r).1 = true ->
  Rating.RaterID r <> ""%string /\ Rating.TargetID r <> ""%string /\
  (Rating.TargetType r = "file"%string \/ Rating.TargetType r = "student"%string) /\
  1 <= Rating.Score r <= 5 /\ Rating.RaterID r <> Rating.TargetID r.
Proof.
  unfold Rating.IsValid.
  destruct (String.eqb (Rating.RaterID r) "") eqn:E1; [discriminate|].
  destruct (String.eqb (Rating.TargetID r) "") eqn:E2; [discriminate|].
  destruct (negb (String.eqb (Rating.TargetType r) "file") &&
            negb (String.eqb (Rating.TargetType r) "student")) eqn:E3; [discriminate|].
  destruct (Float64.ltb (Rating.Score r) Rating.MinRating ||
            Float64.ltb Rating.MaxRating (Rating.Score r)) eqn:E4; [discriminate|].
  destruct (String.eqb (Rating.RaterID r) (Rating.TargetID r)) eqn:E5; [discriminate|].
  intros _.
  apply String.eqb_neq in E1, E2, E5.
  apply orb_false_iff in E4 as [E4 E4']. apply Float64Facts.ltb_ge in E4, E4'.
  split; [exact E1|]. split; [exact E2|]. split; [|split; [split|exact E5]].
  - apply andb_false_iff in E3 as [E3|E3]; apply negb_false_iff, String.eqb_eq in E3;
      [left | right]; exact E3.
  - eapply Qle_trans; [|exact E4]. discriminate.
  - eapply Qle_trans; [exact E4'|]. discriminate.
Qed.

Lemma IsValid_shape (r : Rating.t) :
  Rating.IsValid r = (true, ""%string) \/
  ((Rating.IsValid r).1 = false /\ (Rating.IsValid r).2 <> ""%string).
Proof.
  unfold Rating.IsValid.
  repeat (match goal with |- context [if ?b then _ else _] => destruct b end);
    simpl; (left; reflexivity) || (right; split; [reflexivity | discriminate]).
Qed.

Lemma Add_invalid (r : Rating.t) (rs : RatingStore.t) :
  (Rating.IsValid r).1 = false ->
  RatingStore.Add r rs = (rs, Some (Rating.IsValid r).2).
Proof.
  intros H. unfold RatingStore.Add. destruct (Rating.IsValid r) as [v m].
  simpl in H. subst v. reflexivity.
Qed.

Lemma Add_valid (r : Rating.t) (rs : RatingStore.t) :
  (Rating.IsValid r).1 = true ->
  RatingStore.Add r rs =
  (RatingStore.mk (<[Rating.ID r := r]> (RatingStore.ratings rs))
     (<[Rating.TargetID r :=
          RatingStore.GetByTarget (Rating.TargetID r) rs ++ [r]]>
        (RatingStore.byTarget rs)),
   None).
Proof.
  intros H. unfold RatingStore.Add. destruct (Rating.IsValid r) as [v m].
  simpl in H. subst v. reflexivity.
Qed.

(** What [Add] does to the list of a target. *)
Lemma GetByTarget_Add (r : Rating.t) (rs : RatingStore.t) (target : string) :
  RatingStore.GetByTarget target (RatingStore.Add r rs).1 =
  RatingStore.GetByTarget target rs ++
  (if (Rating.IsValid r).1 && String.eqb (Rating.TargetID r) target then [r] else []).
Proof.
  destruct (Rating.IsValid r).1 eqn:Hv.
  - rewrite (Add_valid r rs Hv). unfold RatingStore.GetByTarget at 1. simpl.
    destruct (String.eqb (Rating.TargetID r) target) eqn:E.
    + apply String.eqb_eq in E. subst target. rewrite lookup_insert_eq. reflexivity.
    + apply String.eqb_neq in E. rewrite lookup_insert_ne by exact E.
      rewrite app_nil_r. reflexivity.
  - rewrite (Add_invalid r rs Hv). simpl. rewrite app_nil_r. reflexivity.
Qed.

Lemma GetByTarget_fold (l : list Rating.t) (target : string) :
  forall rs,
    RatingStore.GetByTarget target
      (fold_left (fun s r => (RatingStore.Add r s).1) l rs) =
    RatingStore.GetByTarget target rs ++
    List.filter (fun r => (Rating.IsValid r).1 && String.eqb (Rating.TargetID r) target) l.
Proof.
  induction l as [|r l IH]; intros rs; simpl; [rewrite app_nil_r; reflexivity|].
  rewrite IH, GetByTarget_Add, <- app_assoc.
  destruct ((Rating.IsValid r).1 && String.eqb (Rating.TargetID r) target); reflexivity.
Qed.

(** X9.  [RatingStore.Add] stores a rating exactly when [IsValid] accepts
    it.  A rejected rating leaves the store as it was and the error carries
    the message of [IsValid].  An accepted one is appended to the ratings of
    its target, whose earlier ratings keep their order, the lists of the
    other targets are untouched, the rating is found under its ID, and
    [HasRated] holds of its rater and target from then on. *)
Theorem Add_outcome (r : Rating.t) (rs : RatingStore.t) :
  ((Rating.IsValid r).1 = false ->
   RatingStore.Add r rs = (rs, Some (Rating.IsValid r).2) /\
   (Rating.IsValid r).2 <> ""%string) /\
  ((Rating.IsValid r).1 = true ->
   let rs' := (RatingStore.Add r rs).1 in
   (RatingStore.Add r rs).2 = None /\
   RatingStore.GetByTarget (Rating.TargetID r) rs' =
     RatingStore.GetByTarget (Rating.TargetID r) rs ++ [r] /\
   (forall target, target <> Rating.TargetID r ->
      RatingStore.GetByTarget target rs' = RatingStore.GetByTarget target rs) /\
   RatingStore.ratings rs' !! Rating.ID r = Some r /\
   RatingStore.HasRated (Rating.RaterID r) (Rating.TargetID r) rs' = true /\
   forall r2, (Rating.IsValid r2).1 = true ->
     RatingStore.HasRated (Rating.RaterID r) (Rating.TargetID r)
       (RatingStore.Add r2 rs').1 = true).
Proof.
  split.
  - intros Hv. split; [apply Add_invalid, Hv|].
    destruct (IsValid_shape r) as [H|[_ H]]; [|exact H].
    rewrite H in Hv. discriminate Hv.
  - intros Hv. cbv zeta.
    assert (Hlist : RatingStore.GetByTarget (Rating.TargetID r) (RatingStore.Add r rs).1 =
                    RatingStore.GetByTarget (Rating.TargetID r) rs ++ [r]).
    { rewrite GetByTarget_Add, Hv, String.eqb_refl. reflexivity. }
    assert (Hhas : RatingStore.HasRated (Rating.RaterID r) (Rating.TargetID r)
                     (RatingStore.Add r rs).1 = true).
    { unfold RatingStore.HasRated. rewrite Hlist, existsb_app. simpl.
      rewrite String.eqb_refl. apply orb_true_iff. right. reflexivity. }
    split; [rewrite (Add_valid r rs Hv); reflexivity|].
    split; [exact Hlist|]. split; [|split; [|split; [exact Hhas|]]].
    + intros target Hne. rewrite GetByTarget_Add.
      replace (String.eqb (Rating.TargetID r) target) with false
        by (symmetry; apply String.eqb_neq; congruence).
      rewrite andb_false_r. apply app_nil_r.
    + rewrite (Add_valid r rs Hv). simpl. apply lookup_insert_eq.
    + intros r2 Hv2. unfold RatingStore.HasRated in *.
      rewrite GetByTarget_Add, existsb_app, Hhas. reflexivity.
Qed.

End RatingFacts.

Module StatsFacts.

Import RatingStore.
Local Open Scope Q_scope.

Local Abbreviation sum_scores l := (fold_right Qplus 0 (map Rating.Score l)).
Local Abbreviation bucket k l :=
  (Z.of_nat
     (length (List.filter
                (fun r => (Go.int_of_float (Rating.Score r) =? Z.of_nat k + 1)%Z) l))).

Lemma int_of_float_range (q : Q) :
  1 <= q <= 5 -> (1 <= Go.int_of_float q <= 5)%Z.
Proof.
  intros [H1 H2]. unfold Go.int_of_float. destruct q as [n d].
  unfold Qle in H1, H2. simpl in *.
  assert (Hq : (1 <= Z.quot n (Z.pos d) <= 5)%Z).
  { rewrite Z.quot_div_nonneg by lia. split.
    - apply Z.div_le_lower_bound; lia.
    - apply Z.div_le_upper_bound; lia. }
  rewrite Int64Facts.wrap64_id; [exact Hq | int64_range; lia].
Qed.

Lemma sum_alter (l : list Z) :
  forall (i : nat),
    (i < length l)%nat ->
    (forall c, l !! i = Some c -> Int64.add c 1 = (c + 1)%Z) ->
    fold_right Z.add 0%Z (alter (fun c => Int64.add c 1) i l) =
    (fold_right Z.add 0%Z l + 1)%Z.
Proof.
  set (f := fun c => Int64.add c 1).
  induction l as [|x l IH]; intros i Hi Hadd; simpl in Hi; [lia|].
  destruct i as [|i].
  - change (alter f 0%nat (x :: l)) with (f x :: l). cbn [fold_right].
    unfold f. rewrite (Hadd x eq_refl). lia.
  - change (alter f (S i) (x :: l)) with (x :: alter f i l). cbn [fold_right].
    rewrite IH; [lia | lia | exact Hadd].
Qed.

Lemma stats_fold (l : list Rating.t) :
  forall (t0 : Q) (s0 : RatingStats),
    length (RatingCounts s0) = 5%nat ->
    (0 <= TotalRatings s0)%Z ->
    (TotalRatings s0 + Z.of_nat (length l) <= Int64.max_int)%Z ->
    Forall (fun c => (0 <= c <= TotalRatings s0)%Z) (RatingCounts s0) ->
    Forall (fun r => 1 <= Rating.Score r <= 5) l ->
    exists (t : Q) (s : RatingStats),
      fold_left stats_step l (t0, s0) = (t, s) /\
      t == t0 + sum_scores l /\
      TotalRatings s = (TotalRatings s0 + Z.of_nat (length l))%Z /\
      length (RatingCounts s) = 5%nat /\
      fold_right Z.add 0%Z (RatingCounts s) =
        (fold_right Z.add 0%Z (RatingCounts s0) + Z.of_nat (length l))%Z /\
      forall (k : nat) (c0 : Z),
        RatingCounts s0 !! k = Some c0 ->
        RatingCounts s !! k = Some (c0 + bucket k l)%Z.
Proof.
  induction l as [|r l IH]; intros t0 s0 Hlen Hn Hmax Hcounts Hscores.
  - exists t0, s0. simpl. split; [reflexivity|]. split; [ring|].
    split; [lia|]. split; [exact Hlen|]. split; [lia|].
    intros k c0 Hk. rewrite Hk. f_equal. lia.
  - apply Forall_cons in Hscores as [Hr Hscores].
    cbn [length] in Hmax.
    pose proof (int_of_float_range _ Hr) as Hint.
    cbn [fold_left]. unfold stats_step at 2.
    rewrite (Int64Facts.add_small (TotalRatings s0) 1) by (int64_range; lia).
    rewrite (Int64Facts.sub_small _ 1) by (int64_range; lia).
    set (index := (Go.int_of_float (Rating.Score r) - 1)%Z).
    replace ((0 <=? index)%Z && (index <? 5)%Z) with true
      by (symmetry; rewrite andb_true_iff, Z.leb_le, Z.ltb_lt; unfold index; lia).
    set (counts := alter (fun c => Int64.add c 1) (Z.to_nat index) (RatingCounts s0)).
    set (last := if (LastRatingAt s0 <? Rating.Timestamp r)%Z
                 then Rating.Timestamp r else LastRatingAt s0).
    destruct (IH (t0 + Rating.Score r)
                 (mkStats (TotalRatings s0 + 1) (AverageScore s0) counts last))
      as [t [s [Hfold [Ht [Htot [Hlen' [Hsum Hk]]]]]]].
    + unfold counts. simpl. rewrite length_alter. exact Hlen.
    + simpl. lia.
    + simpl. lia.
    + simpl. unfold counts. apply Forall_alter.
      * eapply Forall_impl; [exact Hcounts|]. simpl. intros c Hc. lia.
      * intros c Hc1 Hc2. rewrite Forall_lookup in Hcounts.
        specialize (Hcounts _ _ Hc1). simpl in Hcounts.
        rewrite Int64Facts.add_small by (int64_range; lia). lia.
    + exact Hscores.
    + exists t, s. split; [exact Hfold|].
      split; [|split; [|split; [exact Hlen'|split]]].
      * rewrite Ht. cbn [map fold_right]. ring.
      * rewrite Htot. simpl. lia.
      * rewrite Hsum. simpl RatingCounts. unfold counts.
        rewrite (sum_alter (RatingCounts s0) (Z.to_nat index)).
        -- cbn [length]. lia.
        -- rewrite Hlen. unfold index. lia.
        -- intros c Hc. rewrite Forall_lookup in Hcounts.
           specialize (Hcounts _ _ Hc). simpl in Hcounts.
           apply Int64Facts.add_small. int64_range. lia.
      * intros k c0 Hc0.
        assert (Hc0le : (0 <= c0 <= TotalRatings s0)%Z).
        { rewrite Forall_lookup in Hcounts. exact (Hcounts _ _ Hc0). }
        cbn [List.filter].
        destruct (Go.int_of_float (Rating.Score r) =? Z.of_nat k + 1)%Z eqn:E.
        -- apply Z.eqb_eq in E.
           assert (Hidx : Z.to_nat index = k) by (unfold index; lia).
           rewrite (Hk k (c0 + 1)%Z).
           ++ f_equal. cbn [length]. lia.
           ++ simpl. unfold counts. rewrite Hidx, list_lookup_alter_eq, Hc0. simpl.
              rewrite Int64Facts.add_small by (int64_range; lia). reflexivity.
        -- apply Z.eqb_neq in E.
           assert (Hidx : Z.to_nat index <> k) by (unfold index; lia).
           apply Hk. simpl. unfold counts.
           rewrite list_lookup_alter_ne by exact Hidx. exact Hc0.
Qed.

Lemma sum_scores_bounds (l : list Rating.t) :
  Forall (fun r => 1 <= Rating.Score r <= 5) l ->
  inject_Z (Z.of_nat (length l)) <= sum_scores l <= 5 * inject_Z (Z.of_nat (length l)).
Proof.
  induction 1 as [|r l [H1 H5] _ [IH1 IH5]].
  - simpl. split; discriminate.
  - cbn [length map fold_right]. rewrite Nat2Z.inj_succ, <- Z.add_1_l, inject_Z_plus.
    split.
    + apply Qplus_le_compat; assumption.
    + eapply Qle_trans; [apply Qplus_le_compat; [exact H5 | exact IH5]|].
      apply Qle_lteq. right. ring.
Qed.

(** X10.  When a store has been filled by [Add] alone, [GetStats] of a
    target reports the ratings that [Add] accepted for it: their number,
    the mean of their scores, which lies between 1 and 5, and, for each of
    the five stars, how many scores have that integer part; the five counts
    add up to the number.  For a target with no rating it is the zero
    value. *)
Theorem GetStats_distribution (l : list Rating.t) (target : string) :
  (Z.of_nat (length l) <= Int64.max_int)%Z ->
  let store := fold_left (fun s r => (Add r s).1) l NewRatingStore in
  let rated :=
    List.filter (fun r => (Rating.IsValid r).1 && String.eqb (Rating.TargetID r) target) l in
  let stats := GetStats target store in
  GetByTarget target store = rated /\
  TotalRatings stats = Z.of_nat (length rated) /\
  (forall k : nat, (k < 5)%nat -> RatingCounts stats !! k = Some (bucket k rated)) /\
  fold_right Z.add 0%Z (RatingCounts stats) = TotalRatings stats /\
  (rated <> [] ->
   AverageScore stats == sum_scores rated / inject_Z (Z.of_nat (length rated)) /\
   1 <= AverageScore stats <= 5) /\
  (rated = [] -> stats = zero_stats).
Proof.
  intros Hmax store rated stats.
  assert (Hget : GetByTarget target store = rated).
  { unfold store. rewrite RatingFacts.GetByTarget_fold. reflexivity. }
  assert (Hvalid : Forall (fun r => 1 <= Rating.Score r <= 5) rated).
  { apply List.Forall_forall. intros r Hr. apply filter_In in Hr as [_ Hr].
    apply andb_true_iff in Hr as [Hr _].
    apply RatingFacts.IsValid_true in Hr. tauto. }
  assert (Hlen : (length rated <= length l)%nat) by apply List.filter_length_le.
  split; [exact Hget|].
  unfold stats, GetStats. rewrite Hget.
  destruct rated as [|r0 rated'] eqn:Hrated.
  { simpl. split; [reflexivity|]. split.
    - intros k Hk. do 5 (destruct k as [|k]; [reflexivity|]). lia.
    - split; [reflexivity|]. split; [congruence | reflexivity]. }
  rewrite <- Hrated in *.
  assert (Hpos : (0 < length rated)%nat) by (rewrite Hrated; simpl; lia).
  replace (length rated =? 0)%nat with false by (symmetry; apply Nat.eqb_neq; lia).
  destruct (stats_fold rated 0 zero_stats) as [t [s [Hfold [Ht [Htot [_ [Hsum Hk]]]]]]];
    try reflexivity; try exact Hvalid.
  { simpl. lia. }
  { repeat constructor; simpl; lia. }
  rewrite Hfold. cbn [TotalRatings RatingCounts AverageScore].
  simpl TotalRatings in Htot. rewrite Z.add_0_l in Htot.
  split; [exact Htot|]. split; [|split; [|split]].
  - intros k Hk5.
    assert (Hz : RatingCounts zero_stats !! k = Some 0%Z).
    { do 5 (destruct k as [|k]; [reflexivity|]). lia. }
    rewrite (Hk k 0%Z Hz). f_equal.
  - rewrite Hsum, Htot. reflexivity.
  - intros _.
    assert (Hmean : t / inject_Z (TotalRatings s) ==
                    sum_scores rated / inject_Z (Z.of_nat (length rated))).
    { rewrite Htot, Ht, Qplus_0_l. reflexivity. }
    split; [exact Hmean|]. rewrite Hmean.
    destruct (sum_scores_bounds rated Hvalid) as [Hlo Hhi].
    assert (Hn : 0 < inject_Z (Z.of_nat (length rated))).
    { unfold Qlt. simpl. lia. }
    split.
    + apply Qle_shift_div_l; [exact Hn|]. rewrite Qmult_1_l. exact Hlo.
    + apply Qle_shift_div_r; [exact Hn | exact Hhi].
  - intros Hnil. rewrite Hrated in Hnil. discriminate Hnil.
Qed.

End StatsFacts.

Module RatingServiceFacts.

Import RatingService.
Local Open Scope Q_scope.

Local Abbreviation sum_scores l := (fold_right Qplus 0 (map Rating.Score l)).
Local Abbreviation is_file r := (String.eqb (Rating.TargetType r) "file").
Local Abbreviation files l :=
  (List.filter (fun r => (Rating.IsValid r).1 && is_file r) l).
Local Abbreviation peers l :=
  (List.filter (fun r => (Rating.IsValid r).1 && negb (is_file r)) l).

(** The score of a rating made by [NewRating] is within the range. *)
Lemma NewRating_score (now : Z) (id raterID targetType targetID : string) (score : Q)
    (comment : string) :
  let r := Rating.NewRating now id raterID targetType targetID score comment in
  1 <= Rating.Score r <= 5 /\
  (1 <= score <= 5 -> Rating.Score r = score).
Proof.
  cbv zeta. unfold Rating.NewRating. cbn [Rating.Score].
  destruct (Float64.ltb score Rating.MinRating) eqn:E1.
  - apply Float64Facts.ltb_lt in E1.
    replace (Float64.ltb Rating.MaxRating Rating.MinRating) with false by reflexivity.
    split; [split; discriminate|]. intros [H _].
    exfalso. apply (Qlt_not_le _ _ E1). eapply Qle_trans; [|exact H]. discriminate.
  - apply Float64Facts.ltb_ge in E1.
    destruct (Float64.ltb Rating.MaxRating score) eqn:E2.
    + apply Float64Facts.ltb_lt in E2. split; [split; discriminate|]. intros [_ H].
      exfalso. apply (Qlt_not_le _ _ E2). eapply Qle_trans; [exact H|]. discriminate.
    + apply Float64Facts.ltb_ge in E2. split; [|reflexivity].
      split; [eapply Qle_trans; [|exact E1] | eapply Qle_trans; [exact E2|]]; discriminate.
Qed.

Lemma nonempty_of_length (s : string) : (8 <= String.length s)%nat -> s <> ""%string.
Proof. intros H ->. simpl in H. lia. Qed.

(** A rating made by [NewRating] for two different IDs of eight bytes or
    more, of type file or student, passes [IsValid]. *)
Lemma NewRating_valid (now : Z) (id raterID targetType targetID : string) (score : Q)
    (comment : string) :
  (8 <= String.length raterID)%nat -> (8 <= String.length targetID)%nat ->
  raterID <> targetID ->
  targetType = "file"%string \/ targetType = "student"%string ->
  (Rating.IsValid
     (Rating.NewRating now id raterID targetType targetID score comment)).1 = true.
Proof.
  intros Hr Ht Hne Hty.
  pose proof (NewRating_score now id raterID targetType targetID score comment) as [[H1 H5] _].
  unfold Rating.IsValid.
  change (Rating.RaterID (Rating.NewRating _ _ _ _ _ _ _)) with raterID.
  change (Rating.TargetID (Rating.NewRating now id raterID targetType targetID score comment))
    with targetID.
  change (Rating.TargetType (Rating.NewRating now id raterID targetType targetID score comment))
    with targetType.
  replace (String.eqb raterID "") with false
    by (symmetry; apply String.eqb_neq, nonempty_of_length, Hr).
  replace (String.eqb targetID "") with false
    by (symmetry; apply String.eqb_neq, nonempty_of_length, Ht).
  replace (negb (String.eqb targetType "file") && negb (String.eqb targetType "student"))
    with false by (destruct Hty as [-> | ->]; reflexivity).
  replace (Float64.ltb _ Rating.MinRating) with false
    by (symmetry; apply Float64Facts.ltb_ge; eapply Qle_trans; [|exact H1]; discriminate).
  replace (Float64.ltb Rating.MaxRating _) with false
    by (symmetry; apply Float64Facts.ltb_ge; eapply Qle_trans; [exact H5|]; discriminate).
  replace (String.eqb raterID targetID) with false
    by (symmetry; apply String.eqb_neq, Hne).
  reflexivity.
Qed.

Lemma score_check (score : Q) :
  1 <= score <= 5 ->
  Float64.ltb score MinRatingValue || Float64.ltb MaxRatingValue score = false.
Proof.
  intros [H1 H5]. apply orb_false_iff. split; apply Float64Facts.ltb_ge.
  - eapply Qle_trans; [|exact H1]. discriminate.
  - eapply Qle_trans; [exact H5|]. discriminate.
Qed.

Lemma generateRatingID_Some (now : Z) (raterID targetID : string) :
  (8 <= String.length raterID)%nat -> (8 <= String.length targetID)%nat ->
  generateRatingID now raterID targetID =
  Some ("rating-" ++ String.substring 0 8 raterID ++ "-" ++
        String.substring 0 8 targetID ++ "-" ++ Go.format_d now)%string.
Proof.
  intros Hr Ht. unfold generateRatingID.
  rewrite (HashFacts.slice_to_Some 8 raterID Hr), (HashFacts.slice_to_Some 8 targetID Ht).
  reflexivity.
Qed.

Lemma generateRatingID_None (now : Z) (raterID targetID : string) :
  (String.length raterID < 8)%nat \/ (String.length targetID < 8)%nat ->
  generateRatingID now raterID targetID = None.
Proof.
  intros H. unfold generateRatingID, Go.slice_to.
  destruct (8 <=? String.length raterID)%nat eqn:Er; [|reflexivity].
  destruct (8 <=? String.length targetID)%nat eqn:Et; [|reflexivity].
  apply Nat.leb_le in Er, Et. lia.
Qed.

(** What one pass of the consumer does, by the kind of the rating. *)
Lemma applyRating_invalid (now : Z) (r : Rating.t) (rs : t) :
  (Rating.IsValid r).1 = false -> (applyRating now r rs).1 = rs.
Proof.
  intros H. unfold applyRating. rewrite (RatingFacts.Add_invalid r _ H). reflexivity.
Qed.

Lemma applyRating_file (now : Z) (r : Rating.t) (rs : t) :
  (Rating.IsValid r).1 = true -> String.eqb (Rating.TargetType r) "file" = true ->
  (applyRating now r rs).1 =
  mk (RatingStore.Add r (ratingStore rs)).1 (reputationService rs) (ratingChan rs)
     (Int64.add (totalFileRatings rs) 1) (totalPeerRatings rs)
     (updateAverage (averageFileRating rs) (Int64.add (totalFileRatings rs) 1)
        (Rating.Score r))
     (averagePeerRating rs).
Proof.
  intros Hv Hty. unfold applyRating.
  rewrite (RatingFacts.Add_valid r _ Hv), Hty. reflexivity.
Qed.

Lemma applyRating_peer (now : Z) (r : Rating.t) (rs : t) :
  (Rating.IsValid r).1 = true -> String.eqb (Rating.TargetType r) "file" = false ->
  (applyRating now r rs).1 =
  mk (RatingStore.Add r (ratingStore rs)).1
     (ReputationService.RecordRating now (Rating.TargetID r) (Rating.Score r) <$>
        reputationService rs)
     (ratingChan rs) (totalFileRatings rs)
     (Int64.add (totalPeerRatings rs) 1) (averageFileRating rs)
     (updateAverage (averagePeerRating rs) (Int64.add (totalPeerRatings rs) 1)
        (Rating.Score r)).
Proof.
  intros Hv Hty. unfold applyRating.
  rewrite (RatingFacts.Add_valid r _ Hv), Hty. reflexivity.
Qed.

Lemma updateAverage_mean (average : Q) (total : Z) (score : Q) :
  (0 <= total < Int64.max_int)%Z ->
  updateAverage average (total + 1) score * inject_Z (total + 1) ==
  average * inject_Z total + score.
Proof.
  intros H. unfold updateAverage.
  rewrite Int64Facts.sub_small by (int64_range; lia).
  replace (total + 1 - 1)%Z with total by lia.
  rewrite Qmult_comm. apply Qmult_div_r, FileRatingFacts.inject_Z_nonzero. lia.
Qed.

Lemma process_queue_totals (queue : list Rating.t) :
  forall (clock : nat -> Z) (k : nat) (rs : t),
    (0 <= totalFileRatings rs)%Z -> (0 <= totalPeerRatings rs)%Z ->
    (totalFileRatings rs + Z.of_nat (length queue) <= Int64.max_int)%Z ->
    (totalPeerRatings rs + Z.of_nat (length queue) <= Int64.max_int)%Z ->
    let rs' := process_queue clock k queue rs in
    totalFileRatings rs' = (totalFileRatings rs + Z.of_nat (length (files queue)))%Z /\
    totalPeerRatings rs' = (totalPeerRatings rs + Z.of_nat (length (peers queue)))%Z /\
    averageFileRating rs' * inject_Z (totalFileRatings rs') ==
      averageFileRating rs * inject_Z (totalFileRatings rs) + sum_scores (files queue) /\
    averagePeerRating rs' * inject_Z (totalPeerRatings rs') ==
      averagePeerRating rs * inject_Z (totalPeerRatings rs) + sum_scores (peers queue) /\
    ratingChan rs' = ratingChan rs /\
    ratingStore rs' =
      fold_left (fun s r => (RatingStore.Add r s).1) queue (ratingStore rs).
Proof.
  induction queue as [|r queue IH]; intros clock k rs Hf Hp Hfmax Hpmax.
  - simpl. repeat split; try lia; ring.
  - cbn [length] in Hfmax, Hpmax. cbn [process_queue fold_left].
    destruct (Rating.IsValid r).1 eqn:Hv.
    + cbn [List.filter]. rewrite Hv. cbn [andb].
      destruct (String.eqb (Rating.TargetType r) "file") eqn:Ety; cbn [negb].
      * rewrite (applyRating_file _ _ _ Hv Ety).
        rewrite (Int64Facts.add_small (totalFileRatings rs) 1) by (int64_range; lia).
        match goal with |- context [process_queue clock (S k) queue ?st] =>
          destruct (IH clock (S k) st) as [H1 [H2 [H3 [H4 [H5 H6]]]]];
            cbn [totalFileRatings totalPeerRatings]; try lia
        end.
        cbn [totalFileRatings totalPeerRatings averageFileRating averagePeerRating
               ratingChan ratingStore] in *.
        split; [rewrite H1; cbn [length]; lia|]. split; [exact H2|].
        split; [|split; [exact H4 | split; [exact H5 | exact H6]]].
        rewrite H3, (updateAverage_mean (averageFileRating rs) (totalFileRatings rs)
                       (Rating.Score r) ltac:(lia)).
        cbn [map fold_right]. ring.
      * rewrite (applyRating_peer _ _ _ Hv Ety).
        rewrite (Int64Facts.add_small (totalPeerRatings rs) 1) by (int64_range; lia).
        match goal with |- context [process_queue clock (S k) queue ?st] =>
          destruct (IH clock (S k) st) as [H1 [H2 [H3 [H4 [H5 H6]]]]];
            cbn [totalFileRatings totalPeerRatings]; try lia
        end.
        cbn [totalFileRatings totalPeerRatings averageFileRating averagePeerRating
               ratingChan ratingStore] in *.
        split; [exact H1|]. split; [rewrite H2; cbn [length]; lia|].
        split; [exact H3 | split; [|split; [exact H5 | exact H6]]].
        rewrite H4, (updateAverage_mean (averagePeerRating rs) (totalPeerRatings rs)
                       (Rating.Score r) ltac:(lia)).
        cbn [map fold_right]. ring.
    + rewrite (applyRating_invalid _ _ _ Hv), (RatingFacts.Add_invalid _ _ Hv).
      cbn [List.filter fst]. rewrite Hv. cbn [andb].
      apply IH; lia.
Qed.

Lemma send_all (queue : list Rating.t) :
  forall rs,
    fold_left (fun rs r => send r rs) queue rs =
    mk (ratingStore rs) (reputationService rs) (ratingChan rs ++ queue)
       (totalFileRatings rs) (totalPeerRatings rs) (averageFileRating rs)
       (averagePeerRating rs).
Proof.
  induction queue as [|r queue IH]; intros rs; simpl.
  - rewrite app_nil_r. destruct rs; reflexivity.
  - rewrite IH. unfold send. simpl. rewrite <- app_assoc. reflexivity.
Qed.

(** X11.  When the consumer has applied the ratings submitted to a new
    service, the channel is empty, the store holds for every target the
    ratings that [IsValid] accepts, in the order of submission, and the
    global figures agree with them: the two counts are the numbers of
    accepted ratings of files and of peers, and each average times its
    count is the sum of the scores, so each average is the mean (in the
    exact arithmetic of this model of float64). *)
Theorem processRatings_totals
    (rep : option ReputationService.t) (queue : list Rating.t) (clock : nat -> Z) :
  (Z.of_nat (length queue) <= Int64.max_int)%Z ->
  let rs := fold_left (fun rs r => send r rs) queue (NewRatingService rep) in
  let rs' := processRatings clock rs in
  ratingChan rs' = [] /\
  totalFileRatings rs' = Z.of_nat (length (files queue)) /\
  totalPeerRatings rs' = Z.of_nat (length (peers queue)) /\
  averageFileRating rs' * inject_Z (totalFileRatings rs') == sum_scores (files queue) /\
  averagePeerRating rs' * inject_Z (totalPeerRatings rs') == sum_scores (peers queue) /\
  forall target,
    RatingStore.GetByTarget target (ratingStore rs') =
    List.filter (fun r => (Rating.IsValid r).1 && String.eqb (Rating.TargetID r) target)
      queue.
Proof.
  intros Hmax. cbv zeta. rewrite send_all. unfold processRatings, NewRatingService.
  cbn [ratingStore reputationService ratingChan totalFileRatings totalPeerRatings
         averageFileRating averagePeerRating app].
  match goal with |- context [process_queue clock 0 queue ?st] =>
    destruct (process_queue_totals queue clock 0%nat st) as [H1 [H2 [H3 [H4 [H5 H6]]]]];
      cbn [totalFileRatings totalPeerRatings]; try lia
  end.
  cbn [totalFileRatings totalPeerRatings averageFileRating averagePeerRating
         ratingChan ratingStore] in *.
  split; [exact H5|]. split; [rewrite H1; lia|]. split; [rewrite H2; lia|].
  split; [rewrite H3; ring|]. split; [rewrite H4; ring|].
  intros target. rewrite H6, RatingFacts.GetByTarget_fold. reflexivity.
Qed.

(** X12.  The check for an earlier rating looks at the store, not at the
    channel.  Two ratings of one file by one user, both submitted before
    the consumer runs, are both accepted and both end up in the store; the
    second is refused, as already rated, only when the first has been
    applied in between. *)
Theorem RateFile_twice (rs : t) (clock : nat -> Z)
    (nowID1 now1 nowID2 now2 : Z) (raterID fileCID : string)
    (score1 score2 : Q) (comment1 comment2 : string) :
  ratingChan rs = [] ->
  (8 <= String.length raterID)%nat -> (8 <= String.length fileCID)%nat ->
  raterID <> fileCID ->
  1 <= score1 <= 5 -> 1 <= score2 <= 5 ->
  RatingStore.HasRated raterID fileCID (ratingStore rs) = false ->
  exists (r1 r2 : Rating.t) (rs1 rs2 : t),
    RateFile nowID1 now1 raterID fileCID score1 comment1 rs = Accepted r1 rs1 /\
    RateFile nowID2 now2 raterID fileCID score2 comment2 rs1 = Accepted r2 rs2 /\
    Rating.RaterID r1 = raterID /\ Rating.RaterID r2 = raterID /\
    GetFileRatings fileCID (processRatings clock rs2) =
      GetFileRatings fileCID rs ++ [r1; r2] /\
    RateFile nowID2 now2 raterID fileCID score2 comment2 (processRatings clock rs1) =
      Rejected "user has already rated this file".
Proof.
  intros Hchan Hr Hc Hne Hs1 Hs2 Hnot.
  set (id1 := ("rating-" ++ String.substring 0 8 raterID ++ "-" ++
               String.substring 0 8 fileCID ++ "-" ++ Go.format_d nowID1)%string).
  set (id2 := ("rating-" ++ String.substring 0 8 raterID ++ "-" ++
               String.substring 0 8 fileCID ++ "-" ++ Go.format_d nowID2)%string).
  set (r1 := Rating.NewRating now1 id1 raterID "file" fileCID score1 comment1).
  set (r2 := Rating.NewRating now2 id2 raterID "file" fileCID score2 comment2).
  assert (Hv1 : (Rating.IsValid r1).1 = true)
    by (apply NewRating_valid; auto).
  assert (Hv2 : (Rating.IsValid r2).1 = true)
    by (apply NewRating_valid; auto).
  exists r1, r2, (send r1 rs), (send r2 (send r1 rs)).
  assert (E1 : RateFile nowID1 now1 raterID fileCID score1 comment1 rs =
               Accepted r1 (send r1 rs)).
  { unfold RateFile. rewrite (score_check _ Hs1), Hnot.
    rewrite (generateRatingID_Some _ _ _ Hr Hc). reflexivity. }
  assert (E2 : RateFile nowID2 now2 raterID fileCID score2 comment2 (send r1 rs) =
               Accepted r2 (send r2 (send r1 rs))).
  { unfold RateFile. rewrite (score_check _ Hs2).
    change (ratingStore (send r1 rs)) with (ratingStore rs). rewrite Hnot.
    rewrite (generateRatingID_Some _ _ _ Hr Hc). reflexivity. }
  split; [exact E1|]. split; [exact E2|]. split; [reflexivity|]. split; [reflexivity|].
  split.
  - unfold GetFileRatings, processRatings, send.
    cbn [ratingStore reputationService ratingChan totalFileRatings totalPeerRatings
           averageFileRating averagePeerRating].
    rewrite Hchan. cbn [app process_queue].
    rewrite (applyRating_file _ r1 _ Hv1 eq_refl). cbn [ratingStore].
    rewrite (applyRating_file _ r2 _ Hv2 eq_refl). cbn [ratingStore].
    rewrite !RatingFacts.GetByTarget_Add, Hv1, Hv2.
    change (Rating.TargetID r1) with fileCID. change (Rating.TargetID r2) with fileCID.
    rewrite String.eqb_refl, <- app_assoc. reflexivity.
  - unfold RateFile. rewrite (score_check _ Hs2).
    replace (RatingStore.HasRated raterID fileCID
               (ratingStore (processRatings clock (send r1 rs)))) with true;
      [reflexivity|].
    symmetry. unfold processRatings, send.
    cbn [ratingStore reputationService ratingChan totalFileRatings totalPeerRatings
           averageFileRating averagePeerRating].
    rewrite Hchan. cbn [app process_queue].
    rewrite (applyRating_file _ r1 _ Hv1 eq_refl). cbn [ratingStore].
    unfold RatingStore.HasRated. rewrite RatingFacts.GetByTarget_Add, Hv1.
    change (Rating.TargetID r1) with fileCID. rewrite String.eqb_refl.
    rewrite existsb_app. cbn [andb existsb]. change (Rating.RaterID r1) with raterID.
    rewrite String.eqb_refl. apply orb_true_iff. right. reflexivity.
Qed.

(** X13.  A rating of a peer reaches the reputation of that peer.  Once the
    rating has been applied and the reputation service has processed its
    events, the stored score of the rated peer has gone through
    [UpdateReputation] with +0.3 for a score of 4 or more and with -0.2 for
    a score of 2 or less; for a score in between the peer is left as it
    was. *)
Theorem RatePeer_reputation (rep : ReputationService.t) (clock : nat -> Z)
    (nowID now : Z) (raterID targetPeerID : string) (score : Q) (comment : string)
    (s : Student.t) :
  ReputationService.eventChan rep = [] ->
  ReputationService.peerRegistry rep !! targetPeerID = Some s ->
  (8 <= String.length raterID)%nat -> (8 <= String.length targetPeerID)%nat ->
  raterID <> targetPeerID ->
  1 <= score <= 5 ->
  exists (r : Rating.t) (rs1 : t) (rep' : ReputationService.t),
    RatePeer nowID now raterID targetPeerID score comment (NewRatingService (Some rep)) =
      Accepted r rs1 /\
    reputationService (processRatings clock rs1) = Some rep' /\
    GetPeerRatings targetPeerID (processRatings clock rs1) = [r] /\
    ReputationService.peerRegistry (ReputationService.processEvents rep') !! targetPeerID =
      Some (if Float64.leb 4.0 score
            then Student.UpdateReputation ReputationService.GoodRatingBonus s
            else if Float64.leb score 2.0
                 then Student.UpdateReputation (- ReputationService.BadRatingPenalty) s
                 else s).
Proof.
  intros Hchan Hs Hr Ht Hne Hscore.
  set (id := ("rating-" ++ String.substring 0 8 raterID ++ "-" ++
              String.substring 0 8 targetPeerID ++ "-" ++ Go.format_d nowID)%string).
  set (r := Rating.NewRating now id raterID "student" targetPeerID score comment).
  assert (Hv : (Rating.IsValid r).1 = true) by (apply NewRating_valid; auto).
  assert (Hsc : Rating.Score r = score)
    by (apply (NewRating_score now id raterID "student" targetPeerID score comment), Hscore).
  exists r, (send r (NewRatingService (Some rep))),
         (ReputationService.RecordRating (clock 0%nat) targetPeerID score rep).
  split.
  { unfold RatePeer. rewrite (score_check _ Hscore).
    replace (String.eqb raterID targetPeerID) with false
      by (symmetry; apply String.eqb_neq, Hne).
    replace (RatingStore.HasRated raterID targetPeerID
               (ratingStore (NewRatingService (Some rep)))) with false by reflexivity.
    rewrite (generateRatingID_Some _ _ _ Hr Ht). reflexivity. }
  unfold processRatings, send, NewRatingService.
  cbn [ratingStore reputationService ratingChan totalFileRatings totalPeerRatings
         averageFileRating averagePeerRating app process_queue].
  rewrite (applyRating_peer _ r _ Hv eq_refl).
  cbn [ratingStore reputationService]. rewrite Hsc.
  change (Rating.TargetID r) with targetPeerID.
  split; [reflexivity|]. split.
  { unfold GetPeerRatings. cbn [ratingStore].
    rewrite RatingFacts.GetByTarget_Add, Hv.
    change (Rating.TargetID r) with targetPeerID. rewrite String.eqb_refl.
    reflexivity. }
  unfold ReputationService.RecordRating, ReputationService.processEvents.
  destruct (Float64.leb 4.0 score) eqn:E4.
  - unfold ReputationService.send. cbn. rewrite Hchan. cbn.
    unfold ReputationService.applyEvent, PeerRegistry.Get. cbn. rewrite Hs.
    cbn. apply lookup_insert_eq.
  - destruct (Float64.leb score 2.0) eqn:E2.
    + unfold ReputationService.send. cbn. rewrite Hchan. cbn.
      unfold ReputationService.applyEvent, PeerRegistry.Get. cbn. rewrite Hs.
      cbn. apply lookup_insert_eq.
    + rewrite Hchan. cbn. exact Hs.
Qed.

(** X14.  [generateRatingID] slices the first eight bytes off both IDs.
    With a score in range and no earlier rating, [RateFile] and [RatePeer]
    panic when either ID has fewer than eight bytes, and return the rating
    when both have eight or more; the peer IDs that [GeneratePeerID] makes
    have 21 bytes and the CIDs of [NewAcademicFile] 64. *)
Theorem RateFile_short_id (rs : t) (nowID now : Z) (raterID targetID : string)
    (score : Q) (comment : string) :
  1 <= score <= 5 ->
  RatingStore.HasRated raterID targetID (ratingStore rs) = false ->
  raterID <> targetID ->
  ((String.length raterID < 8)%nat \/ (String.length targetID < 8)%nat ->
   RateFile nowID now raterID targetID score comment rs = Panicked /\
   RatePeer nowID now raterID targetID score comment rs = Panicked) /\
  ((8 <= String.length raterID)%nat /\ (8 <= String.length targetID)%nat ->
   (exists r rs', RateFile nowID now raterID targetID score comment rs = Accepted r rs') /\
   (exists r rs', RatePeer nowID now raterID targetID score comment rs = Accepted r rs')) /\
  (forall name ip port,
     exists id, Utils.GeneratePeerID name ip port = Some id /\
                String.length id = 21%nat) /\
  (forall t name owner size type content,
     String.length
       (AcademicFile.CID (AcademicFile.NewAcademicFile t name owner size type content)) =
     64%nat).
Proof.
  intros Hscore Hnot Hne.
  assert (Hneb : String.eqb raterID targetID = false) by (apply String.eqb_neq, Hne).
  split; [|split; [|split]].
  - intros Hshort. unfold RateFile, RatePeer.
    rewrite (score_check _ Hscore), Hnot, Hneb, (generateRatingID_None _ _ _ Hshort).
    split; reflexivity.
  - intros [Hr Ht]. unfold RateFile, RatePeer.
    rewrite (score_check _ Hscore), Hnot, Hneb, (generateRatingID_Some _ _ _ Hr Ht).
    split; eexists; eexists; reflexivity.
  - intros name ip port. unfold Utils.GeneratePeerID, Utils.HashString.
    set (data := SHA256.bytes_of_string _).
    assert (H64 : String.length (Utils.HashBytes data) = 64%nat)
      by apply (HashFacts.HashBytes_length data).
    rewrite HashFacts.slice_to_Some by (rewrite H64; lia).
    eexists. split; [reflexivity|].
    rewrite HashFacts.length_append, HashFacts.substring_length by (rewrite H64; lia).
    reflexivity.
  - intros t0 name owner size type content.
    apply (HashFacts.HashBytes_length content).
Qed.

End RatingServiceFacts.

(** A rating of oneself is refused; a rating by another peer is stored. *)
Lemma Add_outcome_witness :
  (RatingStore.Add rating_self RatingStore.NewRatingStore =
     (RatingStore.NewRatingStore, Some "Cannot rate yourself"%string) /\
   "Cannot rate yourself"%string <> ""%string) /\
  RatingStore.HasRated "peer-b" "peer-a"
    (RatingStore.Add rating_good RatingStore.NewRatingStore).1 = true.
Proof.
  split.
  - exact (proj1 (RatingFacts.Add_outcome rating_self RatingStore.NewRatingStore) eq_refl).
  - exact (proj1 (proj2 (proj2 (proj2 (proj2
             (proj2 (RatingFacts.Add_outcome rating_good RatingStore.NewRatingStore)
                eq_refl)))))).
Defined.

(** Of the four ratings, two are ratings of peer-a that the store accepts:
    4.5 and 2.0. *)
Lemma GetStats_distribution_witness :
  let stats :=
    RatingStore.GetStats "peer-a"
      (fold_left (fun s r => (RatingStore.Add r s).1) ratings_a RatingStore.NewRatingStore) in
  RatingStore.TotalRatings stats = 2%Z /\
  RatingStore.RatingCounts stats = [0; 1; 0; 1; 0]%Z /\
  (RatingStore.AverageScore stats == 3.25)%Q.
Proof.
  cbv zeta.
  assert (Hmax : (Z.of_nat (length ratings_a) <= Int64.max_int)%Z)
    by (vm_compute; discriminate).
  destruct (StatsFacts.GetStats_distribution ratings_a "peer-a" Hmax)
    as [_ [Htot [_ [_ [Havg _]]]]].
  split; [rewrite Htot; reflexivity|]. split; [vm_compute; reflexivity|].
  destruct Havg as [Havg _]; [discriminate|].
  rewrite Havg. vm_compute. reflexivity.
Defined.

Lemma processRatings_totals_witness :
  let rs' :=
    RatingService.processRatings (fun k => Z.of_nat k)
      (fold_left (fun rs r => RatingService.send r rs) ratings_a
         (RatingService.NewRatingService None)) in
  RatingService.totalFileRatings rs' = 1%Z /\
  RatingService.totalPeerRatings rs' = 2%Z /\
  (RatingService.averagePeerRating rs' * inject_Z 2 == 6.5)%Q.
Proof.
  cbv zeta.
  assert (Hmax : (Z.of_nat (length ratings_a) <= Int64.max_int)%Z)
    by (vm_compute; discriminate).
  destruct (RatingServiceFacts.processRatings_totals None ratings_a
              (fun k => Z.of_nat k) Hmax)
    as [_ [Hf [Hp [_ [Hpa _]]]]].
  split; [rewrite Hf; reflexivity|]. split; [rewrite Hp; reflexivity|].
  rewrite Hp in Hpa. rewrite Hpa. vm_compute. reflexivity.
Defined.

(** Two ratings of one file by peer-alice, submitted one after the other. *)
Lemma RateFile_twice_witness :
  exists (r1 r2 : Rating.t) (rs1 rs2 : RatingService.t),
    RatingService.RateFile 1 2 "peer-alice" (AcademicFile.CID notes_abc) 5 ""
      (RatingService.NewRatingService None) = RatingService.Accepted r1 rs1 /\
    RatingService.RateFile 3 4 "peer-alice" (AcademicFile.CID notes_abc) 1 "" rs1 =
      RatingService.Accepted r2 rs2 /\
    RatingService.GetFileRatings (AcademicFile.CID notes_abc)
      (RatingService.processRatings (fun k => Z.of_nat k) rs2) = [r1; r2] /\
    RatingService.RateFile 3 4 "peer-alice" (AcademicFile.CID notes_abc) 1 ""
      (RatingService.processRatings (fun k => Z.of_nat k) rs1) =
      RatingService.Rejected "user has already rated this file".
Proof.
  assert (Hc : (8 <= String.length (AcademicFile.CID notes_abc))%nat)
    by (vm_compute; lia).
  assert (Hr : (8 <= String.length "peer-alice")%nat) by (vm_compute; lia).
  assert (Hne : "peer-alice"%string <> AcademicFile.CID notes_abc)
    by (vm_compute; discriminate).
  assert (H5 : (1 <= 5 <= 5)%Q) by (split; discriminate).
  assert (H1 : (1 <= 1 <= 5)%Q) by (split; discriminate).
  destruct (RatingServiceFacts.RateFile_twice (RatingService.NewRatingService None)
              (fun k => Z.of_nat k) 1 2 3 4 "peer-alice" (AcademicFile.CID notes_abc)
              5 1 "" "" eq_refl Hr Hc Hne H5 H1 eq_refl)
    as [r1 [r2 [rs1 [rs2 [E1 [E2 [_ [_ [E3 E4]]]]]]]]].
  exists r1, r2, rs1, rs2. repeat split; assumption.
Defined.

(** peer-bobby rates peer-alice 5: her score goes from 5.0 to 5.3. *)
Lemma RatePeer_reputation_witness :
  exists (r : Rating.t) (rs1 : RatingService.t) (rep' : ReputationService.t),
    RatingService.RatePeer 1 2 "peer-bobby" "peer-alice" 5 ""
      (RatingService.NewRatingService (Some service_alice)) =
      RatingService.Accepted r rs1 /\
    RatingService.reputationService
      (RatingService.processRatings (fun k => Z.of_nat k) rs1) = Some rep' /\
    ReputationService.peerRegistry (ReputationService.processEvents rep')
      !! "peer-alice"%string =
      Some (Student.set_ReputationScore (5.0 + 0.3)%Q alice).
Proof.
  assert (Hs : ReputationService.peerRegistry service_alice !! "peer-alice"%string =
               Some alice) by (vm_compute; reflexivity).
  assert (Hr : (8 <= String.length "peer-bobby")%nat) by (vm_compute; lia).
  assert (Ht : (8 <= String.length "peer-alice")%nat) by (vm_compute; lia).
  assert (Hne : "peer-bobby"%string <> "peer-alice"%string) by discriminate.
  assert (H5 : (1 <= 5 <= 5)%Q) by (split; discriminate).
  destruct (RatingServiceFacts.RatePeer_reputation service_alice (fun k => Z.of_nat k)
              1 2 "peer-bobby" "peer-alice" 5 "" alice eq_refl Hs Hr Ht Hne H5)
    as [r [rs1 [rep' [E1 [E2 [_ E3]]]]]].
  exists r, rs1, rep'. split; [exact E1|]. split; [exact E2|]. exact E3.
Defined.

(** The IDs of the other scenarios, peer-a and peer-b, have six bytes. *)
Lemma RateFile_short_id_witness :
  RatingService.RateFile 1 2 "peer-b" "peer-a" 4 "" (RatingService.NewRatingService None) =
    RatingService.Panicked /\
  RatingService.RatePeer 1 2 "peer-b" "peer-a" 4 "" (RatingService.NewRatingService None) =
    RatingService.Panicked.
Proof.
  assert (H4 : (1 <= 4 <= 5)%Q) by (split; discriminate).
  assert (Hne : "peer-b"%string <> "peer-a"%string) by discriminate.
  apply (proj1 (RatingServiceFacts.RateFile_short_id
                  (RatingService.NewRatingService None) 1 2 "peer-b" "peer-a" 4 ""
                  H4 eq_refl Hne)).
  left. vm_compute. lia.
Defined.

(** ** The rankings *)

Module SortFacts.

Import BubbleSort.
Local Open Scope Q_scope.

Section Sorting.

Context {A : Type} (key : A -> Q).

(** [x] comes before [y] in a ranking: its key is not lower. *)
Local Abbreviation above x y := (key y <= key x).

Lemma pass_perm (n : nat) : forall l, Permutation (pass key n l) l.
Proof.
  induction n as [|n IH]; intros l; [destruct l; reflexivity|].
  destruct l as [|x [|y rest]]; try reflexivity.
  simpl. destruct (Float64.ltb (key x) (key y)).
  - rewrite IH. apply perm_swap.
  - rewrite IH. reflexivity.
Qed.

Lemma pass_length (n : nat) (l : list A) : length (pass key n l) = length l.
Proof. apply Permutation_length, pass_perm. Qed.

(** A pass over a whole slice leaves an element with the lowest key at the
    end. *)
Lemma pass_last (n : nat) :
  forall l, l <> [] -> (length l - 1 <= n)%nat ->
    exists (l' : list A) (m : A),
      pass key n l = l' ++ [m] /\ Forall (fun x => above x m) l'.
Proof.
  induction n as [|n IH]; intros l Hne Hlen.
  - destruct l as [|x [|y rest]]; [contradiction | | simpl in Hlen; lia].
    exists [], x. split; [reflexivity | constructor].
  - destruct l as [|x [|y rest]]; [contradiction | |].
    + exists [], x. split; [reflexivity | constructor].
    + simpl. destruct (Float64.ltb (key x) (key y)) eqn:E.
      * apply Float64Facts.ltb_lt in E.
        destruct (IH (x :: rest)) as [l' [m [Hp Hall]]];
          [discriminate | simpl in *; lia |].
        exists (y :: l'), m. split; [rewrite Hp; reflexivity|].
        constructor; [|exact Hall].
        assert (Hm : key m <= key x).
        { assert (Hin : In x (l' ++ [m])).
          { apply (Permutation_in (l := x :: rest)); [|left; reflexivity].
            symmetry. rewrite <- Hp. apply pass_perm. }
          apply in_app_or in Hin as [Hin|[->|[]]]; [|apply Qle_refl].
          rewrite List.Forall_forall in Hall. exact (Hall x Hin). }
        eapply Qle_trans; [exact Hm|]. apply Qlt_le_weak, E.
      * apply Float64Facts.ltb_ge in E.
        destruct (IH (y :: rest)) as [l' [m [Hp Hall]]];
          [discriminate | simpl in *; lia |].
        exists (x :: l'), m. split; [rewrite Hp; reflexivity|].
        constructor; [|exact Hall].
        assert (Hm : key m <= key y).
        { assert (Hin : In y (l' ++ [m])).
          { apply (Permutation_in (l := y :: rest)); [|left; reflexivity].
            symmetry. rewrite <- Hp. apply pass_perm. }
          apply in_app_or in Hin as [Hin|[->|[]]]; [|apply Qle_refl].
          rewrite List.Forall_forall in Hall. exact (Hall y Hin). }
        eapply Qle_trans; [exact Hm | exact E].
Qed.

(** A pass of fewer comparisons than the front part has elements does not
    reach the rest. *)
Lemma pass_front (n : nat) :
  forall l1 l2, (n < length l1)%nat -> pass key n (l1 ++ l2) = pass key n l1 ++ l2.
Proof.
  induction n as [|n IH]; intros l1 l2 Hn.
  - destruct l1, l2; reflexivity.
  - destruct l1 as [|x [|y rest]]; simpl in Hn; try lia.
    simpl. destruct (Float64.ltb (key x) (key y)); simpl; f_equal.
    + apply (IH (x :: rest) l2). simpl. lia.
    + apply (IH (y :: rest) l2). simpl. lia.
Qed.

(** The outer loop: when its last [i] elements are in order and below the
    others, the passes that remain put the whole slice in order. *)
Lemma outer_sorted (passes : nat) :
  forall (i : nat) (front back : list A),
    length back = i -> (length front = passes + 1)%nat ->
    StronglySorted (fun x y => above x y) back ->
    Forall (fun x => Forall (fun y => above x y) back) front ->
    StronglySorted (fun x y => above x y) (outer key passes i (front ++ back)).
Proof.
  induction passes as [|passes IH]; intros i front back Hi Hfront Hback Hall.
  - simpl. destruct front as [|x [|]]; simpl in Hfront; try lia.
    simpl. constructor; [exact Hback|].
    apply Forall_cons in Hall as [Hx _]. exact Hx.
  - simpl. rewrite List.length_app, Hi.
    replace (length front + i - i - 1)%nat with (length front - 1)%nat by lia.
    rewrite pass_front by lia.
    destruct (pass_last (length front - 1) front) as [l' [m [Hp Hm]]];
      [destruct front; [simpl in Hfront; lia | discriminate] | lia |].
    rewrite Hp, <- app_assoc. simpl.
    assert (Hperm : Permutation (l' ++ [m]) front)
      by (rewrite <- Hp; apply pass_perm).
    assert (Hall' : Forall (fun x => Forall (fun y => above x y) back) (l' ++ [m])).
    { rewrite List.Forall_forall in Hall |- *. intros x Hx. apply Hall.
      eapply Permutation_in; [exact Hperm | exact Hx]. }
    apply Forall_app in Hall' as [Hl' Hmback].
    apply IH.
    + simpl. lia.
    + apply Permutation_length in Hperm. rewrite List.length_app in Hperm.
      simpl in Hperm. lia.
    + constructor; [exact Hback|]. apply Forall_cons in Hmback as [H _]. exact H.
    + rewrite List.Forall_forall in Hl', Hm |- *. intros x Hx.
      constructor; [exact (Hm x Hx) | exact (Hl' x Hx)].
Qed.

Lemma outer_perm (passes : nat) :
  forall i l, Permutation (outer key passes i l) l.
Proof.
  induction passes as [|passes IH]; intros i l; simpl; [reflexivity|].
  rewrite IH. apply pass_perm.
Qed.

Lemma sort_perm (l : list A) : Permutation (sort key l) l.
Proof. apply outer_perm. Qed.

Lemma sort_sorted (l : list A) :
  StronglySorted (fun x y => above x y) (sort key l).
Proof.
  unfold sort. destruct l as [|x l]; [constructor|].
  rewrite <- (app_nil_r (x :: l)) at 2.
  apply outer_sorted.
  - reflexivity.
  - simpl. lia.
  - constructor.
  - apply List.Forall_forall. intros y _. constructor.
Qed.

(** What [top] returns of a ranking. *)
Lemma top_spec (limit : Z) (l : list A) :
  ((0 <= limit)%Z ->
   top limit l = Some (firstn (Z.to_nat limit) l) /\
   length (firstn (Z.to_nat limit) l) = Nat.min (Z.to_nat limit) (length l)) /\
  ((limit < 0)%Z -> top limit l = None).
Proof.
  unfold top. split.
  - intros H. split; [|apply List.length_firstn].
    destruct (Z.of_nat (length l) <? limit)%Z eqn:E.
    + apply Z.ltb_lt in E.
      replace (Z.of_nat (length l) <? 0)%Z with false by (symmetry; apply Z.ltb_ge; lia).
      rewrite Nat2Z.id, !firstn_all2 by lia. reflexivity.
    + replace (limit <? 0)%Z with false by (symmetry; apply Z.ltb_ge; lia). reflexivity.
  - intros H.
    replace (Z.of_nat (length l) <? limit)%Z with false by (symmetry; apply Z.ltb_ge; lia).
    replace (limit <? 0)%Z with true by (symmetry; apply Z.ltb_lt; lia). reflexivity.
Qed.

End Sorting.

End SortFacts.

Module RankingFacts.

Local Open Scope Q_scope.

(** In a ranking cut after [k] places, nobody left out has a higher key
    than anybody kept. *)
Lemma sorted_cut {A : Type} (key : A -> Q) (k : nat) :
  forall l, StronglySorted (fun x y => key y <= key x) l ->
    forall p q, In p (firstn k l) -> In q (skipn k l) -> key q <= key p.
Proof.
  induction k as [|k IH]; intros l Hs p q Hp Hq; [contradiction|].
  destruct l as [|x l]; [contradiction|].
  apply StronglySorted_inv in Hs as [Hs Hx].
  simpl in Hp, Hq. destruct Hp as [->|Hp].
  - rewrite List.Forall_forall in Hx. apply Hx.
    rewrite <- (firstn_skipn k l). apply in_or_app. right. exact Hq.
  - exact (IH l Hs p q Hp Hq).
Qed.

(** X15.  [GetTopContributors] and [GetTopRatedFiles] return the first
    [limit] places of a ranking of all the peers, by stored score, and of
    all the files, by average rating: the ranking holds everyone once, no
    place has a higher key than the place before it, and so nobody left out
    has a higher key than anybody returned.  A limit above the number of
    entries returns them all; a negative limit panics. *)
Theorem rankings_sorted (limit : Z) (rs : ReputationService.t)
    (fileIndex : gmap string AcademicFile.t) :
  (exists ranking : list Student.t,
     Permutation ranking (PeerRegistry.GetAllPeers (ReputationService.peerRegistry rs)) /\
     StronglySorted
       (fun x y => Student.ReputationScore y <= Student.ReputationScore x) ranking /\
     ((0 <= limit)%Z ->
      ReputationService.GetTopContributors limit rs =
        Some (firstn (Z.to_nat limit) ranking) /\
      length (firstn (Z.to_nat limit) ranking) =
        Nat.min (Z.to_nat limit) (size (ReputationService.peerRegistry rs)) /\
      forall p q, In p (firstn (Z.to_nat limit) ranking) ->
                  In q (skipn (Z.to_nat limit) ranking) ->
                  Student.ReputationScore q <= Student.ReputationScore p) /\
     ((limit < 0)%Z -> ReputationService.GetTopContributors limit rs = None)) /\
  (exists ranking : list AcademicFile.t,
     Permutation ranking (FileIndex.GetAllFiles fileIndex) /\
     StronglySorted
       (fun x y => AcademicFile.AverageRating y <= AcademicFile.AverageRating x) ranking /\
     ((0 <= limit)%Z ->
      RatingService.GetTopRatedFiles fileIndex limit =
        Some (firstn (Z.to_nat limit) ranking) /\
      length (firstn (Z.to_nat limit) ranking) =
        Nat.min (Z.to_nat limit) (size fileIndex) /\
      forall p q, In p (firstn (Z.to_nat limit) ranking) ->
                  In q (skipn (Z.to_nat limit) ranking) ->
                  AcademicFile.AverageRating q <= AcademicFile.AverageRating p) /\
     ((limit < 0)%Z -> RatingService.GetTopRatedFiles fileIndex limit = None)).
Proof.
  split.
  - set (peers := PeerRegistry.GetAllPeers (ReputationService.peerRegistry rs)).
    exists (BubbleSort.sort Student.ReputationScore peers).
    pose proof (SortFacts.sort_perm Student.ReputationScore peers) as Hperm.
    pose proof (SortFacts.sort_sorted Student.ReputationScore peers) as Hsorted.
    destruct (SortFacts.top_spec limit (BubbleSort.sort Student.ReputationScore peers))
      as [Hpos Hneg].
    split; [exact Hperm|]. split; [exact Hsorted|]. split; [|exact Hneg].
    intros Hl. destruct (Hpos Hl) as [Htop Hlen].
    split; [exact Htop|]. split; [|apply sorted_cut, Hsorted].
    rewrite Hlen, (Permutation_length Hperm). unfold peers, PeerRegistry.GetAllPeers.
    rewrite length_fmap, length_map_to_list. reflexivity.
  - set (files := FileIndex.GetAllFiles fileIndex).
    exists (BubbleSort.sort AcademicFile.AverageRating files).
    pose proof (SortFacts.sort_perm AcademicFile.AverageRating files) as Hperm.
    pose proof (SortFacts.sort_sorted AcademicFile.AverageRating files) as Hsorted.
    destruct (SortFacts.top_spec limit (BubbleSort.sort AcademicFile.AverageRating files))
      as [Hpos Hneg].
    split; [exact Hperm|]. split; [exact Hsorted|]. split; [|exact Hneg].
    intros Hl. destruct (Hpos Hl) as [Htop Hlen].
    split; [exact Htop|]. split; [|apply sorted_cut, Hsorted].
    rewrite Hlen, (Permutation_length Hperm). unfold files, FileIndex.GetAllFiles.
    rewrite length_fmap, length_map_to_list. reflexivity.
Qed.

End RankingFacts.

(** ** What reputation events do *)

Module EventFacts.

Import ReputationService.
Local Open Scope Q_scope.

(** [UpdateReputation] writes the score and the leecher flag only. *)
Lemma UpdateReputation_fields (delta : Q) (s : Student.t) :
  let s' := Student.UpdateReputation delta s in
  Student.ID s' = Student.ID s /\ Student.Name s' = Student.Name s /\
  Student.IsOnline s' = Student.IsOnline s /\ Student.LastSeen s' = Student.LastSeen s /\
  Student.TotalUploads s' = Student.TotalUploads s /\
  Student.TotalDownloads s' = Student.TotalDownloads s /\
  Student.IPAddress s' = Student.IPAddress s /\ Student.Port s' = Student.Port s.
Proof.
  cbv zeta. unfold Student.UpdateReputation, Student.checkLeecherStatus.
  repeat (match goal with |- context [if ?b then _ else _] => destruct b end);
    repeat split.
Qed.

Local Abbreviation registered rs e :=
  (match peerRegistry rs !! StudentID e with Some _ => true | None => false end).

Lemma applyEvent_history (e : ReputationEvent) (rs : t) :
  eventHistory (applyEvent e rs) =
  eventHistory rs ++ (if registered rs e then [e] else []).
Proof.
  unfold applyEvent, PeerRegistry.Get.
  destruct (peerRegistry rs !! StudentID e); simpl; [reflexivity|].
  rewrite app_nil_r. reflexivity.
Qed.

(** An event keeps the set of registered IDs. *)
Lemma applyEvent_registered (e : ReputationEvent) (rs : t) (id : string) :
  is_Some (peerRegistry (applyEvent e rs) !! id) <-> is_Some (peerRegistry rs !! id).
Proof.
  unfold applyEvent, PeerRegistry.Get.
  destruct (peerRegistry rs !! StudentID e) as [s|] eqn:Hs; [|reflexivity].
  simpl. destruct (decide (StudentID e = id)) as [<-|Hne].
  - rewrite lookup_insert_eq, Hs. split; intros _; eexists; reflexivity.
  - rewrite lookup_insert_ne by exact Hne. reflexivity.
Qed.

Lemma registered_applyEvent (e e' : ReputationEvent) (rs : t) :
  registered (applyEvent e rs) e' = registered rs e'.
Proof.
  pose proof (applyEvent_registered e rs (StudentID e')) as H.
  destruct (peerRegistry (applyEvent e rs) !! StudentID e') as [x|],
           (peerRegistry rs !! StudentID e') as [y|]; try reflexivity.
  - destruct (proj1 H ltac:(eexists; reflexivity)) as [? Hx]. discriminate Hx.
  - destruct (proj2 H ltac:(eexists; reflexivity)) as [? Hx]. discriminate Hx.
Qed.

Lemma apply_all_history (events : list ReputationEvent) :
  forall rs,
    eventHistory (apply_all events rs) =
    eventHistory rs ++ List.filter (fun e => registered rs e) events.
Proof.
  induction events as [|e events IH]; intros rs; simpl.
  - rewrite app_nil_r. reflexivity.
  - unfold apply_all in IH. rewrite IH, applyEvent_history, <- app_assoc. f_equal.
    rewrite (List.filter_ext _ (fun e' => registered rs e'))
      by (intros e'; apply registered_applyEvent).
    destruct (registered rs e); reflexivity.
Qed.

Lemma apply_all_chan (events : list ReputationEvent) :
  forall rs, eventChan (apply_all events rs) = eventChan rs.
Proof.
  induction events as [|e events IH]; intros rs; [reflexivity|].
  simpl. unfold apply_all in IH. rewrite IH. unfold applyEvent.
  destruct (PeerRegistry.Get _ _); reflexivity.
Qed.

Lemma filter_registered (rs : t) (studentID : string) (events : list ReputationEvent) :
  List.filter (fun e => String.eqb (StudentID e) studentID)
    (List.filter (fun e => registered rs e) events) =
  match peerRegistry rs !! studentID with
  | Some _ => List.filter (fun e => String.eqb (StudentID e) studentID) events
  | None => []
  end.
Proof.
  induction events as [|e events IH]; cbn [List.filter].
  - destruct (peerRegistry rs !! studentID); reflexivity.
  - destruct (String.eqb (StudentID e) studentID) eqn:E.
    + apply String.eqb_eq in E. rewrite E.
      destruct (peerRegistry rs !! studentID) eqn:Hs.
      * cbn [List.filter]. rewrite E, String.eqb_refl, IH. reflexivity.
      * exact IH.
    + destruct (peerRegistry rs !! StudentID e).
      * cbn [List.filter]. rewrite E. exact IH.
      * exact IH.
Qed.

(** X16.  The history of the reputation service only grows, by the events
    applied: processing the channel appends to it, in order, the queued
    events whose peer is registered and drops the others.  So
    [GetEventHistory] of a registered peer gains that peer's queued events,
    and that of an unknown ID stays empty of them. *)
Theorem history_appends (rs : t) (studentID : string) :
  eventChan (processEvents rs) = [] /\
  eventHistory (processEvents rs) =
    eventHistory rs ++ List.filter (fun e => registered rs e) (eventChan rs) /\
  GetEventHistory studentID (processEvents rs) =
    GetEventHistory studentID rs ++
    (match peerRegistry rs !! studentID with
     | Some _ => List.filter (fun e => String.eqb (StudentID e) studentID) (eventChan rs)
     | None => []
     end).
Proof.
  assert (Hhist : eventHistory (processEvents rs) =
                  eventHistory rs ++ List.filter (fun e => registered rs e) (eventChan rs)).
  { unfold processEvents. rewrite apply_all_history. reflexivity. }
  split; [|split; [exact Hhist|]].
  - unfold processEvents. rewrite apply_all_chan. reflexivity.
  - unfold GetEventHistory. rewrite Hhist, List.filter_app. f_equal.
    apply filter_registered.
Qed.

Local Abbreviation same_but_score s s' :=
  (Student.ID s' = Student.ID s /\ Student.Name s' = Student.Name s /\
   Student.IsOnline s' = Student.IsOnline s /\ Student.LastSeen s' = Student.LastSeen s /\
   Student.TotalUploads s' = Student.TotalUploads s /\
   Student.TotalDownloads s' = Student.TotalDownloads s /\
   Student.IPAddress s' = Student.IPAddress s /\ Student.Port s' = Student.Port s).

Lemma applyEvent_keeps (e : ReputationEvent) (rs : t) (id : string) (s : Student.t) :
  peerRegistry rs !! id = Some s ->
  exists s', peerRegistry (applyEvent e rs) !! id = Some s' /\ same_but_score s s'.
Proof.
  intros Hs. unfold applyEvent, PeerRegistry.Get.
  destruct (peerRegistry rs !! StudentID e) as [x|] eqn:Hx.
  - simpl. destruct (decide (StudentID e = id)) as [He|Hne].
    + rewrite He in *. rewrite lookup_insert_eq. rewrite Hs in Hx. injection Hx as <-.
      eexists. split; [reflexivity|]. apply UpdateReputation_fields.
    + rewrite lookup_insert_ne by exact Hne. exists s. split; [exact Hs|]. repeat split.
  - exists s. split; [exact Hs|]. repeat split.
Qed.

Lemma apply_all_keeps (events : list ReputationEvent) :
  forall (rs : t) (id : string) (s : Student.t),
    peerRegistry rs !! id = Some s ->
    exists s', peerRegistry (apply_all events rs) !! id = Some s' /\ same_but_score s s'.
Proof.
  induction events as [|e events IH]; intros rs id s Hs.
  - exists s. split; [exact Hs|]. repeat split.
  - destruct (applyEvent_keeps e rs id s Hs) as [s1 [Hs1 Hsame1]].
    destruct (IH (applyEvent e rs) id s1 Hs1) as [s2 [Hs2 Hsame2]].
    exists s2. split; [exact Hs2|]. intuition congruence.
Qed.

Lemma applyInactivityDecay_keeps (now : Z) (rs : t) (id : string) (s : Student.t) :
  peerRegistry rs !! id = Some s ->
  exists s', peerRegistry (applyInactivityDecay now rs) !! id = Some s' /\
             same_but_score s s'.
Proof.
  unfold applyInactivityDecay.
  generalize (PeerRegistry.GetAllPeers (peerRegistry rs)). intros peers.
  revert rs s. induction peers as [|p peers IH]; intros rs s Hs.
  - exists s. split; [exact Hs|]. repeat split.
  - simpl. destruct (inactiveThreshold <? now - Student.LastSeen p)%Z.
    + destruct (applyEvent_keeps
                  (mkEvent EventInactivity (Student.ID p) (- InactivityDecay)
                     "Extended inactivity" now) rs id s Hs) as [s1 [Hs1 Hsame1]].
      destruct (IH _ s1 Hs1) as [s2 [Hs2 Hsame2]].
      exists s2. split; [exact Hs2|]. intuition congruence.
    + apply IH, Hs.
Qed.

(** X17.  No reputation event changes a transfer counter.  Whatever events
    are applied to a registered peer, and whenever the inactivity decay
    runs, the record under its ID keeps its upload and download counts, its
    identity, address, online flag and last-seen time: events move the
    score, and with it the leecher flag, and nothing else.  The ratio of
    [CalculateReputation] is therefore one of counters that this service
    never advances. *)
Theorem events_keep_counters (events : list ReputationEvent) (now : Z) (rs : t)
    (id : string) (s : Student.t) :
  peerRegistry rs !! id = Some s ->
  (exists s', peerRegistry (apply_all events rs) !! id = Some s' /\ same_but_score s s') /\
  (exists s', peerRegistry (processEvents rs) !! id = Some s' /\ same_but_score s s') /\
  (exists s', peerRegistry (applyInactivityDecay now rs) !! id = Some s' /\
              same_but_score s s').
Proof.
  intros Hs. split; [apply apply_all_keeps, Hs|]. split.
  - unfold processEvents. apply apply_all_keeps. exact Hs.
  - apply applyInactivityDecay_keeps, Hs.
Qed.

(** One penalty: the score goes down by [d], and not below zero. *)
Lemma UpdateReputation_penalty (d : Q) (s : Student.t) :
  0 <= d -> Student.ReputationScore s <= 10 ->
  Student.ReputationScore (Student.UpdateReputation (- d) s) =
  if Float64.ltb (Student.ReputationScore s + - d) 0 then 0
  else Student.ReputationScore s + - d.
Proof.
  intros Hd Hs. unfold Student.UpdateReputation.
  rewrite StudentFacts.checkLeecherStatus_score. simpl.
  replace (Float64.ltb Student.MaxReputation (Student.ReputationScore s + - d)) with false;
    [reflexivity|].
  symmetry. apply Float64Facts.ltb_ge. unfold Student.MaxReputation. lra.
Qed.

Lemma penalty_step (q d : Q) (k : Z) (x : Q) :
  0 <= d -> (0 <= k)%Z ->
  (0 <= q - inject_Z k * d -> x == q - inject_Z k * d) ->
  (q - inject_Z k * d <= 0 -> x == 0) ->
  let x' := if Float64.ltb (x + - d) 0 then 0 else x + - d in
  (0 <= q - inject_Z (k + 1) * d -> x' == q - inject_Z (k + 1) * d) /\
  (q - inject_Z (k + 1) * d <= 0 -> x' == 0).
Proof.
  intros Hd Hk Hpos Hneg. cbv zeta.
  assert (Hnext : q - inject_Z (k + 1) * d == q - inject_Z k * d - d).
  { rewrite inject_Z_plus. ring. }
  destruct (Float64.ltb (x + - d) 0) eqn:E;
    [apply Float64Facts.ltb_lt in E | apply Float64Facts.ltb_ge in E].
  - split; intros H.
    + destruct (Qlt_le_dec (q - inject_Z k * d) 0) as [Hlt|Hge].
      * lra.
      * specialize (Hpos Hge). lra.
    + reflexivity.
  - split; intros H.
    + destruct (Qlt_le_dec (q - inject_Z k * d) 0) as [Hlt|Hge].
      * lra.
      * specialize (Hpos Hge). lra.
    + destruct (Qlt_le_dec (q - inject_Z k * d) 0) as [Hlt|Hge].
      * specialize (Hneg (Qlt_le_weak _ _ Hlt)). lra.
      * specialize (Hpos Hge). lra.
Qed.

Lemma penalties (id : string) (q : Q) (events : list ReputationEvent) :
  forall (rs : t) (s : Student.t) (k : Z),
    peerRegistry rs !! id = Some s ->
    Student.ReputationScore s <= 10 -> (0 <= k)%Z ->
    (0 <= q - inject_Z k * DownloadPenalty ->
     Student.ReputationScore s == q - inject_Z k * DownloadPenalty) ->
    (q - inject_Z k * DownloadPenalty <= 0 -> Student.ReputationScore s == 0) ->
    Forall (fun e => StudentID e = id -> Delta e = - DownloadPenalty) events ->
    let k' := (k + Z.of_nat (length (List.filter
                                       (fun e => String.eqb (StudentID e) id) events)))%Z in
    exists s',
      peerRegistry (apply_all events rs) !! id = Some s' /\
      Student.ReputationScore s' <= 10 /\
      Student.TotalDownloads s' = Student.TotalDownloads s /\
      (0 <= q - inject_Z k' * DownloadPenalty ->
       Student.ReputationScore s' == q - inject_Z k' * DownloadPenalty) /\
      (q - inject_Z k' * DownloadPenalty <= 0 -> Student.ReputationScore s' == 0).
Proof.
  induction events as [|e events IH]; intros rs s k Hs H10 Hk Hpos Hneg Hall; cbv zeta.
  - exists s. simpl. rewrite Z.add_0_r. repeat split; assumption.
  - apply Forall_cons in Hall as [He Hall]. cbn [List.filter apply_all fold_left].
    destruct (String.eqb (StudentID e) id) eqn:E.
    + apply String.eqb_eq in E. specialize (He E).
      assert (Hs1 : peerRegistry (applyEvent e rs) !! id =
                    Some (Student.UpdateReputation (- DownloadPenalty) s)).
      { unfold applyEvent, PeerRegistry.Get. rewrite E, Hs, He. simpl.
        apply lookup_insert_eq. }
      assert (Hd : 0 <= DownloadPenalty) by discriminate.
      pose proof (UpdateReputation_penalty DownloadPenalty s Hd H10) as Hscore.
      destruct (penalty_step q DownloadPenalty k (Student.ReputationScore s) Hd Hk Hpos Hneg)
        as [Hpos1 Hneg1].
      rewrite <- Hscore in Hpos1, Hneg1.
      destruct (IH (applyEvent e rs) _ (k + 1)%Z Hs1) as [s' [Hs' [H10' [Hdl [Hp' Hn']]]]];
        try assumption; try lia.
      { apply (StudentFacts.UpdateReputation_range (- DownloadPenalty) s). }
      exists s'. split; [exact Hs'|]. split; [exact H10'|].
      split.
      { rewrite Hdl. apply (UpdateReputation_fields (- DownloadPenalty) s). }
      cbn [length]. rewrite Nat2Z.inj_succ.
      replace (k + Z.succ (Z.of_nat (length (List.filter
                 (fun e0 => String.eqb (StudentID e0) id) events))))%Z
        with (k + 1 + Z.of_nat (length (List.filter
                 (fun e0 => String.eqb (StudentID e0) id) events)))%Z by lia.
      split; assumption.
    + apply String.eqb_neq in E.
      assert (Hs1 : peerRegistry (applyEvent e rs) !! id = Some s).
      { unfold applyEvent, PeerRegistry.Get.
        destruct (peerRegistry rs !! StudentID e); [|exact Hs].
        simpl. rewrite lookup_insert_ne by exact E. exact Hs. }
      apply (IH (applyEvent e rs) s k Hs1); assumption.
Qed.


End EventFacts.

(** The upload event of the scenario raises the score of peer-a and counts
    no upload. *)
Lemma events_keep_counters_witness :
  exists s',
    ReputationService.peerRegistry (ReputationService.apply_all events_a service_a)
      !! "peer-a"%string = Some s' /\
    Student.TotalUploads s' = 0%Z /\ Student.TotalDownloads s' = 0%Z.
Proof.
  assert (Hs : ReputationService.peerRegistry service_a !! "peer-a"%string = Some peer_a)
    by (vm_compute; reflexivity).
  destruct (proj1 (EventFacts.events_keep_counters events_a 0 service_a "peer-a" peer_a Hs))
    as [s' [Hs' [_ [_ [_ [_ [Hu [Hd _]]]]]]]].
  exists s'. split; [exact Hs'|]. split; [exact Hu | exact Hd].
Defined.


(** ** Throttling: grants, refills and the manager *)

Module GrantFacts.

Import Throttler.

Lemma refill_stopped (th : t) : refilling th = false -> refill th = th.
Proof. intros H. unfold refill. rewrite H. reflexivity. Qed.

Lemma refills_stopped (k : nat) (th : t) :
  refilling th = false -> Nat.iter k refill th = th.
Proof.
  intros H. induction k as [|k IH]; [reflexivity|].
  change (Nat.iter (S k) refill th) with (refill (Nat.iter k refill th)).
  rewrite IH. apply refill_stopped, H.
Qed.

(** What [k] ticks leave: the balance goes up by one per tick and stops at
    the bucket size; nothing else changes. *)
Lemma refills (k : nat) (th : t) :
  Invariant.throttler_ok th ->
  let th' := Nat.iter k refill th in
  tokens th' = (if refilling th
                then Z.min (maxTokens th) (tokens th + Z.of_nat k)
                else tokens th) /\
  maxTokens th' = maxTokens th /\ tokenSize th' = tokenSize th /\
  isRunning th' = isRunning th /\ stopClosed th' = stopClosed th /\
  tier th' = tier th /\
  Invariant.throttler_ok th'.
Proof.
  intros Hok. cbv zeta. induction k as [|k IH].
  - simpl. pose proof Hok as [Hs [[Ht1 Ht2] Hm]].
    split; [destruct (refilling th); lia|].
    split; [reflexivity|]. split; [reflexivity|]. split; [reflexivity|].
    split; [reflexivity|]. split; [reflexivity | exact Hok].
  - change (Nat.iter (S k) refill th) with (refill (Nat.iter k refill th)).
    destruct IH as [Htok [Hmax [Hsize [Hrun [Hclosed [Htier Hok']]]]]].
    set (thk := Nat.iter k refill th) in *. clearbody thk.
    assert (Hlive : refilling thk = refilling th).
    { unfold refilling. rewrite Hrun, Hclosed. reflexivity. }
    pose proof Hok' as [Hs [[Ht1 Ht2] Hm]].
    unfold refill. rewrite Hlive.
    destruct (refilling th) eqn:Er; cbn [negb].
    + destruct (tokens thk <? maxTokens thk) eqn:E;
        [apply Z.ltb_lt in E | apply Z.ltb_ge in E].
      * rewrite Int64Facts.add_small by (int64_range; lia).
        replace (maxTokens thk <? tokens thk + 1) with false
          by (symmetry; apply Z.ltb_ge; lia).
        cbn [tokens maxTokens tokenSize isRunning stopClosed tier set_tokens].
        split; [lia|]. split; [exact Hmax|]. split; [exact Hsize|].
        split; [exact Hrun|]. split; [exact Hclosed|]. split; [exact Htier|].
        unfold Invariant.throttler_ok.
        cbn [tokens maxTokens tokenSize set_tokens]. lia.
      * split; [lia|]. split; [exact Hmax|]. split; [exact Hsize|].
        split; [exact Hrun|]. split; [exact Hclosed|]. split; [exact Htier | exact Hok'].
    + split; [exact Htok|]. split; [exact Hmax|]. split; [exact Hsize|].
      split; [exact Hrun|]. split; [exact Hclosed|]. split; [exact Htier | exact Hok'].
Qed.

(** With a token in the bucket [Acquire] returns at its first look.  The
    grant is positive, at most what was asked and at most what the balance
    is worth; only the balance changes. *)
Lemma Acquire_at_once (ticks : list nat) (b : Z) (th : t) :
  Invariant.throttler_ok th -> 0 < tokens th ->
  0 < b <= Int64.max_int - tokenSize th + 1 ->
  exists (a : Z) (th' : t),
    Acquire ticks b th = Returned a th' /\
    0 < a <= b /\ a <= tokens th * tokenSize th /\
    (a < b -> tokens th' = 0) /\
    Invariant.throttler_ok th' /\
    maxTokens th' = maxTokens th /\ tokenSize th' = tokenSize th /\
    isRunning th' = isRunning th /\ stopClosed th' = stopClosed th.
Proof.
  intros Hok Hpos Hb.
  pose proof (ThrottlerFacts.Acquire_without_overflow ticks b th Hok Hb) as [Hfull Hpart].
  pose proof Hok as [[Hs1 Hs2] [[Ht1 Ht2] Hm]].
  pose proof (ThrottlerFacts.ceil_div_spec b (tokenSize th) Hs1 (proj1 Hb)) as [Hc1 Hc2].
  set (needed := Spec.ceil_div b (tokenSize th)) in *.
  assert (Hn0 : 0 < needed) by nia.
  destruct (Z_le_gt_dec needed (tokens th)) as [Hle|Hgt].
  - destruct (Hfull Hle) as [Hacq Hok'].
    exists b, (set_tokens (tokens th - needed) th).
    split; [exact Hacq|]. split; [lia|]. split; [nia|]. split; [lia|].
    split; [exact Hok'|]. repeat split.
  - destruct (Hpart ltac:(lia)) as [Hacq [Hsmall Hok']].
    exists (tokens th * tokenSize th), (set_tokens 0 th).
    split; [exact Hacq|]. split; [nia|]. split; [lia|]. split; [reflexivity|].
    split; [exact Hok'|]. repeat split.
Qed.

(** On an empty bucket the first look fails, and the call goes on after the
    sleep with what the ticks of that sleep have put in. *)
Lemma Acquire_sleep (n : nat) (ticks : list nat) (b : Z) (th : t) :
  Invariant.throttler_ok th -> tokens th = 0 ->
  0 < b <= Int64.max_int - tokenSize th + 1 ->
  Acquire (n :: ticks) b th = Acquire ticks b (Nat.iter n refill th).
Proof.
  intros Hok Hz Hb.
  pose proof (ThrottlerFacts.tokensNeeded_exact b th Hok Hb) as Hn.
  pose proof Hok as [[Hs1 Hs2] _].
  pose proof (ThrottlerFacts.ceil_div_spec b (tokenSize th) Hs1 (proj1 Hb)) as [Hc1 Hc2].
  destruct (refills n th Hok) as [_ [_ [Hsize _]]].
  unfold Acquire. rewrite Hsize.
  replace (tokenSize th =? 0) with false by (symmetry; apply Z.eqb_neq; lia).
  rewrite Hn. cbn [acquire_loop]. unfold try_acquire at 1. rewrite Hz.
  replace (Spec.ceil_div b (tokenSize th) <=? 0) with false
    by (symmetry; apply Z.leb_gt; nia).
  reflexivity.
Qed.

(** Sleeps without a tick leave the call asleep. *)
Lemma Acquire_no_tick (ticks : list nat) (b : Z) (th : t) :
  Invariant.throttler_ok th -> tokens th = 0 ->
  0 < b <= Int64.max_int - tokenSize th + 1 ->
  Forall (fun n => n = 0%nat) ticks ->
  Acquire ticks b th = Waiting th.
Proof.
  intros Hok Hz Hb Hall. induction Hall as [|n ticks Hn _ IH].
  - apply ThrottlerFacts.Acquire_waits; assumption.
  - subst n. rewrite Acquire_sleep by assumption. exact IH.
Qed.

(** Without the refill goroutine an empty bucket stays empty, whatever the
    ticker does. *)
Lemma Acquire_stopped_waits (ticks : list nat) (b : Z) (th : t) :
  Invariant.throttler_ok th -> refilling th = false -> tokens th = 0 ->
  0 < b <= Int64.max_int - tokenSize th + 1 ->
  Acquire ticks b th = Waiting th.
Proof.
  intros Hok Hrun Hz Hb. induction ticks as [|n ticks IH].
  - apply ThrottlerFacts.Acquire_waits; assumption.
  - rewrite Acquire_sleep by assumption.
    rewrite (refills_stopped n th Hrun). exact IH.
Qed.

(** With the refill goroutine in its loop, [Acquire] returns at its first
    look when a token is there, and otherwise after the first sleep in
    which a tick was handled. *)
Lemma Acquire_refilling (ticks : list nat) (b : Z) (th : t) :
  Invariant.throttler_ok th -> refilling th = true -> 0 < maxTokens th ->
  0 < b <= Int64.max_int - tokenSize th + 1 ->
  0 < tokens th \/ Exists (fun n => (0 < n)%nat) ticks ->
  exists (a : Z) (th' : t),
    Acquire ticks b th = Returned a th' /\
    0 < a <= b /\ a <= maxTokens th * tokenSize th /\
    (a < b -> tokens th' = 0) /\
    Invariant.throttler_ok th' /\ refilling th' = true /\
    maxTokens th' = maxTokens th /\ tokenSize th' = tokenSize th.
Proof.
  intros Hok Hlive Hmax Hb Hsome.
  assert (Hnow : forall (l : list nat) (th0 : t),
            Invariant.throttler_ok th0 -> refilling th0 = true ->
            maxTokens th0 = maxTokens th -> tokenSize th0 = tokenSize th ->
            0 < tokens th0 ->
            exists (a : Z) (th' : t),
              Acquire l b th0 = Returned a th' /\
              0 < a <= b /\ a <= maxTokens th * tokenSize th /\
              (a < b -> tokens th' = 0) /\
              Invariant.throttler_ok th' /\ refilling th' = true /\
              maxTokens th' = maxTokens th /\ tokenSize th' = tokenSize th).
  { intros l th0 Hok0 Hlive0 Hm0 Hs0 Hpos.
    destruct (Acquire_at_once l b th0 Hok0 Hpos ltac:(rewrite Hs0; exact Hb))
      as (a & th' & Hacq & Ha & Hcap & Hpart & Hok' & Hm' & Hs' & Hr' & Hc').
    exists a, th'. split; [exact Hacq|]. split; [exact Ha|].
    pose proof Hok0 as [[Hs1 _] [[_ Ht2] _]].
    split; [rewrite <- Hm0, <- Hs0; nia|]. split; [exact Hpart|].
    split; [exact Hok'|].
    split; [unfold refilling in *; rewrite Hr', Hc'; exact Hlive0|].
    split; congruence. }
  destruct (Z_lt_le_dec 0 (tokens th)) as [Hpos|Hzero].
  { apply Hnow; try assumption; reflexivity. }
  destruct Hsome as [Hpos|Hex]; [lia|].
  assert (Hz : tokens th = 0) by (destruct Hok as [_ [[Ht1 _] _]]; lia).
  clear Hzero. revert Hz Hok Hlive.
  assert (Hsame : maxTokens th = maxTokens th /\ tokenSize th = tokenSize th)
    by (split; reflexivity).
  revert Hsame. generalize th at 1 3 5 6 7 8 as th0.
  induction Hex as [n ticks Hn | n ticks _ IH]; intros th0 [Hm0 Hs0] Hz Hok0 Hlive0.
  - rewrite Acquire_sleep by (try assumption; rewrite Hs0; exact Hb).
    destruct (refills n th0 Hok0) as (Htok & Hm1 & Hs1 & Hr1 & Hc1 & _ & Hok1).
    rewrite Hlive0 in Htok.
    apply Hnow; try assumption; try congruence.
    + unfold refilling in *. rewrite Hr1, Hc1. exact Hlive0.
    + rewrite Htok, Hz. lia.
  - rewrite Acquire_sleep by (try assumption; rewrite Hs0; exact Hb).
    destruct (refills n th0 Hok0) as (Htok & Hm1 & Hs1 & Hr1 & Hc1 & _ & Hok1).
    rewrite Hlive0 in Htok.
    assert (Hlive1 : refilling (Nat.iter n refill th0) = true)
      by (unfold refilling in *; rewrite Hr1, Hc1; exact Hlive0).
    destruct (Z_lt_le_dec 0 (tokens (Nat.iter n refill th0))) as [Hpos|Hzero].
    + apply Hnow; try assumption; congruence.
    + apply IH; try assumption.
      * split; congruence.
      * destruct Hok1 as [_ [[Ht1 _] _]]. lia.
Qed.




End GrantFacts.

Module WriterFacts.

Import ThrottledWriter.

Lemma write_loop_delivers (p : list byte) (ticks : Ticks) :
  (forall k, Exists (fun n => (0 < n)%nat) (during ticks k)) ->
  forall (fuel k : nat) (written : Z) (tw : t),
    (forall i len, behaviour (writer tw) i len = (len, None)) ->
    Invariant.throttler_ok (throttler tw) ->
    Throttler.refilling (throttler tw) = true ->
    0 < Throttler.maxTokens (throttler tw) ->
    Z.of_nat (length p) <= Int64.max_int - Throttler.tokenSize (throttler tw) + 1 ->
    0 <= written <= Z.of_nat (length p) ->
    Z.of_nat (length p) - written < Z.of_nat fuel ->
    exists tw' : t,
      write_loop fuel ticks k p written tw = Returned (Z.of_nat (length p)) None tw' /\
      taken (writer tw') = taken (writer tw) ++ skipn (Z.to_nat written) p /\
      Invariant.throttler_ok (throttler tw') /\
      Throttler.refilling (throttler tw') = true.
Proof.
  intros Hticks.
  induction fuel as [|fuel IH]; intros k written tw Hall Hok Hrun Hmax Hlen Hw Hfuel; [lia|].
  cbn [write_loop].
  destruct (written <? Z.of_nat (length p)) eqn:Hlt;
    [apply Z.ltb_lt in Hlt | apply Z.ltb_ge in Hlt]; cbn [negb].
  - pose proof Hok as [[Hs1 Hs2] _].
    rewrite Int64Facts.sub_small by (int64_range; lia).
    destruct (GrantFacts.refills (before ticks k) (throttler tw) Hok)
      as (_ & Hm0 & Hs0 & Hr0 & Hc0 & _ & Hok0).
    set (th := Nat.iter (before ticks k) Throttler.refill (throttler tw)) in *.
    assert (Hlive0 : Throttler.refilling th = true).
    { unfold Throttler.refilling in *. rewrite Hr0, Hc0. exact Hrun. }
    destruct (GrantFacts.Acquire_refilling (during ticks k)
                (Z.of_nat (length p) - written) th Hok0 Hlive0
                ltac:(lia) ltac:(lia) (or_intror (Hticks k)))
      as [a [th' [Hacq [Ha [_ [_ [Hok' [Hrun' [Hmax' Hsize']]]]]]]]].
    rewrite Hacq.
    rewrite Int64Facts.add_small by (int64_range; lia).
    unfold Go.slice.
    replace ((0 <=? written) && (written <=? written + a) &&
             (written + a <=? Z.of_nat (length p))) with true
      by (symmetry; rewrite !andb_true_iff, !Z.leb_le; lia).
    replace (written + a - written) with a by lia.
    set (chunk := firstn (Z.to_nat a) (skipn (Z.to_nat written) p)).
    assert (Hchunk : length chunk = Z.to_nat a).
    { unfold chunk. rewrite List.length_firstn, List.length_skipn. lia. }
    rewrite Hall, Hchunk.
    replace (firstn (Z.to_nat a) chunk) with chunk
      by (symmetry; apply firstn_all2; lia).
    rewrite Z2Nat.id by lia.
    rewrite Int64Facts.add_small by (int64_range; lia).
    destruct (IH (S k) (written + a)
                 (mk (mkSink (behaviour (writer tw)) (taken (writer tw) ++ chunk)
                        (S (calls (writer tw)))) th'))
      as [tw' [Hrun2 [Htaken [Hok2 Hrun3]]]]; cbn [writer throttler behaviour taken];
      try assumption; try lia.
    exists tw'. split; [exact Hrun2|]. split; [|split; assumption].
    rewrite Htaken. cbn [writer taken]. rewrite <- app_assoc. f_equal.
    unfold chunk.
    replace (Z.to_nat (written + a)) with (Z.to_nat a + Z.to_nat written)%nat by lia.
    rewrite <- skipn_skipn. apply firstn_skipn.
  - exists tw. replace written with (Z.of_nat (length p)) by lia.
    split; [reflexivity|]. rewrite Nat2Z.id, skipn_all, app_nil_r.
    split; [reflexivity|]. split; assumption.
Qed.


End WriterFacts.

Module ManagerFacts.

Import ThrottlingManager.

Lemma count_step (tier : Throttler.BandwidthTier) (l : list Throttler.t) :
  forall n : Z,
    0 <= n -> n + Z.of_nat (length l) <= Int64.max_int ->
    fold_left
      (fun n th => if Throttler.tier_eqb (Throttler.tier th) tier then Int64.add n 1 else n)
      l n =
    n + Z.of_nat (length (List.filter
                            (fun th => Throttler.tier_eqb (Throttler.tier th) tier) l)).
Proof.
  induction l as [|th l IH]; intros n Hn Hmax; simpl; [lia|].
  simpl in Hmax.
  pose proof (List.filter_length_le
                (fun th => Throttler.tier_eqb (Throttler.tier th) tier) l) as Hle.
  destruct (Throttler.tier_eqb (Throttler.tier th) tier).
  - rewrite Int64Facts.add_small by (int64_range; lia).
    rewrite IH by lia. simpl. lia.
  - rewrite IH by lia. lia.
Qed.

Lemma tiers_partition (l : list Throttler.t) :
  (length (List.filter (fun th => Throttler.tier_eqb (Throttler.tier th) Throttler.TierLeecher) l) +
   length (List.filter (fun th => Throttler.tier_eqb (Throttler.tier th) Throttler.TierNormal) l) +
   length (List.filter (fun th => Throttler.tier_eqb (Throttler.tier th) Throttler.TierPremium) l))%nat =
  length l.
Proof.
  induction l as [|th l IH]; [reflexivity|].
  simpl. destruct (Throttler.tier th); simpl; lia.
Qed.

(** X23.  [GetThrottler] keeps one throttler for each peer.  After the
    call the map holds under the ID a throttler of the tier that belongs
    to the reputation passed, with the bandwidth and token size of that
    tier.  A peer not seen before gets a new one, started, with a full
    bucket; a known peer keeps its throttler, balance and all.  The other
    peers are untouched, and so is the [enabled] flag, which the call does
    not read. *)
Theorem GetThrottler_outcome (peerID : string) (reputation : Q) (tm : t) :
  let tm' := GetThrottler peerID reputation tm in
  (exists th' : Throttler.t,
     throttlers tm' !! peerID = Some th' /\
     Throttler.tier th' = Throttler.determineTier reputation /\
     match throttlers tm !! peerID with
     | None =>
         th' = Throttler.Start (Throttler.NewThrottler peerID reputation) /\
         Throttler.tokens th' = Throttler.TokenBucketSize /\
         Throttler.isRunning th' = true
     | Some th =>
         Throttler.tokens th' = Throttler.tokens th /\
         Throttler.maxTokens th' = Throttler.maxTokens th /\
         Throttler.isRunning th' = Throttler.isRunning th /\
         (Throttler.tier th <> Throttler.determineTier reputation ->
          Throttler.bandwidth th' = Throttler.GetBandwidth (Throttler.tier th') /\
          Throttler.tokenSize th' * Throttler.TokenBucketSize = Throttler.bandwidth th') /\
         (Throttler.tier th = Throttler.determineTier reputation -> th' = th)
     end) /\
  (forall other, other <> peerID -> throttlers tm' !! other = throttlers tm !! other) /\
  enabled tm' = enabled tm /\
  (forall flag,
     throttlers (GetThrottler peerID reputation (SetEnabled flag tm)) = throttlers tm') /\
  (map_Forall (fun _ th => Invariant.throttler_ok th) (throttlers tm) ->
   map_Forall (fun _ th => Invariant.throttler_ok th) (throttlers tm')).
Proof.
  cbv zeta. unfold GetThrottler, SetEnabled. cbn [throttlers enabled].
  destruct (throttlers tm !! peerID) as [th|] eqn:Hth; cbn [throttlers enabled].
  - split; [|split; [|split; [reflexivity|split; [reflexivity|]]]].
    + exists (Throttler.UpdateReputation reputation th).
      split; [apply lookup_insert_eq|].
      unfold Throttler.UpdateReputation.
      destruct (Throttler.tier_eqb (Throttler.determineTier reputation) (Throttler.tier th))
        eqn:E; cbn [negb].
      * assert (Heq : Throttler.determineTier reputation = Throttler.tier th).
        { destruct (Throttler.determineTier reputation), (Throttler.tier th);
            try discriminate E; reflexivity. }
        split; [symmetry; exact Heq|]. split; [reflexivity|]. split; [reflexivity|].
        split; [reflexivity|]. split; [intros Hne; congruence | intros _; reflexivity].
      * assert (Hne : Throttler.determineTier reputation <> Throttler.tier th).
        { intros Heq. rewrite Heq in E. destruct (Throttler.tier th); discriminate E. }
        cbn [Throttler.tier Throttler.tokens Throttler.maxTokens Throttler.isRunning
               Throttler.bandwidth Throttler.tokenSize].
        split; [reflexivity|]. split; [reflexivity|]. split; [reflexivity|].
        split; [reflexivity|]. split; [|intros Heq; congruence].
        intros _. split; [reflexivity|].
        destruct (Throttler.determineTier reputation); reflexivity.
    + intros other Hne. apply lookup_insert_ne. congruence.
    + intros Hall. apply map_Forall_insert_2; [|exact Hall].
      apply ThrottlerFacts.UpdateReputation_ok. exact (Hall _ _ Hth).
  - split; [|split; [|split; [reflexivity|split; [reflexivity|]]]].
    + exists (Throttler.Start (Throttler.NewThrottler peerID reputation)).
      split; [apply lookup_insert_eq|]. split; [reflexivity|].
      split; [reflexivity|]. split; reflexivity.
    + intros other Hne. apply lookup_insert_ne. congruence.
    + intros Hall. apply map_Forall_insert_2; [|exact Hall].
      exact (ThrottlerFacts.NewThrottler_ok peerID reputation).
Qed.

Lemma Stop_never_restarted (th : Throttler.t) :
  Invariant.never_restarted th -> is_Some (Throttler.Stop th).
Proof.
  intros H. unfold Throttler.Stop.
  destruct (Throttler.isRunning th) eqn:Er; [|eexists; reflexivity].
  rewrite (H Er). eexists; reflexivity.
Qed.

(** [GetThrottler] starts new throttlers only, so it restarts none. *)
Lemma GetThrottler_never_restarted (peerID : string) (reputation : Q) (tm : t) :
  map_Forall (fun _ th => Invariant.never_restarted th) (throttlers tm) ->
  map_Forall (fun _ th => Invariant.never_restarted th)
    (throttlers (GetThrottler peerID reputation tm)).
Proof.
  intros Hall. unfold GetThrottler.
  destruct (throttlers tm !! peerID) as [th|] eqn:Hth; cbn [throttlers].
  - apply map_Forall_insert_2; [|exact Hall].
    pose proof (Hall _ _ Hth) as H. unfold Invariant.never_restarted in *.
    unfold Throttler.UpdateReputation. destruct (negb _); exact H.
  - apply map_Forall_insert_2; [|exact Hall]. intros _. reflexivity.
Qed.

(** X24.  In the statistics of the manager the three tier counts add up to
    the number of peers, and [GetPeerInfo] fails exactly for the IDs that
    have no throttler; [RemoveThrottler] and [StopAll], when they return,
    make it fail again.  They return when no throttler of the manager was
    started again after a [Stop], which [GetThrottler] keeps so; on a
    throttler that was, they panic. *)
Theorem GetStats_partition (tm : t) (peerID : string) :
  Z.of_nat (size (throttlers tm)) <= Int64.max_int ->
  let stats := GetStats tm in
  total_peers stats = Z.of_nat (size (throttlers tm)) /\
  leecher_count stats + normal_count stats + premium_count stats = total_peers stats /\
  (throttlers tm !! peerID = None <->
   GetPeerInfo peerID tm = inr ("no throttler for peer: " ++ peerID)%string) /\
  (forall tm', RemoveThrottler peerID tm = Some tm' ->
     GetPeerInfo peerID tm' = inr ("no throttler for peer: " ++ peerID)%string) /\
  (forall tm', StopAll tm = Some tm' ->
     GetPeerInfo peerID tm' = inr ("no throttler for peer: " ++ peerID)%string /\
     total_peers (GetStats tm') = 0) /\
  (map_Forall (fun _ th => Invariant.never_restarted th) (throttlers tm) ->
   is_Some (RemoveThrottler peerID tm) /\ is_Some (StopAll tm) /\
   forall id reputation,
     map_Forall (fun _ th => Invariant.never_restarted th)
       (throttlers (GetThrottler id reputation tm))) /\
  (forall th, throttlers tm !! peerID = Some th ->
     Throttler.isRunning th = true -> Throttler.stopClosed th = true ->
     RemoveThrottler peerID tm = None /\ StopAll tm = None).
Proof.
  intros Hmax. cbv zeta. split; [reflexivity|].
  split; [|split; [|split; [|split; [|split]]]].
  - unfold GetStats, count_tier. cbn [leecher_count normal_count premium_count total_peers].
    assert (Hlen : length (map_to_list (throttlers tm)).*2 = size (throttlers tm)).
    { rewrite length_fmap, length_map_to_list. reflexivity. }
    rewrite !count_step by (rewrite ?Hlen; lia).
    pose proof (tiers_partition (map_to_list (throttlers tm)).*2) as Hp.
    rewrite Hlen in Hp. lia.
  - unfold GetPeerInfo. destruct (throttlers tm !! peerID); split; congruence.
  - intros tm' Hrem. unfold GetPeerInfo, RemoveThrottler in *.
    destruct (throttlers tm !! peerID) as [th|] eqn:E.
    + destruct (Throttler.Stop th); [|discriminate]. injection Hrem as <-.
      cbn [throttlers]. rewrite lookup_delete_eq. reflexivity.
    + injection Hrem as <-. rewrite E. reflexivity.
  - intros tm' Hstop. unfold StopAll in Hstop.
    destruct (forallb _ _); [|discriminate]. injection Hstop as <-.
    unfold GetPeerInfo. cbn [throttlers]. rewrite lookup_empty.
    split; reflexivity.
  - intros Hall. split; [|split].
    3: { intros id reputation. apply GetThrottler_never_restarted, Hall. }
    + unfold RemoveThrottler.
      destruct (throttlers tm !! peerID) as [th|] eqn:E; [|eexists; reflexivity].
      destruct (Stop_never_restarted th (Hall _ _ E)) as [th' ->]. eexists; reflexivity.
    + unfold StopAll.
      replace (forallb _ _) with true; [eexists; reflexivity|].
      symmetry. apply forallb_forall. intros th Hin.
      apply bool_decide_eq_true_2.
      apply list_elem_of_In, list_elem_of_fmap in Hin.
      destruct Hin as ([id th0] & -> & Hin). apply elem_of_map_to_list in Hin.
      apply Stop_never_restarted, (Hall _ _ Hin).
  - intros th Hth Hrun Hclosed.
    assert (Hstop : Throttler.Stop th = None).
    { unfold Throttler.Stop. rewrite Hrun, Hclosed. reflexivity. }
    split.
    + unfold RemoveThrottler. rewrite Hth, Hstop. reflexivity.
    + unfold StopAll.
      replace (forallb _ _) with false; [reflexivity|].
      symmetry. apply not_true_is_false. intros Hall.
      rewrite forallb_forall in Hall.
      specialize (Hall th).
      rewrite Hstop in Hall.
      assert (Hin : In th (map_to_list (throttlers tm)).*2).
      { apply list_elem_of_In, list_elem_of_fmap. exists (peerID, th).
        split; [reflexivity|]. apply elem_of_map_to_list, Hth. }
      specialize (Hall Hin). apply bool_decide_eq_true_1 in Hall.
      destruct Hall as [? Hall]. discriminate.
Qed.

End ManagerFacts.

Lemma throttler_empty_ok : Invariant.throttler_ok throttler_empty.
Proof. vm_compute. repeat split; congruence. Defined.



Lemma throttler_eight_ok : Invariant.throttler_ok throttler_eight.
Proof. vm_compute. repeat split; congruence. Defined.


Lemma throttler_small_ok : Invariant.throttler_ok throttler_small.
Proof. vm_compute. repeat split; congruence. Defined.


Lemma GetStats_partition_witness :
  let stats := ThrottlingManager.GetStats manager_two in
  ThrottlingManager.total_peers stats = 2 /\
  ThrottlingManager.leecher_count stats + ThrottlingManager.normal_count stats +
    ThrottlingManager.premium_count stats = ThrottlingManager.total_peers stats.
Proof.
  cbv zeta.
  assert (Hmax : Z.of_nat (size (ThrottlingManager.throttlers manager_two)) <= Int64.max_int)
    by (vm_compute; discriminate).
  destruct (ManagerFacts.GetStats_partition manager_two "peer-a" Hmax) as [Ht [Hs _]].
  split; [rewrite Ht; vm_compute; reflexivity | exact Hs].
Defined.

(** ** Serving a file *)

Module UploadFacts.

Import TransferManager.

Lemma stream_finish_lookup (now : Z) (tid : string) (w : World) (x : Transfer) :
  transfers (manager w) !! tid = Some x ->
  transfers (manager (stream_finish now tid w)) !! tid =
  Some (set_EndTime now (set_Status TransferCompleted x)).
Proof.
  intros H. unfold stream_finish. cbn [on_manager manager transfers].
  rewrite TransferFacts.update_lookup, H. reflexivity.
Qed.

Lemma stream_finish_counts (now : Z) (tid : string) (w : World) (x : Transfer) :
  transfers (manager w) !! tid = Some x ->
  totalUploads (manager (stream_finish now tid w)) =
    Int64.add (totalUploads (manager w)) 1 /\
  bytesUploaded (manager (stream_finish now tid w)) =
    Int64.add (bytesUploaded (manager w)) (TotalBytes x) /\
  progressChan (manager (stream_finish now tid w)) = progressChan (manager w) /\
  wire (stream_finish now tid w) = wire w /\
  disk (stream_finish now tid w) = disk w.
Proof.
  intros H. unfold stream_finish.
  cbn [on_manager manager transfers totalUploads bytesUploaded progressChan wire disk].
  rewrite TransferFacts.update_lookup, H. simpl. auto.
Qed.

(** The record after a chunk of [n] bytes has been counted. *)
Lemma send_chunk_lookup (tid : string) (c : list byte) (w : World) (x : Transfer) :
  transfers (manager w) !! tid = Some x ->
  exists x1,
    transfers (manager (send_chunk tid c w)) !! tid = Some x1 /\
    SentBytes x1 = Int64.add (SentBytes x) (Z.of_nat (length c)) /\
    TotalBytes x1 = TotalBytes x /\ Status x1 = Status x /\ EndTime x1 = EndTime x /\
    ID x1 = ID x /\ CID x1 = CID x /\ PeerID x1 = PeerID x /\ Direction x1 = Direction x /\
    Error x1 = Error x.
Proof.
  intros H. unfold send_chunk. cbn [on_manager manager set_wire].
  rewrite TransferFacts.update_lookup, H. eexists. split; [reflexivity|].
  repeat split.
Qed.

Lemma send_chunk_rest (tid : string) (c : list byte) (w : World) :
  wire (send_chunk tid c w) = (wire w ++ c)%list /\
  disk (send_chunk tid c w) = disk w /\
  progressChan (manager (send_chunk tid c w)) = progressChan (manager w) /\
  totalUploads (manager (send_chunk tid c w)) = totalUploads (manager w) /\
  bytesUploaded (manager (send_chunk tid c w)) = bytesUploaded (manager w).
Proof. repeat split. Qed.

(** A pass that reads and writes without error: it goes on when the
    channel has room for its update, and waits in the send when not. *)
Lemma stream_pass (tid : string) (c : list byte) (w : World) (x : Transfer) :
  transfers (manager w) !! tid = Some x ->
  exists u,
    stream_iter tid (mkRead c None) None w =
    match push_progress u (manager (send_chunk tid c w)) with
    | Some tm => (mkWorld tm (disk w) (wire w ++ c), Continue)
    | None => (send_chunk tid c w, Park)
    end.
Proof.
  intros H. unfold stream_iter. cbn [rd_err rd_data].
  destruct (send_chunk_lookup tid c w x H) as (x1 & -> & _).
  eexists. reflexivity.
Qed.

Section Loop.

Context (now : Z) (env : StreamEnv) (tid : string).

Lemma stream_loop_delivers (chunks : list (list byte)) :
  forall (tail : list read_result) (k : nat) (w : World) (x : Transfer),
    Invariant.file_ends tail ->
    (forall j, (j < length chunks)%nat -> send_err env (k + j) = None) ->
    transfers (manager w) !! tid = Some x ->
    Int64.in_range (SentBytes x) ->
    (SentBytes x + Z.of_nat (length (concat chunks)) <= Int64.max_int)%Z ->
    (length (progressChan (manager w)) + length chunks <= ProgressCapacity)%nat ->
    exists w1 x1,
      stream_loop now env tid (map (fun c => mkRead c None) chunks ++ tail) k w =
        (w1, Returned None) /\
      wire w1 = (wire w ++ concat chunks)%list /\
      disk w1 = disk w /\
      transfers (manager w1) !! tid = Some x1 /\
      Status x1 = TransferCompleted /\
      EndTime x1 = now /\
      SentBytes x1 = (SentBytes x + Z.of_nat (length (concat chunks)))%Z /\
      TotalBytes x1 = TotalBytes x /\
      totalUploads (manager w1) = Int64.add (totalUploads (manager w)) 1 /\
      bytesUploaded (manager w1) = Int64.add (bytesUploaded (manager w)) (TotalBytes x) /\
      length (progressChan (manager w1)) =
        (length (progressChan (manager w)) + length chunks)%nat.
Proof.
  induction chunks as [|c chunks IH]; intros tail k w x Hends Hsend Hin Hrange Hsum Hroom.
  - assert (Hfin : stream_loop now env tid ([] ++ tail) k w =
                   (stream_finish now tid w, Returned None)).
    { destruct Hends as [-> | (d & rest & ->)]; [reflexivity|].
      simpl. reflexivity. }
    destruct (stream_finish_counts now tid w x Hin) as (H1 & H2 & H3 & H4 & H5).
    exists (stream_finish now tid w), (set_EndTime now (set_Status TransferCompleted x)).
    cbn [map]. rewrite Hfin, H1, H2, H3, H4, H5.
    rewrite (stream_finish_lookup now tid w x Hin). cbn [concat length].
    rewrite app_nil_r, Z.add_0_r, Nat.add_0_r. simpl. repeat split; reflexivity.
  - destruct (stream_pass tid c w x Hin) as (u & Hit).
    destruct (send_chunk_lookup tid c w x Hin)
      as (x1 & Hin1 & Hs & Ht & _).
    destruct (send_chunk_rest tid c w) as (Hw & Hd & Hp & Hu & Hb).
    cbn [length] in Hroom.
    rewrite TransferFacts.push_progress_room in Hit by (rewrite Hp; lia).
    assert (Hk : send_err env k = None).
    { rewrite <- (Nat.add_0_r k). apply Hsend. simpl. lia. }
    cbn [concat] in Hsum. rewrite length_app in Hsum.
    assert (Hs1 : SentBytes x1 = (SentBytes x + Z.of_nat (length c))%Z).
    { rewrite Hs. apply Int64Facts.wrap64_id.
      unfold Int64.in_range, Int64.min_int, Int64.max_int in *. lia. }
    set (w' := mkWorld _ (disk w) (wire w ++ c)) in Hit.
    destruct (IH tail (S k) w' x1 Hends)
      as (w2 & x2 & Hl & G1 & G2 & G3 & G4 & G5 & G6 & G7 & G8 & G9 & G10).
    + intros j Hj. replace (S k + j)%nat with (k + S j)%nat by lia.
      apply Hsend. simpl. lia.
    + exact Hin1.
    + rewrite Hs1. unfold Int64.in_range, Int64.min_int, Int64.max_int in *. lia.
    + rewrite Hs1. unfold Int64.max_int in *. lia.
    + subst w'. cbn [manager progressChan]. rewrite length_app, Hp. cbn [length]. lia.
    + exists w2, x2. cbn [map app stream_loop]. rewrite Hk, Hit, Hl.
      rewrite G1, G2, G3, G6, Hs1, G7, Ht, G8, G9, G10.
      subst w'. cbn [manager progressChan wire disk totalUploads bytesUploaded].
      rewrite Hp, Hu, Hb.
      cbn [concat]. rewrite !length_app, <- app_assoc. cbn [length].
      rewrite ?Ht. repeat split; try reflexivity; try assumption; lia.
Qed.

(** With room for fewer updates than there are chunks the loop waits for
    ever in the send that finds the channel full, the chunk of that pass
    written and counted. *)
Lemma stream_loop_parks (chunks : list (list byte)) :
  forall (tail : list read_result) (k : nat) (w : World) (x : Transfer),
    (forall j, (j < length chunks)%nat -> send_err env (k + j) = None) ->
    transfers (manager w) !! tid = Some x ->
    Int64.in_range (SentBytes x) ->
    (SentBytes x + Z.of_nat (length (concat chunks)) <= Int64.max_int)%Z ->
    let room := (ProgressCapacity - length (progressChan (manager w)))%nat in
    (room < length chunks)%nat ->
    exists w1 x1,
      stream_loop now env tid (map (fun c => mkRead c None) chunks ++ tail) k w =
        (w1, Parked) /\
      wire w1 = (wire w ++ concat (take (S room) chunks))%list /\
      transfers (manager w1) !! tid = Some x1 /\
      Status x1 = Status x /\
      SentBytes x1 =
        (SentBytes x + Z.of_nat (length (concat (take (S room) chunks))))%Z /\
      totalUploads (manager w1) = totalUploads (manager w).
Proof.
  induction chunks as [|c chunks IH]; intros tail k w x Hsend Hin Hrange Hsum room Hroom;
    [simpl in Hroom; lia|].
  destruct (stream_pass tid c w x Hin) as (u & Hit).
  destruct (send_chunk_lookup tid c w x Hin) as (x1 & Hin1 & Hs & Ht & Hst & _).
  destruct (send_chunk_rest tid c w) as (Hw & Hd & Hp & Hu & Hb).
  assert (Hk : send_err env k = None).
  { rewrite <- (Nat.add_0_r k). apply Hsend. simpl. lia. }
  cbn [concat] in Hsum. rewrite length_app in Hsum.
  assert (Hs1 : SentBytes x1 = (SentBytes x + Z.of_nat (length c))%Z).
  { rewrite Hs. apply Int64Facts.wrap64_id.
    unfold Int64.in_range, Int64.min_int, Int64.max_int in *. lia. }
  cbn [map app stream_loop]. rewrite Hk, Hit.
  destruct (le_lt_dec ProgressCapacity (length (progressChan (manager w)))) as [Hfull|Hfree].
  - rewrite TransferFacts.push_progress_full by (rewrite Hp; lia).
    exists (send_chunk tid c w), x1.
    replace room with 0%nat by (unfold room; lia).
    cbn [take concat]. rewrite app_nil_r.
    split; [reflexivity|]. split; [exact Hw|]. split; [exact Hin1|].
    split; [exact Hst|]. split; [exact Hs1 | exact Hu].
  - rewrite TransferFacts.push_progress_room by (rewrite Hp; lia).
    set (w' := mkWorld _ (disk w) (wire w ++ c)).
    destruct (IH tail (S k) w' x1) as (w2 & x2 & Hl & G1 & G2 & G3 & G4 & G5).
    + intros j Hj. replace (S k + j)%nat with (k + S j)%nat by lia.
      apply Hsend. simpl. lia.
    + exact Hin1.
    + rewrite Hs1. unfold Int64.in_range, Int64.min_int, Int64.max_int in *. lia.
    + rewrite Hs1. unfold Int64.max_int in *. lia.
    + subst w'. cbn [manager progressChan]. rewrite length_app, Hp. cbn [length].
      unfold room in Hroom. cbn [length] in Hroom. lia.
    + exists w2, x2. rewrite Hl.
      assert (Hr : room = S (ProgressCapacity - length (progressChan (manager w')))).
      { subst w'. cbn [manager progressChan]. rewrite length_app, Hp. cbn [length].
        unfold room. lia. }
      rewrite Hr. cbn [take concat]. rewrite length_app.
      split; [reflexivity|].
      split; [rewrite G1; subst w'; cbn [wire]; rewrite <- app_assoc; reflexivity|].
      split; [exact G2|]. split; [congruence|].
      split; [rewrite G4, Hs1; lia|].
      rewrite G5. subst w'. cbn [manager totalUploads]. exact Hu.
Qed.

(** What the loop leaves of the record it works on, whatever it meets:
    failed when it returns an error, completed when it returns none, and as
    it was when it waits, which it does only when the channel has room for
    fewer updates than there are reads. *)
Lemma stream_loop_outcome (reads : list read_result) :
  forall (k : nat) (w w1 : World) (out : ending) (x : Transfer),
    stream_loop now env tid reads k w = (w1, out) ->
    transfers (manager w) !! tid = Some x ->
    exists x1,
      transfers (manager w1) !! tid = Some x1 /\
      CID x1 = CID x /\ PeerID x1 = PeerID x /\ Direction x1 = Direction x /\
      TotalBytes x1 = TotalBytes x /\
      match out with
      | Returned r =>
          Status x1 = match r with Some _ => TransferFailed | None => TransferCompleted end
      | Parked =>
          Status x1 = Status x /\ EndTime x1 = EndTime x /\
          (ProgressCapacity < length (progressChan (manager w)) + length reads)%nat
      end.
Proof.
  induction reads as [|rd reads IH]; intros k w w1 out x Hloop Hin.
  - simpl in Hloop. injection Hloop as <- <-.
    rewrite (stream_finish_lookup now tid w x Hin). eexists. split; [reflexivity|].
    repeat split.
  - cbn [stream_loop] in Hloop.
    destruct rd as [data [[|m]|]].
    + simpl in Hloop. injection Hloop as <- <-.
      rewrite (stream_finish_lookup now tid w x Hin). eexists. split; [reflexivity|].
      repeat split.
    + simpl in Hloop. injection Hloop as <- <-. cbn [on_manager manager].
      rewrite TransferFacts.fail_lookup, Hin. eexists. split; [reflexivity|].
      repeat split.
    + destruct (send_err env k) as [m|].
      * simpl in Hloop. injection Hloop as <- <-. cbn [on_manager manager].
        rewrite TransferFacts.fail_lookup, Hin. eexists. split; [reflexivity|].
        repeat split.
      * destruct (stream_pass tid data w x Hin) as (u & Hit).
        destruct (send_chunk_lookup tid data w x Hin)
          as (x2 & Hin2 & _ & Ht & Hst & Hend & _ & Hc & Hp & Hd & _).
        destruct (send_chunk_rest tid data w) as (_ & _ & Hchan & _).
        rewrite Hit in Hloop.
        destruct (le_lt_dec ProgressCapacity (length (progressChan (manager w))))
          as [Hfull|Hfree].
        -- rewrite TransferFacts.push_progress_full in Hloop by (rewrite Hchan; lia).
           injection Hloop as <- <-. exists x2. split; [exact Hin2|].
           repeat split; try assumption. cbn [length]. lia.
        -- rewrite TransferFacts.push_progress_room in Hloop by (rewrite Hchan; lia).
           set (w' := mkWorld _ (disk w) (wire w ++ data)) in Hloop.
           destruct (IH _ w' _ _ x2 Hloop Hin2) as (x1 & G1 & G2 & G3 & G4 & G5 & G6).
           exists x1. rewrite G1, G2, G3, G4, G5, Ht, Hc, Hp, Hd.
           repeat split.
           destruct out as [r|]; [exact G6|].
           destruct G6 as (S1 & S2 & S3). split; [congruence|]. split; [congruence|].
           subst w'. cbn [manager progressChan] in S3. rewrite length_app, Hchan in S3.
           cbn [length] in *. lia.
Qed.

End Loop.


Lemma completeTransfer_lookup (now : Z) (id : string) (tm : t) (x : Transfer) :
  transfers tm !! id = Some x ->
  transfers (completeTransfer now id tm) !! id =
  Some (set_EndTime now
          (if status_eqb (Status x) TransferActive
           then set_Status TransferCompleted x else x)).
Proof.
  intros H. unfold completeTransfer. rewrite H. simpl. apply lookup_insert_eq.
Qed.

(** X26.  A request for a file that is indexed with a local path is
    accepted, and a record of the transfer is kept under the digest of the
    content identifier and the clock.  When the call returns, the record has
    the end time of the deferred [completeTransfer]; its status is failed
    when sending the response, a read of the file or a write to the
    connection failed.  When the file cannot be opened the call returns the
    error, yet the record ends as completed, with no byte sent.  The call
    returns unless the progress channel has room for fewer updates than the
    file has reads: then it may wait for ever in a send, and the record
    stays active with no end time. *)
Theorem HandleUploadRequest_outcome
    (nowID nowStart nowStream nowEnd : Z) (env : UploadEnv) (idx : Indexer.t)
    (cid requesterID : string) (w : World) (file : AcademicFile.t) (path : string) :
  Indexer.GetFile cid idx = Some file ->
  Indexer.GetLocalFilePath cid idx = Some path ->
  exists w1 out x,
    HandleUploadRequest nowID nowStart nowStream nowEnd env idx cid requesterID w =
      (w1,
       mkResponse cid true "" (AcademicFile.Size file) (AcademicFile.Checksum file),
       out) /\
    transfers (manager w1) !! Utils.HashString (cid ++ "-" ++ Go.format_d nowID) =
      Some x /\
    CID x = cid /\ PeerID x = requesterID /\ Direction x = "upload"%string /\
    TotalBytes x = AcademicFile.Size file /\
    match out with
    | Returned err =>
        EndTime x = nowEnd /\
        match respond_err env with
        | Some m => err = Some m /\ Status x = TransferFailed /\ Error x = m
        | None =>
            match open_err (stream_env env) with
            | Some m =>
                err = Some ("failed to open file: " ++ m)%string /\
                Status x = TransferCompleted /\ SentBytes x = 0%Z /\ wire w1 = wire w
            | None =>
                Status x =
                  match err with Some _ => TransferFailed | None => TransferCompleted end
            end
        end
    | Parked =>
        respond_err env = None /\ open_err (stream_env env) = None /\
        Status x = TransferActive /\ EndTime x = Go.zero_time /\
        (ProgressCapacity <
         length (progressChan (manager w)) + length (file_reads (stream_env env)))%nat
    end.
Proof.
  intros Hfile Hpath. unfold HandleUploadRequest. rewrite Hfile, Hpath.
  set (tid := Utils.HashString (cid ++ "-" ++ Go.format_d nowID)).
  set (x0 := mkTransfer tid cid (AcademicFile.FileName file) requesterID "upload"
               TransferActive (AcademicFile.Size file) 0 nowStart Go.zero_time "" 0).
  cbn [ID]. change (ID x0) with tid.
  assert (Hin : transfers (manager (on_manager (addTransfer x0) w)) !! tid = Some x0).
  { cbn [on_manager manager addTransfer set_transfers transfers].
    change (ID x0) with tid. apply lookup_insert_eq. }
  destruct (respond_err env) as [m|]; [cbn [on_manager manager] in Hin|].
  - eexists _, _, _. split; [reflexivity|].
    cbn [on_manager manager].
    erewrite completeTransfer_lookup
      by (rewrite TransferFacts.fail_lookup, Hin; reflexivity).
    split; [reflexivity|]. simpl. repeat split.
  - unfold streamFile. destruct (open_err (stream_env env)) as [m|].
    + eexists _, _, _. split; [reflexivity|].
      cbn [on_manager manager]. cbn [on_manager manager] in Hin.
      erewrite completeTransfer_lookup by exact Hin.
      split; [reflexivity|]. simpl. repeat split.
    + destruct (stream_loop nowStream (stream_env env) tid
                  (file_reads (stream_env env)) 0 (on_manager (addTransfer x0) w))
        as [w2 out] eqn:Hloop.
      destruct (stream_loop_outcome _ _ _ _ _ _ _ _ _ Hloop Hin)
        as (x1 & G1 & G2 & G3 & G4 & G5 & G6).
      destruct out as [r|].
      * eexists _, _, _. split; [reflexivity|].
        cbn [on_manager manager].
        erewrite completeTransfer_lookup by exact G1.
        split; [reflexivity|].
        destruct r; rewrite G6; simpl; rewrite ?G2, ?G3, ?G4, ?G5; repeat split; exact G6.
      * destruct G6 as (S1 & S2 & S3).
        exists w2, Parked, x1. split; [reflexivity|]. split; [exact G1|].
        rewrite G2, G3, G4, G5, S1, S2. repeat split. exact S3.
Qed.

End UploadFacts.

(** ** The indexer *)

Module IndexerFacts.

Import Indexer.

(** X27.  When the file can be examined and read, is not above the size
    limit and has an allowed type, [IndexFile] returns a new record made
    from the name and size of the file, the extension of the path in lower
    case and the content; the record and the path are then found under the
    SHA-256 digest of the content, whatever was recorded under it before,
    and the entries of other identifiers are as they were.  [RemoveFile]
    takes both away again. *)
Theorem IndexFile_then_found
    (now : Z) (env : FileEnv) (filePath ownerID : string) (idx : t)
    (name : string) (size : Z) (content : list byte) :
  stat env = inl (name, size) ->
  (size <= Utils.MaxFileSizeBytes)%Z ->
  Utils.IsAllowedFileType (Go.ToLower (Go.Ext filePath)) = true ->
  read_file env = inl content ->
  let f := AcademicFile.NewAcademicFile now name ownerID size
             (Go.ToLower (Go.Ext filePath)) content in
  let idx1 := (IndexFile now env filePath ownerID idx).1 in
  (IndexFile now env filePath ownerID idx).2 = inl f /\
  AcademicFile.CID f = Utils.HashBytes content /\
  GetFile (AcademicFile.CID f) idx1 = Some f /\
  GetLocalFilePath (AcademicFile.CID f) idx1 = Some filePath /\
  (forall cid, cid <> AcademicFile.CID f ->
     GetFile cid idx1 = GetFile cid idx /\
     GetLocalFilePath cid idx1 = GetLocalFilePath cid idx) /\
  GetFile (AcademicFile.CID f) (RemoveFile (AcademicFile.CID f) idx1) = None /\
  GetLocalFilePath (AcademicFile.CID f) (RemoveFile (AcademicFile.CID f) idx1) = None.
Proof.
  intros Hstat Hsize Htype Hread f idx1.
  assert (E : IndexFile now env filePath ownerID idx =
              (mk (FileIndex.Add f (fileIndex idx))
                  (<[AcademicFile.CID f := filePath]> (localFiles idx))
                  (watchDir idx) (isRunning idx), inl f)).
  { unfold IndexFile. rewrite Hstat, Hread, Htype.
    destruct (Utils.MaxFileSizeBytes <? size)%Z eqn:E; [lia|]. reflexivity. }
  subst idx1. rewrite E. cbn [fst snd].
  unfold GetFile, GetLocalFilePath, RemoveFile, FileIndex.Get, FileIndex.Add,
    FileIndex.Remove.
  cbn [fileIndex localFiles].
  rewrite !lookup_insert_eq, !lookup_delete_eq.
  repeat split; try reflexivity.
  - rewrite lookup_insert_ne by congruence. reflexivity.
  - rewrite lookup_insert_ne by congruence. reflexivity.
Qed.

End IndexerFacts.


(** The request for the indexed file, served in two chunks. *)
Lemma HandleUploadRequest_outcome_witness :
  exists w1 x,
    (TransferManager.HandleUploadRequest 1 2 3 4 env_served indexer_notes
       (Utils.HashBytes (SHA256.bytes_of_string "abc")) "peer-b" world_idle).1.1 = w1 /\
    (TransferManager.HandleUploadRequest 1 2 3 4 env_served indexer_notes
       (Utils.HashBytes (SHA256.bytes_of_string "abc")) "peer-b" world_idle).2 =
      TransferManager.Returned None /\
    TransferManager.transfers (TransferManager.manager w1) !!
      Utils.HashString
        (Utils.HashBytes (SHA256.bytes_of_string "abc") ++ "-" ++ Go.format_d 1) =
      Some x /\
    TransferManager.Status x = TransferManager.TransferCompleted /\
    TransferManager.EndTime x = 4.
Proof.
  destruct (UploadFacts.HandleUploadRequest_outcome 1 2 3 4 env_served indexer_notes
              (Utils.HashBytes (SHA256.bytes_of_string "abc")) "peer-b" world_idle
              (AcademicFile.NewAcademicFile 5 "Notes.PDF" "peer-a" 3 ".pdf"
                 (SHA256.bytes_of_string "abc"))
              "/srv/shared/Notes.PDF")
    as (w1 & out & x & E & L & _ & _ & _ & _ & M).
  - vm_compute. reflexivity.
  - vm_compute. reflexivity.
  - assert (Hout : out = TransferManager.Returned None).
    { pose proof E as E'. vm_compute in E'. injection E' as _ E'. symmetry. exact E'. }
    subst out. exists w1, x. rewrite E. cbn [fst snd].
    change (TransferManager.respond_err env_served) with (@None string) in M.
    change (TransferManager.open_err (TransferManager.stream_env env_served))
      with (@None string) in M.
    cbv beta iota in M.
    destruct M as (T & S).
    split; [reflexivity|]. split; [reflexivity|]. split; [exact L|].
    split; [exact S | exact T].
Defined.

Lemma IndexFile_then_found_witness :
  Indexer.GetLocalFilePath (Utils.HashBytes (SHA256.bytes_of_string "abc"))
    indexer_notes = Some "/srv/shared/Notes.PDF"%string.
Proof.
  destruct (IndexerFacts.IndexFile_then_found 5 file_notes "/srv/shared/Notes.PDF"
              "peer-a" (Indexer.NewIndexer "/srv/shared") "Notes.PDF" 3
              (SHA256.bytes_of_string "abc"))
    as (_ & E & _ & H & _).
  - reflexivity.
  - vm_compute. discriminate.
  - reflexivity.
  - reflexivity.
  - rewrite E in H. exact H.
Defined.

(** ** Discovery *)

Module DiscoveryFacts.

Import Discovery.

Abbreviation consistent := Invariant.known_online.

Lemma SetOnline_false_twice (p : Student.t) :
  Student.SetOnline 0 false (Student.SetOnline 0 false p) = Student.SetOnline 0 false p.
Proof. reflexivity. Qed.

Lemma drop_known (d : t) (a id : string) :
  knownPeers (drop d a) !! id =
  if decide (id = a) then None else knownPeers d !! id.
Proof.
  unfold drop. destruct (PeerRegistry.Get a (peerRegistry d)); cbn [knownPeers];
    destruct (decide (id = a)) as [->|Hne];
    rewrite ?lookup_delete_eq, ?lookup_delete_ne by congruence; reflexivity.
Qed.

Lemma drop_registry (d : t) (a id : string) :
  peerRegistry (drop d a) !! id =
  if decide (id = a) then Student.SetOnline 0 false <$> peerRegistry d !! id
  else peerRegistry d !! id.
Proof.
  unfold drop, PeerRegistry.Get.
  destruct (peerRegistry d !! a) eqn:E; cbn [peerRegistry];
    destruct (decide (id = a)) as [->|Hne].
  - apply lookup_alter_eq.
  - apply lookup_alter_ne. congruence.
  - rewrite E. reflexivity.
  - reflexivity.
Qed.

Lemma drops_known (l : list string) :
  forall (d : t) (id : string),
    knownPeers (fold_left drop l d) !! id =
    if decide (id ∈ l) then None else knownPeers d !! id.
Proof.
  induction l as [|a l IH]; intros d id.
  - simpl. destruct (decide (id ∈ [])) as [H|H]; [|reflexivity].
    apply elem_of_nil in H. destruct H.
  - cbn [fold_left]. rewrite IH, drop_known.
    destruct (decide (id ∈ l)) as [H|H].
    + rewrite (decide_True (P := id ∈ a :: l)) by (apply elem_of_cons; right; exact H). reflexivity.
    + destruct (decide (id = a)) as [->|Hne].
      * rewrite (decide_True (P := a ∈ a :: l)) by (apply elem_of_cons; left; reflexivity). reflexivity.
      * rewrite (decide_False (P := id ∈ a :: l)); [reflexivity|].
        intros H'. apply elem_of_cons in H'. destruct H'; contradiction.
Qed.

Lemma drops_registry (l : list string) :
  forall (d : t) (id : string),
    peerRegistry (fold_left drop l d) !! id =
    if decide (id ∈ l) then Student.SetOnline 0 false <$> peerRegistry d !! id
    else peerRegistry d !! id.
Proof.
  induction l as [|a l IH]; intros d id.
  - simpl. destruct (decide (id ∈ [])) as [H|H]; [|reflexivity].
    apply elem_of_nil in H. destruct H.
  - cbn [fold_left]. rewrite IH, drop_registry.
    destruct (decide (id ∈ l)) as [H|H].
    + rewrite (decide_True (P := id ∈ a :: l)) by (apply elem_of_cons; right; exact H).
      destruct (decide (id = a)); [|reflexivity].
      destruct (peerRegistry d !! id); reflexivity.
    + destruct (decide (id = a)) as [->|Hne].
      * rewrite (decide_True (P := a ∈ a :: l)) by (apply elem_of_cons; left; reflexivity). reflexivity.
      * rewrite (decide_False (P := id ∈ a :: l)); [reflexivity|].
        intros H'. apply elem_of_cons in H'. destruct H'; contradiction.
Qed.

Lemma stale_spec (now : Z) (known : gmap string Z) (id : string) :
  id ∈ stale now known <->
  exists lastSeen, known !! id = Some lastSeen /\ PeerTimeout < Go.Sub now lastSeen.
Proof.
  unfold stale. rewrite list_elem_of_fmap. split.
  - intros ([id' ls] & -> & Hin). apply list_elem_of_In, filter_In in Hin.
    destruct Hin as [Hin Hlt]. apply list_elem_of_In, elem_of_map_to_list in Hin.
    exists ls. split; [exact Hin|]. simpl in Hlt. lia.
  - intros (ls & Hin & Hlt). exists (id, ls). split; [reflexivity|].
    apply list_elem_of_In, filter_In. split.
    + apply list_elem_of_In, elem_of_map_to_list, Hin.
    + simpl. lia.
Qed.

Lemma RegisterPeer_consistent (now now' : Z) (msg : DiscoveryMessage) (d : t) :
  consistent d -> consistent (RegisterPeer now now' msg d).
Proof.
  intros Hc id ls. unfold RegisterPeer, PeerRegistry.Get, PeerRegistry.Register.
  destruct (peerRegistry d !! PeerID msg) as [p|] eqn:Hreg.
  - destruct (bool_decide (is_Some (knownPeers d !! PeerID msg))) eqn:Hk;
      cbn [negb knownPeers peerRegistry].
    + apply bool_decide_eq_true in Hk. destruct Hk as [ls0 Hk].
      destruct (decide (id = PeerID msg)) as [->|Hne].
      * intros _. exact (Hc _ _ Hk).
      * rewrite lookup_insert_ne by congruence. apply Hc.
    + destruct (decide (id = PeerID msg)) as [->|Hne].
      * intros _. rewrite lookup_alter_eq, Hreg. eexists. split; reflexivity.
      * rewrite lookup_insert_ne, lookup_alter_ne by congruence. apply Hc.
  - cbn [knownPeers peerRegistry Student.NewStudent Student.ID].
    destruct (decide (id = PeerID msg)) as [->|Hne].
    + intros _. rewrite lookup_insert_eq. eexists. split; reflexivity.
    + rewrite !lookup_insert_ne by congruence. apply Hc.
Qed.

Lemma HandleLeave_consistent (peerID : string) (d : t) :
  consistent d -> consistent (HandleLeave peerID d).
Proof.
  intros Hc id ls. unfold HandleLeave, PeerRegistry.Get.
  destruct (peerRegistry d !! peerID) eqn:Hreg; cbn [knownPeers peerRegistry];
    (destruct (decide (id = peerID)) as [->|Hne];
     [rewrite lookup_delete_eq; discriminate|]);
    rewrite lookup_delete_ne by congruence.
  - rewrite lookup_alter_ne by congruence. apply Hc.
  - apply Hc.
Qed.


(** X29.  A ping of a registered peer that succeeds after the peer has left
    makes the peer known again, and the registry still has it offline.  A
    [RegisterPeer] for the peer that follows finds it known and in the
    registry, so it neither marks it online nor sends an event:
    [IsPeerOnline] then says that the peer is online while the registry,
    from which [GetOnlinePeers] answers, says it is not. *)
Theorem ping_after_leave
    (d : t) (p : Student.t) (msg : DiscoveryMessage) (tPing tSeen tNew tAsk : Z) :
  peerRegistry d !! PeerID msg = Some p ->
  Go.Sub tAsk tSeen < PeerTimeout ->
  let d1 := HandleLeave (PeerID msg) d in
  let d2 := pingPeer tPing true (PeerID msg) d1 in
  let d3 := RegisterPeer tSeen tNew msg d2 in
  IsPeerOnline tAsk (PeerID msg) d3 = true /\
  (exists p3, peerRegistry d3 !! PeerID msg = Some p3 /\ Student.IsOnline p3 = false) /\
  eventChan d3 = eventChan d1 /\
  ~ consistent d3.
Proof.
  intros Hreg Hask d1 d2 d3.
  assert (E1 : d1 = mk (alter (Student.SetOnline 0 false) (PeerID msg) (peerRegistry d))
                       (delete (PeerID msg) (knownPeers d))
                       (eventChan d ++ [mkEvent EventPeerLeft (PeerID msg) ""])).
  { subst d1. unfold HandleLeave, PeerRegistry.Get. rewrite Hreg. reflexivity. }
  assert (R1 : peerRegistry d1 !! PeerID msg = Some (Student.SetOnline 0 false p)).
  { rewrite E1. cbn [peerRegistry]. rewrite lookup_alter_eq, Hreg. reflexivity. }
  assert (E2 : d2 = mk (peerRegistry d1) (<[PeerID msg := tPing]> (knownPeers d1))
                       (eventChan d1)).
  { subst d2. unfold pingPeer, PeerRegistry.Get. rewrite R1. reflexivity. }
  assert (E3 : d3 = mk (peerRegistry d1)
                       (<[PeerID msg := tSeen]> (<[PeerID msg := tPing]> (knownPeers d1)))
                       (eventChan d1)).
  { subst d3. unfold RegisterPeer, PeerRegistry.Get. rewrite E2.
    cbn [peerRegistry knownPeers eventChan]. rewrite R1, lookup_insert_eq.
    rewrite bool_decide_eq_true_2 by (eexists; reflexivity). reflexivity. }
  assert (K3 : knownPeers d3 !! PeerID msg = Some tSeen).
  { rewrite E3. cbn [knownPeers]. apply lookup_insert_eq. }
  assert (R3 : peerRegistry d3 !! PeerID msg = Some (Student.SetOnline 0 false p)).
  { rewrite E3. exact R1. }
  split; [|split; [|split]].
  - unfold IsPeerOnline. rewrite K3. apply Z.ltb_lt, Hask.
  - eexists. split; [exact R3 | reflexivity].
  - rewrite E3. reflexivity.
  - intros Hc. destruct (Hc _ _ K3) as (q & Hq & Hon). rewrite R3 in Hq.
    injection Hq as <-. discriminate.
Qed.

End DiscoveryFacts.

(** ** The upload and download handlers *)

Module GatewayFacts.

Import Gateway.

Lemma CID_nonempty (now : Z) (name owner : string) (size : Z) (ext : string)
    (content : list byte) :
  String.eqb (AcademicFile.CID (AcademicFile.NewAcademicFile now name owner size ext content))
    "" = false.
Proof.
  apply String.eqb_neq. intros H.
  pose proof (HashFacts.HashBytes_length content) as L.
  change (Utils.HashBytes content) with
    (AcademicFile.CID (AcademicFile.NewAcademicFile now name owner size ext content)) in L.
  rewrite H in L. discriminate.
Qed.

(** X30.  An upload with an owner, a file part of a size that is not
    negative and a read without error is answered 201, and the record made
    from it is in the file index under the digest of the buffer read.  A
    download of that digest by a requester whom [CanDownload] allows is then
    answered 200 with the name, size and owner of the upload; the record
    counts one download, the reputation service has been sent the bonus of
    the owner and then the penalty of the requester, and the indexer, in
    which the transfer manager looks files up, is as it was. *)
Theorem upload_then_download
    (t1 t2 t3 : Z) (owner requester : string) (part : FilePart) (srv : Server) :
  owner <> ""%string ->
  requester <> ""%string ->
  0 <= part_Size part ->
  read_failed part = false ->
  (ReputationService.CanDownload requester (reputationService srv)).1 = true ->
  let parts := Go.Split (Filename part) "." in
  let ext :=
    if (1 <? length parts)%nat
    then ("." ++ List.last parts EmptyString)%string else EmptyString in
  let f :=
    AcademicFile.NewAcademicFile t1 (Filename part) owner (part_Size part) ext
      (buffer (part_Size part) (part_read part)) in
  let up := uploadHandler t1 t2 (mkUpload true owner (Some part)) srv in
  let down := downloadHandler t3 (AcademicFile.CID f) requester up.1 in
  up.2 =
    Some (StatusCreated,
          mkResponse true "File uploaded successfully"
            (Uploaded (AcademicFile.CID f) (Filename part) (part_Size part)) "") /\
  AcademicFile.CID f = Utils.HashBytes (buffer (part_Size part) (part_read part)) /\
  FileIndex.Get (AcademicFile.CID f) (fileIndex up.1) = Some f /\
  down.2 =
    (StatusOK,
     mkResponse true "Download initiated"
       (Initiated (AcademicFile.CID f) (Filename part) (part_Size part) owner) "") /\
  FileIndex.Get (AcademicFile.CID f) (fileIndex down.1) =
    Some (AcademicFile.set_DownloadCount 1 f) /\
  ReputationService.eventChan (reputationService down.1) =
    (ReputationService.eventChan (reputationService srv) ++
     [ReputationService.mkEvent ReputationService.EventUpload owner
        ReputationService.UploadBonus "Shared a file" t2;
      ReputationService.mkEvent ReputationService.EventDownload requester
        (- ReputationService.DownloadPenalty)%Q "Downloaded a file" t3])%list /\
  indexer down.1 = indexer srv.
Proof.
  intros Howner Hreq Hsize Hread Hcan parts ext f up down.
  assert (Eup : up =
            (mkServer (FileIndex.Add f (fileIndex srv)) (indexer srv)
               (ReputationService.RecordUpload t2 owner (reputationService srv)),
             Some (StatusCreated,
                   mkResponse true "File uploaded successfully"
                     (Uploaded (AcademicFile.CID f) (Filename part) (part_Size part)) ""))).
  { subst up. unfold uploadHandler. cbn [parsed owner_id file negb].
    apply String.eqb_neq in Howner. rewrite Howner.
    destruct (part_Size part <? 0) eqn:E; [lia|]. rewrite Hread. reflexivity. }
  assert (Hget : FileIndex.Get (AcademicFile.CID f) (fileIndex up.1) = Some f).
  { rewrite Eup. cbn [fst fileIndex]. unfold FileIndex.Get, FileIndex.Add.
    apply lookup_insert_eq. }
  assert (Hcan1 : ReputationService.CanDownload requester (reputationService up.1) =
                  ReputationService.CanDownload requester (reputationService srv)).
  { rewrite Eup. reflexivity. }
  assert (Edown : down =
            (mkServer (<[AcademicFile.CID f := AcademicFile.RecordDownload f]> (fileIndex up.1))
               (indexer up.1)
               (ReputationService.RecordDownload t3 requester (reputationService up.1)),
             (StatusOK,
              mkResponse true "Download initiated"
                (Initiated (AcademicFile.CID f) (Filename part) (part_Size part) owner) ""))).
  { subst down. unfold downloadHandler.
    unfold f at 1. rewrite CID_nonempty. fold f.
    apply String.eqb_neq in Hreq. rewrite Hreq. cbn [orb].
    rewrite Hcan1.
    destruct (ReputationService.CanDownload requester (reputationService srv))
      as [can reason].
    cbn [fst] in Hcan. subst can. cbn [negb]. rewrite Hget. reflexivity. }
  rewrite Edown. cbn [fst snd fileIndex reputationService indexer].
  repeat split.
  - rewrite Eup. reflexivity.
  - exact Hget.
  - unfold FileIndex.Get. rewrite lookup_insert_eq. reflexivity.
  - rewrite Eup. cbn [fst reputationService].
    unfold ReputationService.RecordDownload, ReputationService.RecordUpload,
      ReputationService.send.
    cbn [ReputationService.eventChan]. rewrite <- app_assoc. reflexivity.
  - rewrite Eup. reflexivity.
Qed.

End GatewayFacts.

Lemma discovery_b_known_online : Invariant.known_online discovery_b.
Proof.
  assert (E : discovery_b =
              Discovery.mk
                (<["peer-b"%string := Student.NewStudent 100 "peer-b" "B" "10.0.0.2" 9001]> ∅)
                (<["peer-b"%string := 100]> ∅)
                [Discovery.mkEvent Discovery.EventPeerJoined "peer-b" ""])
    by (vm_compute; reflexivity).
  intros id lastSeen H. rewrite E in H. rewrite E.
  cbn [Discovery.knownPeers Discovery.peerRegistry] in *.
  apply lookup_insert_Some in H.
  destruct H as [[<- _]|[_ H]]; [|rewrite lookup_empty in H; discriminate].
  eexists. split; [apply lookup_insert_eq | reflexivity].
Qed.


Lemma ping_after_leave_witness :
  Discovery.IsPeerOnline 301
    "peer-b"
    (Discovery.RegisterPeer 300 300 announce_b
       (Discovery.pingPeer 200 true "peer-b" (Discovery.HandleLeave "peer-b" discovery_b)))
  = true /\
  exists p,
    Discovery.peerRegistry
      (Discovery.RegisterPeer 300 300 announce_b
         (Discovery.pingPeer 200 true "peer-b" (Discovery.HandleLeave "peer-b" discovery_b)))
      !! "peer-b" = Some p /\
    Student.IsOnline p = false.
Proof.
  destruct (DiscoveryFacts.ping_after_leave discovery_b
              (Student.NewStudent 100 "peer-b" "B" "10.0.0.2" 9001)
              announce_b 200 300 300 301) as (H1 & H2 & _).
  - vm_compute. reflexivity.
  - vm_compute. reflexivity.
  - change (Discovery.PeerID announce_b) with "peer-b"%string in H1, H2.
    split; [exact H1 | exact H2].
Defined.

Lemma upload_then_download_witness :
  (Gateway.downloadHandler 3
     (Utils.HashBytes (SHA256.bytes_of_string "abc")) "peer-alice"
     (Gateway.uploadHandler 1 2 (Gateway.mkUpload true "peer-a" (Some part_notes))
        server_alice).1).2.1 = 200.
Proof.
  destruct (GatewayFacts.upload_then_download 1 2 3 "peer-a" "peer-alice" part_notes
              server_alice) as (_ & E & _ & H & _).
  - discriminate.
  - discriminate.
  - vm_compute. discriminate.
  - reflexivity.
  - vm_compute. reflexivity.
  - change (Gateway.buffer (Gateway.part_Size part_notes) (Gateway.part_read part_notes))
      with (SHA256.bytes_of_string "abc") in E, H.
    rewrite E in H. rewrite H. reflexivity.
Defined.
